(** * StoryWeaver: content assembly, template filling, compilation, rate
    limiting and the content store

    A shallow embedding of [src/models/pdf_generator.py],
    [src/models/ai_service.py] (class [RateLimiter] and the unwrapping of
    model responses) and [src/models/database.py], with the properties the
    specification states about them and further properties of the code.

    Modelling conventions.
    - A Python [str] is a [string]: a sequence of characters with code
      points below 256.  Every character the code inspects is ASCII.
    - A Python [dict] used as a map is a [gmap]; a table of the SQLite store
      is the list of its rows in insertion order.
    - The clock, the file system and the external compiler are explicit
      arguments or explicit state. *)

From Stdlib Require Import ZArith QArith Lqa Ascii String DecimalString.
From stdpp Require Import base option list sorting gmap strings.

Local Open Scope Z_scope.

(** ** Python string primitives *)

Module PyStr.

Definition newline : ascii := "010"%char.
Definition dquote : ascii := "034"%char.
Definition squote : ascii := "039"%char.
Definition backslash : ascii := "092"%char.

(** [s.replace(old, new)] for a one-character [old]. *)
Fixpoint replace (old : ascii) (new : string) (s : string) : string :=
  match s with
  | EmptyString => EmptyString
  | String c rest =>
      if Ascii.eqb c old then new +:+ replace old new rest
      else String c (replace old new rest)
  end.

(** [str.isspace] on one character, for code points below 256. *)
Definition isspace (c : ascii) : bool :=
  let n := N_of_ascii c in
  ((9 <=? n) && (n <=? 13) || (28 <=? n) && (n <=? 32)
   || (n =? 133) || (n =? 160))%N.

(** [s.lstrip()], [s.rstrip()] and [s.strip()]. *)
Fixpoint lstrip (s : string) : string :=
  match s with
  | EmptyString => EmptyString
  | String c rest => if isspace c then lstrip rest else s
  end.

Definition rstrip (s : string) : string :=
  String.rev (lstrip (String.rev s)).

Definition strip (s : string) : string := rstrip (lstrip s).

(** [s.split('\n\n')]: the pieces between the non-overlapping occurrences
    of two consecutive newlines, found from the left; [cur] holds the
    current piece reversed. *)
Fixpoint split_blank_go (cur : string) (s : string) : list string :=
  match s with
  | EmptyString => [String.rev cur]
  | String c rest =>
      match rest with
      | String c' rest' =>
          if Ascii.eqb c newline && Ascii.eqb c' newline
          then String.rev cur :: split_blank_go EmptyString rest'
          else split_blank_go (String c cur) rest
      | EmptyString => [String.rev (String c cur)]
      end
  end.

Definition split_blank (s : string) : list string :=
  split_blank_go EmptyString s.

(** [s.split()]: the maximal runs of non-space characters. *)
Fixpoint split_ws_go (cur : option string) (s : string) : list string :=
  match s with
  | EmptyString => option_list (String.rev <$> cur)
  | String c rest =>
      if isspace c
      then option_list (String.rev <$> cur) ++ split_ws_go None rest
      else split_ws_go
             (Some (String c (default EmptyString cur))) rest
  end.

Definition split_ws (s : string) : list string := split_ws_go None s.

(** [sep.join(parts)]. *)
Fixpoint join (sep : string) (parts : list string) : string :=
  match parts with
  | [] => EmptyString
  | [p] => p
  | p :: rest => p +:+ sep +:+ join sep rest
  end.

(** [str(n)] for an [int]. *)
Definition str_int (n : Z) : string := NilZero.string_of_int (Z.to_int n).

(** A Python string is true when it is not empty. *)
Definition truthy (s : string) : bool :=
  match s with EmptyString => false | _ => true end.

End PyStr.

(** ** Text escaping: [PDFGenerator._clean_text_for_latex] *)

Definition blank_line : string :=
  String PyStr.newline (String PyStr.newline EmptyString).

(** The dictionary [latex_special_chars], in insertion order, which is the
    order a Python [dict] is iterated in. *)
Definition latex_special_chars : list (ascii * string) :=
  [ ("&"%char, "\&");
    ("%"%char, "\%");
    ("$"%char, "\$");
    ("#"%char, "\#");
    ("^"%char, "\textasciicircum{}");
    ("_"%char, "\_");
    ("{"%char, "\{");
    ("}"%char, "\}");
    ("~"%char, "\textasciitilde{}");
    (PyStr.backslash, "\textbackslash{}") ].

(** The loop [for char, replacement in latex_special_chars.items()]. *)
Definition escape_special (text : string) : string :=
  fold_left (fun clean_text '(char, replacement) =>
               PyStr.replace char replacement clean_text)
            latex_special_chars text.

(** The three statements under [# Handle quotes]; each of them searches for
    the straight double quote. *)
Definition handle_quotes (clean_text : string) : string :=
  let clean_text := PyStr.replace PyStr.dquote "''" clean_text in
  let clean_text := PyStr.replace PyStr.dquote "``" clean_text in
  PyStr.replace PyStr.dquote "''" clean_text.

(** [# Add paragraph breaks]. *)
Definition add_paragraph_breaks (clean_text : string) : string :=
  let paragraphs := PyStr.split_blank clean_text in
  PyStr.join blank_line
    ((fun para => "\noindent " +:+ PyStr.strip para) <$>
     filter (fun para => Is_true (PyStr.truthy (PyStr.strip para))) paragraphs).

Definition _clean_text_for_latex (text : string) : string :=
  add_paragraph_breaks (handle_quotes (escape_special text)).

(** ** Dynamic values

    The values a settings dictionary decoded from JSON holds. *)

Inductive pyval :=
| PNone
| PBool (b : bool)
| PInt (n : Z)
| PStr (s : string).

Global Instance pyval_eq_dec : EqDecision pyval.
Proof. solve_decision. Defined.

(** [bool(v)]. *)
Definition pyval_truthy (v : pyval) : bool :=
  match v with
  | PNone => false
  | PBool b => b
  | PInt n => negb (n =? 0)
  | PStr s => PyStr.truthy s
  end.

(** [str(v)], as an f-string renders a value. *)
Definition pyval_str (v : pyval) : string :=
  match v with
  | PNone => "None"
  | PBool true => "True"
  | PBool false => "False"
  | PInt n => PyStr.str_int n
  | PStr s => s
  end.

(** A settings dictionary; [None] when the caller passes no settings. *)
Abbreviation settings := (option (gmap string pyval)).

(** [settings.get(key, default) if settings else default]; an empty
    dictionary is false, and every lookup in it yields the default too. *)
Definition settings_get (st : settings) (key : string) (dflt : pyval)
  : pyval :=
  match st with
  | Some d => default dflt (d !! key)
  | None => dflt
  end.

(** ** The content store: [DatabaseManager] *)

Module Store.

(** Timestamps are seconds on the store's clock ([CURRENT_TIMESTAMP]). *)
Abbreviation timestamp := Z.

(** A value passed as a keyword argument of [update_project]: a string or
    a dictionary. *)
Inductive kwarg :=
| KwStr (s : string)
| KwSettings (m : gmap string pyval).

Global Instance kwarg_eq_dec : EqDecision kwarg.
Proof. solve_decision. Defined.

(** A row of the [projects] table, columns in declaration order.  The
    [settings] column holds JSON text; [p_settings] is what [json.loads]
    makes of it: the dictionary [create_project] wrote, or whatever
    [update_project] was passed as [settings], a dictionary or a string. *)
Record project := {
  p_id : string;
  p_name : string;
  p_type : string;
  p_created_at : timestamp;
  p_updated_at : timestamp;
  p_settings : kwarg;
  p_status : string
}.

(** A row of the [content] table. *)
Record content := {
  c_id : string;
  c_project_id : string;
  c_type : string;
  c_content_text : option string;
  c_image_path : option string;
  c_audio_path : option string;
  c_order_index : Z;
  c_metadata : gmap string string;
  c_created_at : timestamp
}.

(** A row of the [templates] table. *)
Record template := {
  t_id : string;
  t_name : string;
  t_type : string;
  t_latex_template : string;
  t_description : string;
  t_is_default : bool;
  t_created_at : timestamp
}.

(** The database file: each table is the list of its rows, oldest
    insertion first. *)
Record db := {
  projects : list project;
  contents : list content;
  templates : list template
}.

Global Instance project_eq_dec : EqDecision project.
Proof. solve_decision. Defined.
Global Instance content_eq_dec : EqDecision content.
Proof. solve_decision. Defined.

(** What a store operation raises: [sqlite3.IntegrityError] for a primary
    key that is taken; [OverflowError] for an integer parameter outside
    64 bits; and, for a parameter that is a dictionary, the error of the
    binding ([sqlite3.ProgrammingError], [sqlite3.InterfaceError] before
    Python 3.11).  The last two are raised while the parameters are bound,
    before the statement runs; nothing is written then. *)
Inductive store_error :=
| IntegrityError
| OverflowError
| UnsupportedType.

(** A Python [int] that SQLite can take as an INTEGER. *)
Definition fits_int64 (n : Z) : bool :=
  (- 2 ^ 63 <=? n) && (n <? 2 ^ 63).

(** [create_project]: [INSERT INTO projects (id, name, type, settings)];
    the timestamps and the status take their column defaults.  The id is
    the UUID drawn by the call. *)
Definition create_project (now : timestamp) (project_id name project_type : string)
    (st : settings) (d : db) : db + store_error :=
  if bool_decide (project_id ∈ p_id <$> projects d) then inr IntegrityError
  else inl {| projects := projects d ++
                [ {| p_id := project_id; p_name := name;
                     p_type := project_type;
                     p_created_at := now; p_updated_at := now;
                     p_settings := KwSettings (default ∅ st);
                     p_status := "active" |} ];
              contents := contents d;
              templates := templates d |}.

(** [ORDER BY updated_at DESC]. *)
Definition newer_first (p q : project) : Prop :=
  p_updated_at q ≤ p_updated_at p.

Global Instance newer_first_dec : RelDecision newer_first.
Proof. intros p q. unfold newer_first. apply _. Defined.

(** [get_projects]: the active projects, optionally of one type, most
    recently updated first.  [if project_type:] takes the unfiltered
    branch for [None] and for the empty string. *)
Definition get_projects (project_type : option string) (d : db)
  : list project :=
  let by_type :=
    match project_type with
    | Some ty =>
        if PyStr.truthy ty
        then filter (fun p => p_type p = ty ∧ p_status p = "active")
                    (projects d)
        else filter (fun p => p_status p = "active") (projects d)
    | None => filter (fun p => p_status p = "active") (projects d)
    end in
  merge_sort newer_first by_type.

(** [get_project]: [SELECT * FROM projects WHERE id = ?] and [fetchone]. *)
Definition get_project (project_id : string) (d : db) : option project :=
  List.find (fun p => bool_decide (p_id p = project_id)) (projects d).

(** One [key = ?] assignment of the dynamic [UPDATE] statement. *)
Inductive assignment :=
| SetName (s : string)
| SetType (s : string)
| SetStatus (s : string)
| SetSettings (v : kwarg).

(** The keys [update_project] looks for. *)
Definition project_keys : list string := ["name"; "type"; "status"; "settings"].

(** [f'{key} = ?'] for one of the three keys whose value is bound as it
    is. *)
Definition set_column (key : string) (s : string) : assignment :=
  if decide (key = "name") then SetName s
  else if decide (key = "type") then SetType s
  else SetStatus s.

(** The loop over [kwargs.items()] that collects [fields] and [values]: the
    test is on the key alone.  A key it does not recognise adds nothing.
    The value of [name], [type] or [status] is bound as it is: a string is
    stored, a dictionary makes the binding raise.  The value of [settings],
    whatever it is, goes through [json.dumps] and is stored as text. *)
Definition assignment_of (kv : string * kwarg)
  : option (assignment + store_error) :=
  let '(key, value) := kv in
  if bool_decide (key ∈ ["name"; "type"; "status"])
  then match value with
       | KwStr s => Some (inl (set_column key s))
       | KwSettings _ => Some (inr UnsupportedType)
       end
  else if bool_decide (key = "settings")
  then Some (inl (SetSettings value))
  else None.

(** Binding the collected values in order: the first one that cannot be
    bound raises. *)
Fixpoint bind_all {A} (fields : list (A + store_error))
  : list A + store_error :=
  match fields with
  | [] => inl []
  | inr e :: _ => inr e
  | inl a :: rest =>
      match bind_all rest with
      | inl assignments => inl (a :: assignments)
      | inr e => inr e
      end
  end.

Definition assign (a : assignment) (p : project) : project :=
  match a with
  | SetName s =>
      {| p_id := p_id p; p_name := s; p_type := p_type p;
         p_created_at := p_created_at p; p_updated_at := p_updated_at p;
         p_settings := p_settings p; p_status := p_status p |}
  | SetType s =>
      {| p_id := p_id p; p_name := p_name p; p_type := s;
         p_created_at := p_created_at p; p_updated_at := p_updated_at p;
         p_settings := p_settings p; p_status := p_status p |}
  | SetStatus s =>
      {| p_id := p_id p; p_name := p_name p; p_type := p_type p;
         p_created_at := p_created_at p; p_updated_at := p_updated_at p;
         p_settings := p_settings p; p_status := s |}
  | SetSettings v =>
      {| p_id := p_id p; p_name := p_name p; p_type := p_type p;
         p_created_at := p_created_at p; p_updated_at := p_updated_at p;
         p_settings := v; p_status := p_status p |}
  end.

Definition stamp (now : timestamp) (p : project) : project :=
  {| p_id := p_id p; p_name := p_name p; p_type := p_type p;
     p_created_at := p_created_at p; p_updated_at := now;
     p_settings := p_settings p; p_status := p_status p |}.

(** [UPDATE projects SET ... WHERE id = ?]. *)
Definition update_where_id (project_id : string) (f : project → project)
    (rows : list project) : list project :=
  (fun p => if decide (p_id p = project_id) then f p else p) <$> rows.

(** [update_project]: nothing is written when no recognised key is passed
    ([if fields:]), nor when [cursor.execute] raises. *)
Definition update_project (now : timestamp) (project_id : string)
    (kwargs : list (string * kwarg)) (d : db) : db + store_error :=
  let fields := omap assignment_of kwargs in
  match fields with
  | [] => inl d
  | _ =>
      match bind_all fields with
      | inr e => inr e
      | inl assignments =>
          inl {| projects :=
                   update_where_id project_id
                     (fun p => stamp now
                                 (fold_left (fun p a => assign a p)
                                            assignments p))
                     (projects d);
                 contents := contents d;
                 templates := templates d |}
      end
  end.

(** [delete_project]:
    [UPDATE projects SET status = 'deleted', updated_at = CURRENT_TIMESTAMP
     WHERE id = ?]. *)
Definition delete_project (now : timestamp) (project_id : string) (d : db)
  : db :=
  {| projects :=
       update_where_id project_id
         (fun p => stamp now (assign (SetStatus "deleted") p)) (projects d);
     contents := contents d;
     templates := templates d |}.

(** [add_content]: [INSERT INTO content (...)]; [created_at] takes its
    column default.  SQLite does not enforce the foreign key unless asked
    to, and no connection asks.  An [order_index] outside 64 bits cannot be
    bound. *)
Definition add_content (now : timestamp) (content_id project_id content_type : string)
    (text image_path audio_path : option string) (order_index : Z)
    (metadata : option (gmap string string)) (d : db) : db + store_error :=
  if negb (fits_int64 order_index) then inr OverflowError
  else if bool_decide (content_id ∈ c_id <$> contents d) then inr IntegrityError
  else inl {| projects := projects d;
              contents := contents d ++
                [ {| c_id := content_id; c_project_id := project_id;
                     c_type := content_type; c_content_text := text;
                     c_image_path := image_path;
                     c_audio_path := audio_path;
                     c_order_index := order_index;
                     c_metadata := default ∅ metadata;
                     c_created_at := now |} ];
              templates := templates d |}.

(** [ORDER BY order_index, created_at]. *)
Definition content_order (a b : content) : Prop :=
  c_order_index a < c_order_index b ∨
  (c_order_index a = c_order_index b ∧ c_created_at a ≤ c_created_at b).

Global Instance content_order_dec : RelDecision content_order.
Proof. intros a b. unfold content_order. apply _. Defined.

(** [get_project_content]. *)
Definition get_project_content (project_id : string) (d : db)
  : list content :=
  merge_sort content_order
    (filter (fun c => c_project_id c = project_id) (contents d)).

(** [delete_content]: [DELETE FROM content WHERE id = ?]. *)
Definition delete_content (content_id : string) (d : db) : db :=
  {| projects := projects d;
     contents := filter (fun c => c_id c ≠ content_id) (contents d);
     templates := templates d |}.

(** [get_template]. *)
Definition get_template (template_id : string) (d : db) : option template :=
  List.find (fun t => bool_decide (t_id t = template_id)) (templates d).

(** A value passed as a keyword argument of [update_content]: a string or
    [None], an integer, or a dictionary. *)
Inductive content_kwarg :=
| CkStr (s : option string)
| CkInt (n : Z)
| CkMetadata (m : gmap string string).

(** One [key = ?] assignment of the [UPDATE content] statement. *)
Inductive content_assignment :=
| SetContentText (s : option string)
| SetImagePath (s : option string)
| SetAudioPath (s : option string)
| SetOrderIndex (n : Z)
| SetMetadata (m : gmap string string).

(** The keys [update_content] looks for. *)
Definition content_keys : list string :=
  ["content_text"; "image_path"; "audio_path"; "order_index"; "metadata"].

(** What becomes of one value of the [UPDATE content] statement: it is
    stored, as the assignment says; binding it raises; or it is stored as a
    value the row record cannot hold ([BoundOutside]): text or [NULL] in
    the [order_index] column, and metadata that is not a dictionary. *)
Inductive bound :=
| Bound (a : content_assignment)
| BindRaises (e : store_error)
| BoundOutside.

(** [f'{key} = ?'] for one of the three columns declared [TEXT]. *)
Definition set_text_column (key : string) (s : option string)
  : content_assignment :=
  if decide (key = "content_text") then SetContentText s
  else if decide (key = "image_path") then SetImagePath s
  else SetAudioPath s.

(** A value for one of the three columns declared [TEXT]: an integer is
    stored in its text form. *)
Definition text_column (key : string) (value : content_kwarg) : bound :=
  match value with
  | CkStr s => Bound (set_text_column key s)
  | CkInt n =>
      if fits_int64 n then Bound (set_text_column key (Some (PyStr.str_int n)))
      else BindRaises OverflowError
  | CkMetadata _ => BindRaises UnsupportedType
  end.

(** A value for the column [order_index], declared [INTEGER]. *)
Definition integer_column (value : content_kwarg) : bound :=
  match value with
  | CkInt n =>
      if fits_int64 n then Bound (SetOrderIndex n)
      else BindRaises OverflowError
  | CkStr _ => BoundOutside
  | CkMetadata _ => BindRaises UnsupportedType
  end.

(** The loop over [kwargs.items()] of [update_content]; as in
    [update_project] the test is on the key alone, a key it does not
    recognise adds nothing, and the value of [metadata] goes through
    [json.dumps]. *)
Definition content_assignment_of (kv : string * content_kwarg)
  : option bound :=
  let '(key, value) := kv in
  if bool_decide (key ∈ ["content_text"; "image_path"; "audio_path"])
  then Some (text_column key value)
  else if bool_decide (key = "order_index")
  then Some (integer_column value)
  else if bool_decide (key = "metadata")
  then Some (match value with
             | CkMetadata m => Bound (SetMetadata m)
             | _ => BoundOutside
             end)
  else None.

(** The first value, in order, whose binding raises. *)
Fixpoint first_raise (fields : list bound) : option store_error :=
  match fields with
  | [] => None
  | BindRaises e :: _ => Some e
  | _ :: rest => first_raise rest
  end.

(** The assignments, when every value is stored as the record holds it. *)
Fixpoint all_bound (fields : list bound) : option (list content_assignment) :=
  match fields with
  | [] => Some []
  | Bound a :: rest => cons a <$> all_bound rest
  | _ :: _ => None
  end.

(** What [update_content] does. *)
Inductive update_result :=
| Written (d : db)
| Raises (e : store_error)
| OutsideModel.

Definition assign_content (a : content_assignment) (c : content) : content :=
  match a with
  | SetContentText s =>
      {| c_id := c_id c; c_project_id := c_project_id c; c_type := c_type c;
         c_content_text := s; c_image_path := c_image_path c;
         c_audio_path := c_audio_path c; c_order_index := c_order_index c;
         c_metadata := c_metadata c; c_created_at := c_created_at c |}
  | SetImagePath s =>
      {| c_id := c_id c; c_project_id := c_project_id c; c_type := c_type c;
         c_content_text := c_content_text c; c_image_path := s;
         c_audio_path := c_audio_path c; c_order_index := c_order_index c;
         c_metadata := c_metadata c; c_created_at := c_created_at c |}
  | SetAudioPath s =>
      {| c_id := c_id c; c_project_id := c_project_id c; c_type := c_type c;
         c_content_text := c_content_text c; c_image_path := c_image_path c;
         c_audio_path := s; c_order_index := c_order_index c;
         c_metadata := c_metadata c; c_created_at := c_created_at c |}
  | SetOrderIndex n =>
      {| c_id := c_id c; c_project_id := c_project_id c; c_type := c_type c;
         c_content_text := c_content_text c; c_image_path := c_image_path c;
         c_audio_path := c_audio_path c; c_order_index := n;
         c_metadata := c_metadata c; c_created_at := c_created_at c |}
  | SetMetadata m =>
      {| c_id := c_id c; c_project_id := c_project_id c; c_type := c_type c;
         c_content_text := c_content_text c; c_image_path := c_image_path c;
         c_audio_path := c_audio_path c; c_order_index := c_order_index c;
         c_metadata := m; c_created_at := c_created_at c |}
  end.

(** [update_content]: [UPDATE content SET ... WHERE id = ?], skipped when no
    recognised key is passed; nothing is written when [cursor.execute]
    raises. *)
Definition update_content (content_id : string)
    (kwargs : list (string * content_kwarg)) (d : db) : update_result :=
  let fields := omap content_assignment_of kwargs in
  match fields with
  | [] => Written d
  | _ =>
      match first_raise fields with
      | Some e => Raises e
      | None =>
          match all_bound fields with
          | None => OutsideModel
          | Some assignments =>
              Written
                {| projects := projects d;
                   contents :=
                     (fun c => if decide (c_id c = content_id)
                               then fold_left (fun c a => assign_content a c)
                                              assignments c
                               else c) <$> contents d;
                   templates := templates d |}
          end
      end
  end.

(** [SELECT type, COUNT( * ) ... GROUP BY type], read into a dictionary. *)
Definition count_by_type {A} (type_of : A → string) (rows : list A)
  : gmap string nat :=
  fold_left (fun counts row =>
               <[type_of row := S (default 0%nat (counts !! type_of row))]> counts)
            rows ∅.

(** [sum(d.values())]. *)
Definition sum_values (counts : gmap string nat) : nat :=
  map_fold (fun _ n total => (n + total)%nat) 0%nat counts.

(** The dictionary [get_statistics] returns. *)
Record statistics := {
  projects_by_type : gmap string nat;
  total_content : nat;
  content_by_type : gmap string nat;
  total_projects : nat
}.

(** [get_statistics]. *)
Definition get_statistics (d : db) : statistics :=
  let projects_by_type :=
    count_by_type p_type
      (filter (fun p => p_status p = "active") (projects d)) in
  {| projects_by_type := projects_by_type;
     total_content := length (contents d);
     content_by_type := count_by_type c_type (contents d);
     total_projects := sum_values projects_by_type |}.

(** The lines of a triple-quoted literal. *)
Definition lines (ls : list string) : string :=
  PyStr.join (String PyStr.newline EmptyString) ls.

(** The three template texts of [insert_default_templates], as the string
    literals denote them: each doubled backslash of the source is one
    backslash. *)
Definition children_storybook_template : string :=
  lines
  [ "\documentclass[a4paper,12pt]{book}";
    "\usepackage[utf8]{inputenc}";
    "\usepackage{graphicx}";
    "\usepackage[margin=1in]{geometry}";
    "\usepackage{fancyhdr}";
    "\usepackage{titlesec}";
    "\usepackage{xcolor}";
    "\usepackage{tcolorbox}";
    EmptyString;
    "\definecolor{storyblue}{RGB}{102,126,234}";
    "\definecolor{storypurple}{RGB}{118,75,162}";
    EmptyString;
    "\title{{\Huge\textcolor{storyblue}{{{title}}}}}";
    "\author{{\Large\textcolor{storypurple}{{{author}}}}}";
    "\date{{\textcolor{gray}{{{date}}}}}";
    EmptyString;
    "\pagestyle{fancy}";
    "\fancyhf{{}}";
    "\fancyhead[C]{{\textcolor{storyblue}{{{title}}}}}";
    "\fancyfoot[C]{{\thepage}}";
    EmptyString;
    "\begin{{document}}";
    "\maketitle";
    "\newpage";
    "\tableofcontents";
    "\newpage";
    EmptyString;
    "{content}";
    EmptyString;
    "\end{{document}}" ].

Definition comic_book_template : string :=
  lines
  [ "\documentclass[a4paper]{article}";
    "\usepackage[utf8]{inputenc}";
    "\usepackage{graphicx}";
    "\usepackage[margin=0.75in]{geometry}";
    "\usepackage{multicol}";
    "\usepackage{xcolor}";
    "\usepackage{tikz}";
    "\usepackage{tcolorbox}";
    EmptyString;
    "\definecolor{comicred}{RGB}{220,20,60}";
    "\definecolor{comicblue}{RGB}{30,144,255}";
    EmptyString;
    "\title{{\Huge\textbf{{\textcolor{comicred}{{{title}}}}}}}";
    "\date{{\textcolor{comicblue}{{{date}}}}}";
    EmptyString;
    "\begin{{document}}";
    "\maketitle";
    "\thispagestyle{{empty}}";
    "\newpage";
    EmptyString;
    "{content}";
    EmptyString;
    "\end{{document}}" ].

Definition educational_book_template : string :=
  lines
  [ "\documentclass[a4paper,11pt]{report}";
    "\usepackage[utf8]{inputenc}";
    "\usepackage{graphicx}";
    "\usepackage[margin=1.2in]{geometry}";
    "\usepackage{fancyhdr}";
    "\usepackage{titlesec}";
    "\usepackage{hyperref}";
    "\usepackage{tcolorbox}";
    EmptyString;
    "\title{{\LARGE\textbf{{{title}}}}}";
    "\author{{{author}}}";
    "\date{{{date}}}";
    EmptyString;
    "\pagestyle{fancy}";
    "\fancyhf{{}}";
    "\fancyhead[L]{{\leftmark}}";
    "\fancyhead[R]{{{title}}}";
    "\fancyfoot[C]{{\thepage}}";
    EmptyString;
    "\begin{{document}}";
    "\maketitle";
    "\tableofcontents";
    "\newpage";
    EmptyString;
    "{content}";
    EmptyString;
    "\end{{document}}" ].

(** The rows [insert_default_templates] writes; [created_at] takes its
    column default. *)
Definition default_templates (now : timestamp) : list template :=
  [ {| t_id := "children_storybook"; t_name := "Children's Storybook";
       t_type := "story"; t_latex_template := children_storybook_template;
       t_description := "Colorful and engaging template for children's stories";
       t_is_default := true; t_created_at := now |};
    {| t_id := "comic_book"; t_name := "Comic Book Style";
       t_type := "comic"; t_latex_template := comic_book_template;
       t_description := "Dynamic layout perfect for comic-style stories";
       t_is_default := true; t_created_at := now |};
    {| t_id := "educational_book"; t_name := "Educational Book";
       t_type := "educational"; t_latex_template := educational_book_template;
       t_description := "Clean and professional template for educational content";
       t_is_default := true; t_created_at := now |} ].

(** The primary keys of the default rows. *)
Definition default_template_ids : list string :=
  ["children_storybook"; "comic_book"; "educational_book"].

(** [INSERT OR REPLACE INTO templates]: a row with the same primary key is
    deleted, then the new row is inserted. *)
Definition insert_or_replace (t : template) (rows : list template)
  : list template :=
  filter (fun r => t_id r ≠ t_id t) rows ++ [t].

(** [insert_default_templates]. *)
Definition insert_default_templates (now : timestamp) (d : db) : db :=
  {| projects := projects d;
     contents := contents d;
     templates := fold_left (fun rows t => insert_or_replace t rows)
                            (default_templates now) (templates d) |}.

(** [init_database]: the tables that exist are kept
    ([CREATE TABLE IF NOT EXISTS]), then the default templates are
    written. *)
Definition init_database (now : timestamp) (d : db) : db :=
  insert_default_templates now d.

(** A database file that has just been created. *)
Definition empty_db : db := {| projects := []; contents := []; templates := [] |}.

End Store.

(** ** The sliding-window rate limiter: [RateLimiter] *)

Module Limiter.

(** Clock readings ([time.time()]) are rationals, in seconds. *)
Record RateLimiter := {
  max_requests : Z;
  time_window : Q;
  requests : list Q
}.

(** [RateLimiter(max_requests, time_window)]. *)
Definition init (max_requests : Z) (time_window : Q) : RateLimiter :=
  {| max_requests := max_requests; time_window := time_window;
     requests := [] |}.

(** [now - req_time < self.time_window]. *)
Definition in_window (now window req_time : Q) : bool :=
  negb (Qle_bool window (now - req_time)).

(** [can_make_request]; [now] is the reading of the clock it takes.  It
    also drops the timestamps that left the window. *)
Definition can_make_request (now : Q) (rl : RateLimiter)
  : RateLimiter * bool :=
  let kept := List.filter (in_window now (time_window rl)) (requests rl) in
  ({| max_requests := max_requests rl; time_window := time_window rl;
      requests := kept |},
   bool_decide (Z.of_nat (length kept) < max_requests rl)).

(** [add_request]. *)
Definition add_request (now : Q) (rl : RateLimiter) : RateLimiter :=
  {| max_requests := max_requests rl; time_window := time_window rl;
     requests := requests rl ++ [now] |}.

(** The scan of [min]: the smallest seen so far is replaced only by a
    strictly smaller element. *)
Fixpoint min_from (cur : Q) (l : list Q) : Q :=
  match l with
  | [] => cur
  | x :: rest =>
      if negb (Qle_bool cur x) then min_from x rest else min_from cur rest
  end.

(** [min(l)]: the first of the smallest elements; [None] stands for the
    [ValueError] Python raises on an empty list. *)
Definition py_min (l : list Q) : option Q :=
  match l with
  | [] => None
  | x :: rest => Some (min_from x rest)
  end.

(** [time_until_next_request]: the clock is read once inside
    [can_make_request] ([now1]) and once more in the returned expression
    ([now2]). *)
Definition time_until_next_request (now1 now2 : Q) (rl : RateLimiter)
  : RateLimiter * option Q :=
  let '(rl', ok) := can_make_request now1 rl in
  if ok then (rl', Some 0%Q)
  else (rl',
        (fun oldest_request =>
           (time_window rl' - (now2 - oldest_request))%Q)
        <$> py_min (requests rl')).

(** The guard every generation method of [AIService] runs: check, and
    record the request once it has been made. *)
Definition check_and_record (now_check now_record : Q) (rl : RateLimiter)
  : RateLimiter * bool :=
  let '(rl', ok) := can_make_request now_check rl in
  if ok then (add_request now_record rl', true) else (rl', false).

(** The clock readings of one guarded call to a service, as the generation
    methods make it: the reading of the check; the two readings of
    [time_until_next_request], which the image and audio methods call when
    the check refuses ([None] for the text methods, which do not); and the
    reading of [add_request], [None] when the call to the service raised,
    which skips [add_request]. *)
Record call := {
  now_check : Q;
  wait_readings : option (Q * Q);
  now_record : option Q
}.

Definition guarded_call (c : call) (rl : RateLimiter) : RateLimiter :=
  let '(rl', ok) := can_make_request (now_check c) rl in
  if ok
  then match now_record c with
       | Some now => add_request now rl'
       | None => rl'
       end
  else match wait_readings c with
       | Some (now1, now2) => fst (time_until_next_request now1 now2 rl')
       | None => rl'
       end.

(** Guarded calls made one after the other. *)
Fixpoint serve (calls : list call) (rl : RateLimiter) : RateLimiter :=
  match calls with
  | [] => rl
  | c :: rest => serve rest (guarded_call c rl)
  end.

End Limiter.

(** ** Grouping and assembling: [PDFGenerator] *)

(** One value of the [scenes] dictionary. *)
Record scene := {
  title : string;
  text_items : list Store.content;
  image_items : list Store.content;
  audio_items : list Store.content
}.

Definition new_scene (scene_index : Z) : scene :=
  {| title := "Scene " +:+ PyStr.str_int (scene_index + 1);
     text_items := []; image_items := []; audio_items := [] |}.

Definition append_text (item : Store.content) (sc : scene) : scene :=
  {| title := title sc; text_items := text_items sc ++ [item];
     image_items := image_items sc; audio_items := audio_items sc |}.

Definition append_image (item : Store.content) (sc : scene) : scene :=
  {| title := title sc; text_items := text_items sc;
     image_items := image_items sc ++ [item]; audio_items := audio_items sc |}.

Definition append_audio (item : Store.content) (sc : scene) : scene :=
  {| title := title sc; text_items := text_items sc;
     image_items := image_items sc; audio_items := audio_items sc ++ [item] |}.

(** [item['order_index'] // 10]: floor division. *)
Definition scene_index_of (item : Store.content) : Z :=
  Store.c_order_index item `div` 10.

(** The body of the loop [for item in content_items]. *)
Definition group_step (scenes : gmap Z scene) (item : Store.content)
  : gmap Z scene :=
  let scene_index := scene_index_of item in
  let scenes :=
    match scenes !! scene_index with
    | None => <[scene_index := new_scene scene_index]> scenes
    | Some _ => scenes
    end in
  if decide (Store.c_type item = "text")
  then alter (append_text item) scene_index scenes
  else if decide (Store.c_type item = "image")
  then alter (append_image item) scene_index scenes
  else if decide (Store.c_type item = "audio")
  then alter (append_audio item) scene_index scenes
  else scenes.

Definition scenes_of (content_items : list Store.content) : gmap Z scene :=
  fold_left group_step content_items ∅.

(** [sorted(scenes.keys())]. *)
Definition sorted_keys (scenes : gmap Z scene) : list Z :=
  merge_sort Z.le (elements (dom scenes)).

(** [_group_content_by_scene]:
    [[scenes[key] for key in sorted(scenes.keys())]]. *)
Definition _group_content_by_scene (content_items : list Store.content)
  : list scene :=
  let scenes := scenes_of content_items in
  omap (fun key => scenes !! key) (sorted_keys scenes).

(** A Python [Optional[str]] is true when it is a non-empty string. *)
Definition opt_truthy (o : option string) : bool :=
  match o with Some s => PyStr.truthy s | None => false end.

Definition newline_str : string := String PyStr.newline EmptyString.

(** [image_path.lstrip('/')]. *)
Fixpoint lstrip_slash (s : string) : string :=
  match s with
  | String "/"%char rest => lstrip_slash rest
  | _ => s
  end.

(** [_create_image_section]. *)
Definition _create_image_section (image_item : Store.content) (st : settings)
  : string :=
  let image_path := default EmptyString (Store.c_image_path image_item) in
  let image_path := lstrip_slash image_path in
  let width := settings_get st "image_width" (PStr "0.8") in
  let centering := settings_get st "center_images" (PBool true) in
  let caption := Store.c_metadata image_item !! "caption" in
  PyStr.join newline_str
    (["\begin{figure}[h!]"]
     ++ (if pyval_truthy centering then ["\centering"] else [])
     ++ ["\includegraphics[width=" +:+ pyval_str width +:+ "\textwidth]{"
         +:+ image_path +:+ "}"]
     ++ (if opt_truthy caption
         then ["\caption{" +:+
               _clean_text_for_latex (default EmptyString caption) +:+ "}"]
         else [])
     ++ ["\end{figure}"; "\vspace{0.5em}"]).

(** [settings and settings.get('book_type') == 'comic']. *)
Definition is_comic (st : settings) : bool :=
  bool_decide (settings_get st "book_type" PNone = PStr "comic").

(** [item['image_path'] and os.path.exists(item['image_path'])]. *)
Definition image_on_disk (path_exists : string → bool) (item : Store.content)
  : bool :=
  opt_truthy (Store.c_image_path item)
  && path_exists (default EmptyString (Store.c_image_path item)).

(** The body of the loop [for scene_content in grouped_content];
    [path_exists] is [os.path.exists]. *)
Definition scene_sections (path_exists : string → bool) (st : settings)
    (scene_content : scene) : list string :=
  let heading :=
    if PyStr.truthy (title scene_content)
    then [ if is_comic st
           then "\section*{" +:+ title scene_content +:+ "}"
           else "\chapter{" +:+ title scene_content +:+ "}" ]
    else [] in
  let texts :=
    (fun item => _clean_text_for_latex
                   (default EmptyString (Store.c_content_text item)))
    <$> filter (fun item => Is_true (opt_truthy (Store.c_content_text item)))
               (text_items scene_content) in
  let images :=
    (fun item => _create_image_section item st)
    <$> filter (fun item => Is_true (image_on_disk path_exists item))
               (image_items scene_content) in
  heading ++ texts ++ images ++ ["\vspace{1em}"].

(** [_build_content_sections]. *)
Definition _build_content_sections (path_exists : string → bool)
    (content_items : list Store.content) (st : settings) : list string :=
  _group_content_by_scene content_items ≫= scene_sections path_exists st.

(** ** [str.format] with keyword arguments only *)

Module PyFormat.

Inductive exc :=
| KeyError (key : string)
| ValueError (msg : string)
| IndexError (msg : string).

(** The result of [template.format( **vars)].  [Unmodelled] marks a
    replacement field the embedding does not evaluate: one whose variable
    is present and which applies to it a format specification that is not
    empty ([:>10]), or an attribute or index ([{title.upper}],
    [{title[0]}]). *)
Inductive result :=
| Ok (s : string)
| Raise (e : exc)
| Unmodelled.

Definition hex_digit (n : N) : ascii :=
  ascii_of_N (if (n <? 10)%N then 48 + n else 87 + n).

(** One character of [repr(s)] between quotes [q]. *)
Definition repr_char (q c : ascii) : string :=
  let n := N_of_ascii c in
  if Ascii.eqb c q || Ascii.eqb c PyStr.backslash
  then String PyStr.backslash (String c EmptyString)
  else if (n =? 9)%N then "\t"
  else if (n =? 10)%N then "\n"
  else if (n =? 13)%N then "\r"
  else if ((n <? 32) || (127 <=? n) && (n <=? 160) || (n =? 173))%N
  then "\x" +:+ String (hex_digit (n / 16)) (String (hex_digit (n mod 16)) EmptyString)
  else String c EmptyString.

Fixpoint mem_char (c : ascii) (s : string) : bool :=
  match s with
  | EmptyString => false
  | String d rest => Ascii.eqb c d || mem_char c rest
  end.

Fixpoint concat_map (f : ascii → string) (s : string) : string :=
  match s with
  | EmptyString => EmptyString
  | String c rest => f c +:+ concat_map f rest
  end.

(** [repr(s)]: single quotes, unless [s] holds a single quote and no double
    quote. *)
Definition repr (s : string) : string :=
  let q := if mem_char PyStr.squote s && negb (mem_char PyStr.dquote s)
           then PyStr.dquote else PyStr.squote in
  String q (concat_map (repr_char q) s) +:+ String q EmptyString.

(** [ascii(s)], for characters below 256: [repr(s)] with every character
    above 127 that is left written as an escape. *)
Definition ascii_char (c : ascii) : string :=
  let n := N_of_ascii c in
  if (128 <=? n)%N
  then "\x" +:+ String (hex_digit (n / 16)) (String (hex_digit (n mod 16)) EmptyString)
  else String c EmptyString.

Definition ascii_repr (s : string) : string := concat_map ascii_char (repr s).

(** [%x] of a character code. *)
Definition hex (n : N) : string :=
  if (n <? 16)%N then String (hex_digit n) EmptyString
  else String (hex_digit (n / 16)) (String (hex_digit (n mod 16)) EmptyString).

(** [str(e)] for the exceptions above. *)
Definition str_exc (e : exc) : string :=
  match e with
  | KeyError key => repr key
  | ValueError msg => msg
  | IndexError msg => msg
  end.

Definition is_digit (c : ascii) : bool :=
  let n := N_of_ascii c in ((48 <=? n) && (n <=? 57))%N.

Fixpoint all_digits (s : string) : bool :=
  match s with
  | EmptyString => true
  | String c rest => is_digit c && all_digits rest
  end.

Fixpoint digits_value (acc : Z) (s : string) : Z :=
  match s with
  | EmptyString => acc
  | String c rest => digits_value (acc * 10 + (Z.of_N (N_of_ascii c) - 48)) rest
  end.

(** The part of a field name before the first [.] or [[], and whether
    anything follows it. *)
Fixpoint first_part (s : string) : string * bool :=
  match s with
  | EmptyString => (EmptyString, false)
  | String c rest =>
      if Ascii.eqb c "."%char || Ascii.eqb c "["%char
      then (EmptyString, true)
      else let '(f, more) := first_part rest in (String c f, more)
  end.

Definition PY_SSIZE_T_MAX : Z := 2 ^ 63 - 1.

(** Looking a field name up when no positional argument was passed: an
    empty or numeric name indexes the empty argument tuple, any other
    name is a key of [vars]. *)
Definition get_field (vars : gmap string string) (field_name : string)
  : result :=
  let '(first, more) := first_part field_name in
  if negb (PyStr.truthy first)
  then Raise (IndexError
                "Replacement index 0 out of range for positional args tuple")
  else if all_digits first
  then if PY_SSIZE_T_MAX <? digits_value 0 first
       then Raise (ValueError "Too many decimal digits in format string")
       else Raise (IndexError
                     ("Replacement index " +:+
                      PyStr.str_int (digits_value 0 first) +:+
                      " out of range for positional args tuple"))
  else match vars !! first with
       | None => Raise (KeyError first)
       | Some v => if more then Unmodelled else Ok v
       end.

(** [do_conversion]: the value of a field after its conversion, if it has
    one; the character 0 is how the scanner writes "no conversion". *)
Definition do_conversion (conversion : option ascii) (v : string)
  : string + exc :=
  match conversion with
  | None => inl v
  | Some c =>
      let n := N_of_ascii c in
      if (n =? 0)%N then inl v
      else if Ascii.eqb c "r"%char then inl (repr v)
      else if Ascii.eqb c "s"%char then inl v
      else if Ascii.eqb c "a"%char then inl (ascii_repr v)
      else if (32 <? n)%N && (n <? 127)%N
      then inr (ValueError ("Unknown conversion specifier " +:+
                            String c EmptyString))
      else inr (ValueError ("Unknown conversion specifier \x" +:+ hex n))
  end.

(** [output_markup] for a field with a conversion or a format spec: the
    lookup comes first, then the conversion, then the format spec.  An
    empty format spec leaves a string as it is; a format spec that is not
    empty, or holds fields of its own, is outside the embedding. *)
Definition output_markup (vars : gmap string string) (field_name : string)
    (conversion : option ascii) (format_spec : string)
    (format_spec_needs_expanding : bool) : result :=
  match get_field vars field_name with
  | Ok v =>
      match do_conversion conversion v with
      | inr e => Raise e
      | inl text =>
          if format_spec_needs_expanding then Unmodelled
          else if PyStr.truthy format_spec then Unmodelled
          else Ok text
      end
  | r => r
  end.

(** Where the scanner is: in literal text, just after a brace, or inside
    a replacement field whose name so far is held reversed; behind the
    name, at the conversion character, just after it, or in the format
    spec, whose text so far is held reversed with the number of braces
    open. *)
Inductive mode :=
| Literal
| AfterOpen
| AfterClose
| Field (name : string)
| Bracket (name : string)
| Conversion (name : string)
| AfterConversion (name : string) (conversion : ascii)
| FormatSpec (name : string) (conversion : option ascii) (spec : string)
             (count : nat) (needs_expanding : bool).

(** A character read inside a field, outside square brackets. *)
Definition field_char (name : string) (c : ascii) : mode + result :=
  if Ascii.eqb c "{"%char
  then inr (Raise (ValueError "unexpected '{' in field name"))
  else if Ascii.eqb c "["%char then inl (Bracket (String c name))
  else if Ascii.eqb c ":"%char
  then inl (FormatSpec name None EmptyString 1 false)
  else if Ascii.eqb c "!"%char then inl (Conversion name)
  else inl (Field (String c name)).

(** The scanner: [out] is the text produced so far, reversed. *)
Fixpoint format_go (vars : gmap string string) (m : mode) (out : string)
    (s : string) : result :=
  match s with
  | EmptyString =>
      match m with
      | Literal => Ok (String.rev out)
      | AfterOpen =>
          Raise (ValueError "Single '{' encountered in format string")
      | AfterClose =>
          Raise (ValueError "Single '}' encountered in format string")
      | Field _ | Bracket _ =>
          Raise (ValueError "expected '}' before end of string")
      | Conversion _ =>
          Raise (ValueError
                   "end of string while looking for conversion specifier")
      | AfterConversion _ _ | FormatSpec _ _ _ _ _ =>
          Raise (ValueError "unmatched '{' in format spec")
      end
  | String c rest =>
      match m with
      | Literal =>
          if Ascii.eqb c "{"%char then format_go vars AfterOpen out rest
          else if Ascii.eqb c "}"%char then format_go vars AfterClose out rest
          else format_go vars Literal (String c out) rest
      | AfterOpen =>
          if Ascii.eqb c "{"%char
          then format_go vars Literal (String c out) rest
          else if Ascii.eqb c "}"%char
          then match get_field vars EmptyString with
               | Ok v => format_go vars Literal (String.rev_app v out) rest
               | r => r
               end
          else match field_char EmptyString c with
               | inl m' => format_go vars m' out rest
               | inr r => r
               end
      | AfterClose =>
          if Ascii.eqb c "}"%char
          then format_go vars Literal (String c out) rest
          else Raise (ValueError "Single '}' encountered in format string")
      | Field name =>
          if Ascii.eqb c "}"%char
          then match get_field vars (String.rev name) with
               | Ok v => format_go vars Literal (String.rev_app v out) rest
               | r => r
               end
          else match field_char name c with
               | inl m' => format_go vars m' out rest
               | inr r => r
               end
      | Bracket name =>
          if Ascii.eqb c "]"%char
          then format_go vars (Field (String c name)) out rest
          else format_go vars (Bracket (String c name)) out rest
      | Conversion name => format_go vars (AfterConversion name c) out rest
      | AfterConversion name conversion =>
          if Ascii.eqb c "}"%char
          then match output_markup vars (String.rev name) (Some conversion)
                                   EmptyString false with
               | Ok v => format_go vars Literal (String.rev_app v out) rest
               | r => r
               end
          else if Ascii.eqb c ":"%char
          then format_go vars
                 (FormatSpec name (Some conversion) EmptyString 1 false)
                 out rest
          else Raise (ValueError "expected ':' after conversion specifier")
      | FormatSpec name conversion spec count needs_expanding =>
          if Ascii.eqb c "{"%char
          then format_go vars
                 (FormatSpec name conversion (String c spec) (S count) true)
                 out rest
          else if Ascii.eqb c "}"%char
          then match count with
               | S (S k) =>
                   format_go vars
                     (FormatSpec name conversion (String c spec) (S k)
                                 needs_expanding)
                     out rest
               | _ =>
                   match output_markup vars (String.rev name) conversion
                                       (String.rev spec) needs_expanding with
                   | Ok v =>
                       format_go vars Literal (String.rev_app v out) rest
                   | r => r
                   end
               end
          else format_go vars
                 (FormatSpec name conversion (String c spec) count
                             needs_expanding)
                 out rest
      end
  end.

(** [template.format( **vars)]. *)
Definition format (template : string) (vars : gmap string string) : result :=
  format_go vars Literal EmptyString template.

End PyFormat.

(** The [try] block under [# Fill template]; the pair is
    [(latex_code, error)], and [None] in the outer option stands for a
    template outside the embedding of [str.format]. *)
Definition fill_template (latex_template : string)
    (template_vars : gmap string string)
  : option (option string * option string) :=
  match PyFormat.format latex_template template_vars with
  | PyFormat.Ok latex_code => Some (Some latex_code, None)
  | PyFormat.Raise (PyFormat.KeyError key) =>
      Some (None, Some ("Template variable missing: " +:+
                        PyFormat.str_exc (PyFormat.KeyError key)))
  | PyFormat.Raise e =>
      Some (None, Some ("Template processing error: " +:+ PyFormat.str_exc e))
  | PyFormat.Unmodelled => None
  end.

(** What a method of the generator does: it returns its pair, it lets an
    exception escape, or it leaves the embedding of [str.format]. *)
Inductive outcome (A : Type) :=
| Returns (a : A)
| Escapes (exception : string)
| NotModelled.
Arguments Returns {A} a.
Arguments Escapes {A} exception.
Arguments NotModelled {A}.

(** [generate_latex_from_project]; [today] is
    [datetime.now().strftime("%B %d, %Y")].  With the default
    [custom_settings=None] the call [custom_settings.get] raises
    [AttributeError], outside the [try]. *)
Definition generate_latex_from_project (path_exists : string → bool)
    (today : string) (d : Store.db) (project_id template_id : string)
    (custom_settings : settings)
  : outcome (option string * option string) :=
  match Store.get_project project_id d with
  | None => Returns (None, Some "Project not found")
  | Some project =>
      match Store.get_template template_id d with
      | None => Returns (None, Some "Template not found")
      | Some template =>
          let content_items := Store.get_project_content project_id d in
          let latex_sections :=
            _build_content_sections path_exists content_items custom_settings in
          match custom_settings with
          | None =>
              Escapes "AttributeError: 'NoneType' object has no attribute 'get'"
          | Some cs =>
              let template_vars : gmap string string :=
                {[ "title" := Store.p_name project;
                   "author" :=
                     pyval_str (default (PStr "StoryWeaver AI") (cs !! "author"));
                   "date" := today;
                   "content" := PyStr.join blank_line latex_sections ]} in
              match fill_template (Store.t_latex_template template)
                                  template_vars with
              | Some r => Returns r
              | None => NotModelled
              end
          end
      end
  end.

(** ** Compilation: [PDFGenerator.compile_pdf] *)

Module Compiler.

(** A directory: file name to file content. *)
Abbreviation dir := (gmap string string).

(** The part of the file system a compilation touches: the stable output
    directory, by the name of the file below it, and the temporary
    directories alive at the moment, by name.  [copy_error name] tells
    whether the file [name] below the output directory can be written:
    [None] when it can, and otherwise the text of the exception
    [shutil.copy2] raises for it (the name has a directory part that does
    not exist, the file or the directory is write-protected).  A copy that
    raises has written nothing.  Writing the source into the fresh
    temporary directory is taken to succeed. *)
Record world := {
  output_dir : dir;
  temp_dirs : gmap positive dir;
  copy_error : string → option string
}.

(** How one [subprocess.run] of the compiler ends. *)
Inductive run_result :=
| Completed (returncode : Z) (stdout stderr : string)
| TimeoutExpired
| OtherException (msg : string).

(** The external toolchain.  [version_check] is the exit status of
    [<compiler> --version], [None] when the binary is not found;
    [run_latex pass d] is what pass number [pass] leaves in the working
    directory [d] it was pointed at with [-output-directory], and how it
    ends. *)
Record toolchain := {
  version_check : option Z;
  run_latex : nat → dir → dir * run_result
}.

(** [check_latex_installation]. *)
Definition check_latex_installation (tc : toolchain) : bool :=
  match version_check tc with
  | Some returncode => returncode =? 0
  | None => false
  end.

(** [tempfile.TemporaryDirectory()] makes a directory that did not exist. *)
Definition fresh_temp (w : world) : positive := fresh (dom (temp_dirs w)).

Definition set_temp (t : positive) (d : dir) (w : world) : world :=
  {| output_dir := output_dir w; temp_dirs := <[t := d]> (temp_dirs w);
     copy_error := copy_error w |}.

(** Leaving the [with] block removes the directory and all it holds. *)
Definition cleanup (t : positive) (w : world) : world :=
  {| output_dir := output_dir w; temp_dirs := delete t (temp_dirs w);
     copy_error := copy_error w |}.

(** [shutil.copy2(pdf_file, output_path)]: the file is written, or the
    copy raises, with the text of its exception. *)
Definition copy_to_output (name content : string) (w : world)
  : world + string :=
  match copy_error w name with
  | Some msg => inr msg
  | None =>
      inl {| output_dir := <[name := content]> (output_dir w);
             temp_dirs := temp_dirs w;
             copy_error := copy_error w |}
  end.

(** [os.path.join(a, b)]. *)
Definition path_join (a b : string) : string :=
  match b with
  | String "/"%char _ => b
  | _ =>
      match String.rev a with
      | EmptyString => b
      | String "/"%char _ => a +:+ b
      | _ => a +:+ "/" +:+ b
      end
  end.

(** [final_result.stderr or final_result.stdout]. *)
Definition error_log (stdout stderr : string) : string :=
  if PyStr.truthy stderr then stderr else stdout.

(** The end of the [try] block, from [pdf_file = ...] on; an exception of
    the copy is caught by [except Exception]. *)
Definition promote (output_dir_name output_filename : string) (t : positive)
    (work : dir) (returncode : Z) (stdout stderr : string) (w : world)
  : world * (option string * option string) :=
  if (returncode =? 0) && bool_decide (is_Some (work !! "document.pdf"))
  then match copy_to_output (output_filename +:+ ".pdf")
                            (default EmptyString (work !! "document.pdf"))
                            (set_temp t work w) with
       | inl w' =>
           (w',
            (Some (path_join output_dir_name (output_filename +:+ ".pdf")),
             None))
       | inr msg =>
           (set_temp t work w,
            (None, Some ("PDF generation error: " +:+ msg)))
       end
  else (set_temp t work w,
        (None, Some ("LaTeX compilation failed:" +:+ newline_str +:+
                     error_log stdout stderr))).

(** The one or two runs of the compiler on the source written to the
    working directory, and [final_result]: the second run happens when it
    is asked for and the first exits with zero; an exception of either run
    ends the [try] block. *)
Definition run_passes (tc : toolchain) (latex_code : string)
    (compile_twice : bool) : dir * run_result :=
  let work0 : dir := {[ "document.tex" := latex_code ]} in
  let '(work1, result1) := run_latex tc 1 work0 in
  match result1 with
  | Completed returncode1 _ _ =>
      if compile_twice && (returncode1 =? 0)
      then run_latex tc 2 work1
      else (work1, result1)
  | _ => (work1, result1)
  end.

(** The [try] block with its two [except] clauses, run inside the
    temporary directory [t]. *)
Definition compile_in (tc : toolchain) (output_dir_name : string)
    (latex_code output_filename : string) (compile_twice : bool)
    (t : positive) (w : world)
  : world * (option string * option string) :=
  let '(work, final_result) := run_passes tc latex_code compile_twice in
  match final_result with
  | TimeoutExpired =>
      (set_temp t work w, (None, Some "LaTeX compilation timeout"))
  | OtherException msg =>
      (set_temp t work w, (None, Some ("PDF generation error: " +:+ msg)))
  | Completed returncode stdout stderr =>
      promote output_dir_name output_filename t work
              returncode stdout stderr w
  end.

(** [compile_pdf]. *)
Definition compile_pdf (tc : toolchain) (output_dir_name : string)
    (latex_code output_filename : string) (compile_twice : bool) (w : world)
  : world * (option string * option string) :=
  if negb (check_latex_installation tc)
  then (w, (None, Some "LaTeX is not installed or not accessible"))
  else
    let t := fresh_temp w in
    let '(w', r) :=
      compile_in tc output_dir_name latex_code output_filename compile_twice
                 t (set_temp t ∅ w) in
    (cleanup t w', r).

End Compiler.

(** ** The audiobook companion *)

(** [os.path.basename(p)]: what follows the last slash. *)
Fixpoint basename_go (cur : string) (p : string) : string :=
  match p with
  | EmptyString => String.rev cur
  | String c rest =>
      if Ascii.eqb c "/"%char then basename_go EmptyString rest
      else basename_go (String c cur) rest
  end.

Definition basename (p : string) : string := basename_go EmptyString p.

(** The nearest integer to [num / den] for [0 < den], halves to the even
    neighbour, as [round] does. *)
Definition round_half_even (num den : Z) : Z :=
  let q := num `div` den in
  let r := num `mod` den in
  if 2 * r <? den then q
  else if den <? 2 * r then q + 1
  else if Z.even q then q else q + 1.

(** [_estimate_audio_duration].  The result, a float with one decimal, is
    held as its number of tenths of a minute; for any text that fits in
    memory the float [round(word_count / 150, 1)] is that decimal. *)
Definition _estimate_audio_duration (audio_item : Store.content) : Z :=
  if opt_truthy (Store.c_content_text audio_item)
  then
    let word_count :=
      Z.of_nat (length (PyStr.split_ws
                          (default EmptyString (Store.c_content_text audio_item)))) in
    round_half_even (word_count * 10) 150
  else 10.

(** [str(x)] for a float with one decimal, held in tenths. *)
Definition str_tenths (t : Z) : string :=
  PyStr.str_int (t `div` 10) +:+ "." +:+ PyStr.str_int (t `mod` 10).

(** The four lines of one track; [i] counts from 1. *)
Definition track_lines (i : Z) (audio_item : Store.content) : list string :=
  let audio_filename :=
    if opt_truthy (Store.c_audio_path audio_item)
    then basename (default EmptyString (Store.c_audio_path audio_item))
    else "track_" +:+ PyStr.str_int i +:+ ".mp3" in
  [ "\subsection*{Track " +:+ PyStr.str_int i +:+ "}";
    "\textbf{File:} " +:+ audio_filename +:+ "\\";
    "\textbf{Duration:} Approximately " +:+
      str_tenths (_estimate_audio_duration audio_item) +:+ " minutes\\";
    "\vspace{1em}" ].

(** [for i, audio_item in enumerate(audio_items, 1)]. *)
Fixpoint tracks_from (i : Z) (audio_items : list Store.content) : list string :=
  match audio_items with
  | [] => []
  | audio_item :: rest => track_lines i audio_item ++ tracks_from (i + 1) rest
  end.

Definition audiobook_preamble (project : Store.project) : list string :=
  [ "\documentclass[a5paper,12pt]{article}";
    "\usepackage[utf8]{inputenc}";
    "\usepackage{graphicx}";
    "\usepackage[margin=1in]{geometry}";
    "\usepackage{hyperref}";
    "\usepackage{xcolor}";
    EmptyString;
    "\title{Audio Companion: " +:+
      _clean_text_for_latex (Store.p_name project) +:+ "}";
    "\author{StoryWeaver AI}";
    "\date{\today}";
    EmptyString;
    "\begin{document}";
    "\maketitle";
    "\newpage";
    EmptyString;
    "\section*{How to Use This Audiobook}";
    "This companion guide contains instructions for accessing the audio narration of your story.";
    "\vspace{1em}";
    EmptyString;
    "\section*{Audio Tracks}" ].

(** [_generate_audiobook_latex]. *)
Definition _generate_audiobook_latex (project : Store.project)
    (audio_items : list Store.content) : string :=
  PyStr.join newline_str
    (audiobook_preamble project ++ tracks_from 1 audio_items
     ++ [EmptyString; "\end{document}"]).

(** [create_audiobook_companion]. *)
Definition create_audiobook_companion (tc : Compiler.toolchain)
    (output_dir_name : string) (d : Store.db)
    (project_id output_filename : string) (w : Compiler.world)
  : Compiler.world * (option string * option string) :=
  match Store.get_project project_id d with
  | None => (w, (None, Some "Project not found"))
  | Some project =>
      let content_items := Store.get_project_content project_id d in
      let audio_items :=
        filter (fun item => Store.c_type item = "audio") content_items in
      match audio_items with
      | [] => (w, (None, Some "No audio content found in project"))
      | _ =>
          let latex_code := _generate_audiobook_latex project audio_items in
          Compiler.compile_pdf tc output_dir_name latex_code
            (output_filename +:+ "_audiobook") true w
      end
  end.

(** ** The escaping the specification describes

    One pass over the text: every character that has an entry in the table
    is replaced by that entry, and what was inserted is not looked at
    again. *)
Definition single_pass_entry (c : ascii) : string :=
  default (String c EmptyString)
          (snd ∘ snd <$> list_find (fun e => fst e = c) latex_special_chars).

Definition escape_single_pass (text : string) : string :=
  PyFormat.concat_map single_pass_entry text.

(** ** Buckets, stated on the input list

    The items of type [ty] whose order index, integer-divided by 10, is
    [k], in input order; and the scene they make up. *)
Definition of_type (ty : string) (k : Z) (content_items : list Store.content)
  : list Store.content :=
  filter (fun item => Store.c_type item = ty ∧ scene_index_of item = k)
         content_items.

Definition scene_at (k : Z) (content_items : list Store.content) : scene :=
  {| title := "Scene " +:+ PyStr.str_int (k + 1);
     text_items := of_type "text" k content_items;
     image_items := of_type "image" k content_items;
     audio_items := of_type "audio" k content_items |}.

(** The (order index, type) assignment of an item. *)
Definition assignment_of_item (item : Store.content) : Z * string :=
  (Store.c_order_index item, Store.c_type item).

(** Where the body of the grouping loop puts an item inside its scene. *)
Definition place (x : Store.content) (sc : scene) : scene :=
  if decide (Store.c_type x = "text") then append_text x sc
  else if decide (Store.c_type x = "image") then append_image x sc
  else if decide (Store.c_type x = "audio") then append_audio x sc
  else sc.

(** An image block is a fragment that opens a figure environment. *)
Definition is_image_block (fragment : string) : bool :=
  String.prefix "\begin{figure}" fragment.

(** ** Sample rows *)

Definition sample_item (id ty : string) (text image_path : option string)
    (order_index : Z) : Store.content :=
  {| Store.c_id := id; Store.c_project_id := "p1"; Store.c_type := ty;
     Store.c_content_text := text; Store.c_image_path := image_path;
     Store.c_audio_path := None; Store.c_order_index := order_index;
     Store.c_metadata := ∅; Store.c_created_at := 0 |}.

Definition scenario_text : Store.content :=
  sample_item "c1" "text" (Some "Once upon a time & far away") None 0.

Definition scenario_image : Store.content :=
  sample_item "c2" "image" None (Some "generated/missing.png") 1.

Definition later_text : Store.content :=
  sample_item "c3" "text" (Some "The end") None 12.

(** ** Stamping, stated on the store

    A write made at time [now] stamps project [project_id] when a project
    that was there before the write has [now] as its update time after
    it. *)
Definition write_stamps_owner (now : Z) (project_id : string)
    (before after : Store.db) : Prop :=
  ∀ p, Store.get_project project_id before = Some p →
       Store.p_updated_at <$> Store.get_project project_id after = Some now.

Definition sample_project : Store.project :=
  {| Store.p_id := "p1"; Store.p_name := "A story"; Store.p_type := "story";
     Store.p_created_at := 100; Store.p_updated_at := 100;
     Store.p_settings := Store.KwSettings ∅; Store.p_status := "active" |}.

Definition sample_db : Store.db :=
  {| Store.projects := [sample_project];
     Store.contents := [scenario_text; scenario_image];
     Store.templates := [] |}.

(** ** Sample toolchains and worlds *)

(** A compiler that stops on an error in the source: exit status 1, the
    diagnostic on standard output, a log and no document. *)
Definition failing_toolchain : Compiler.toolchain :=
  {| Compiler.version_check := Some 0;
     Compiler.run_latex := fun _ d =>
       (<["document.log" := "! Missing \end{document}."]> d,
        Compiler.Completed 1 "! Emergency stop." EmptyString) |}.

(** A compiler that produces the document. *)
Definition working_toolchain : Compiler.toolchain :=
  {| Compiler.version_check := Some 0;
     Compiler.run_latex := fun _ d =>
       (<["document.pdf" := "%PDF"]> (<["document.aux" := "aux"]> d),
        Compiler.Completed 0 "Output written" EmptyString) |}.


(** An output directory that holds one document and has no
    subdirectory: a name with a directory part cannot be written. *)
Definition sample_world : Compiler.world :=
  {| Compiler.output_dir := {[ "earlier.pdf" := "%PDF earlier" ]};
     Compiler.temp_dirs := ∅;
     Compiler.copy_error := fun name =>
       if PyFormat.mem_char "/" name
       then Some ("[Errno 2] No such file or directory: 'static/exports/"
                  +:+ name +:+ "'")
       else None |}.

(** ** Words, as the specification counts them

    [word_count(text)]: a word is a maximal run of characters that are not
    white space, so the words are as many as the places where one begins:
    a character that is not white space, at the start of the text or behind
    white space. *)
Fixpoint word_starts (in_word : bool) (text : string) : nat :=
  match text with
  | EmptyString => 0%nat
  | String c rest =>
      if PyStr.isspace c then word_starts false rest
      else ((if in_word then 0 else 1) + word_starts true rest)%nat
  end.

Definition word_count (text : string) : nat := word_starts false text.

(** ** A sample project with narration *)

Definition sample_audio (id : string) (text audio_path : option string)
    (order_index : Z) : Store.content :=
  {| Store.c_id := id; Store.c_project_id := "p2"; Store.c_type := "audio";
     Store.c_content_text := text; Store.c_image_path := None;
     Store.c_audio_path := audio_path; Store.c_order_index := order_index;
     Store.c_metadata := ∅; Store.c_created_at := 0 |}.

Definition narrated_db : Store.db :=
  {| Store.projects :=
       [ {| Store.p_id := "p2"; Store.p_name := "Narrated";
            Store.p_type := "story";
            Store.p_created_at := 100; Store.p_updated_at := 100;
            Store.p_settings := Store.KwSettings ∅; Store.p_status := "active" |} ];
     Store.contents :=
       [ sample_audio "a1" (Some "one two three four five six seven eight")
                      (Some "generated/p2_scene_0.mp3") 2;
         sample_audio "a2" None None 5;
         sample_audio "a3"
           (Some ("  The fox ran home, and the hen stayed out." +:+
                  String PyStr.newline
                    "Night fell; the fox slept, the hen walked on and on until the morning came again.  "))
           (Some "outro.mp3") 11 ];
     Store.templates := [] |}.

(** ** Templates, stated as token lists

    A template in the form the seeded templates have: ordinary characters,
    doubled braces, and placeholders that are plain names; a placeholder
    may ask for a conversion of its value, as in [{title!r}]. *)
Inductive token :=
| TChar (c : ascii)
| TOpenBrace
| TCloseBrace
| TPlaceholder (name : string)
| TConverted (name : string) (conversion : ascii).

Definition plain_char (c : ascii) : bool :=
  negb (PyFormat.mem_char c "{}[].:!").

Fixpoint all_plain (name : string) : bool :=
  match name with
  | EmptyString => true
  | String c rest => plain_char c && all_plain rest
  end.

(** A plain name: not empty, none of the characters the field syntax
    gives a meaning to, and not a number. *)
Definition plain_name (name : string) : bool :=
  PyStr.truthy name && all_plain name && negb (PyFormat.all_digits name).

Definition valid_token (t : token) : bool :=
  match t with
  | TChar c => negb (Ascii.eqb c "{"%char || Ascii.eqb c "}"%char)
  | TOpenBrace | TCloseBrace => true
  | TPlaceholder name => plain_name name
  | TConverted name conversion =>
      plain_name name && PyFormat.mem_char conversion "rsa"
  end.

(** The template text of a token list. *)
Definition render_token (t : token) : string :=
  match t with
  | TChar c => String c EmptyString
  | TOpenBrace => "{{"
  | TCloseBrace => "}}"
  | TPlaceholder name => "{" +:+ name +:+ "}"
  | TConverted name conversion =>
      "{" +:+ name +:+ String "!"%char (String conversion "}")
  end.

Fixpoint render (toks : list token) : string :=
  match toks with
  | [] => EmptyString
  | t :: rest => render_token t +:+ render rest
  end.

(** The first placeholder, from the left, that the map does not define. *)
Fixpoint first_missing (vars : gmap string string) (toks : list token)
  : option string :=
  match toks with
  | [] => None
  | TPlaceholder name :: rest | TConverted name _ :: rest =>
      match vars !! name with
      | None => Some name
      | Some _ => first_missing vars rest
      end
  | _ :: rest => first_missing vars rest
  end.

(** The names of the placeholders of a template. *)
Definition placeholder_name (t : token) : option string :=
  match t with
  | TPlaceholder name | TConverted name _ => Some name
  | _ => None
  end.

Definition placeholder_names (toks : list token) : list string :=
  omap placeholder_name toks.

(** A value as a placeholder with a conversion shows it: [!r] gives
    [repr], [!a] gives [ascii], [!s] the string itself. *)
Definition converted (conversion : ascii) (v : string) : string :=
  if Ascii.eqb conversion "r"%char then PyFormat.repr v
  else if Ascii.eqb conversion "a"%char then PyFormat.ascii_repr v
  else v.

(** The markup with every occurrence of every placeholder substituted. *)
Fixpoint substituted (vars : gmap string string) (toks : list token) : string :=
  match toks with
  | [] => EmptyString
  | TChar c :: rest => String c (substituted vars rest)
  | TOpenBrace :: rest => String "{"%char (substituted vars rest)
  | TCloseBrace :: rest => String "}"%char (substituted vars rest)
  | TPlaceholder name :: rest =>
      default EmptyString (vars !! name) +:+ substituted vars rest
  | TConverted name conversion :: rest =>
      converted conversion (default EmptyString (vars !! name))
      +:+ substituted vars rest
  end.

(** What the specification says of every template and map: either the
    missing-variable error, naming a variable the map lacks, or success. *)
Definition fill_as_claimed (template : string) (vars : gmap string string)
  : Prop :=
  (∃ name, vars !! name = None
           ∧ fill_template template vars =
               Some (None, Some ("Template variable missing: " +:+
                                 PyFormat.repr name)))
  ∨ (∃ latex_code, fill_template template vars = Some (Some latex_code, None)).

(** The map [generate_latex_from_project] builds. *)
Definition sample_vars : gmap string string :=
  {[ "title" := "A story"; "author" := "StoryWeaver AI";
     "date" := "November 04, 2026"; "content" := "\chapter{Scene 1}" ]}.

(** The tokens of a stretch of template text without braces. *)
Fixpoint literal_tokens (text : string) : list token :=
  match text with
  | EmptyString => []
  | String c rest => TChar c :: literal_tokens rest
  end.

(** ** Fields and malformations, as the format syntax writes them *)

(** What may stand between a field's name and its conversion or closing
    brace: attribute parts [.attr] and index parts [[index]]. *)
Inductive access : string → Prop :=
| access_none : access EmptyString
| access_attribute (attr rest : string) :
    all_plain attr = true → access rest →
    access (String "."%char (attr +:+ rest))
| access_index (index rest : string) :
    PyFormat.mem_char "]"%char index = false → access rest →
    access (String "["%char (index +:+ String "]"%char rest)).

Definition no_brace (text : string) : bool :=
  negb (PyFormat.mem_char "{"%char text || PyFormat.mem_char "}"%char text).

(** How a field may end before its closing brace: with nothing, a
    conversion character, a format spec without braces, or both. *)
Inductive ending : string → Prop :=
| ending_none : ending EmptyString
| ending_conversion (c : ascii) : ending (String "!"%char (String c EmptyString))
| ending_spec (spec : string) :
    no_brace spec = true → ending (String ":"%char spec)
| ending_conversion_spec (c : ascii) (spec : string) :
    no_brace spec = true →
    ending (String "!"%char (String c (String ":"%char spec))).

(** Text that begins with a malformation: a closing brace on its own, an
    opening brace at the end, a field without a name or with a number for
    a name, an opening brace inside a field, a field that is not closed,
    or a conversion other than [r], [s] and [a] of a variable that is
    present. *)
Inductive malformed (vars : gmap string string) : string → Prop :=
| closing_brace_at_end : malformed vars "}"
| closing_brace_alone (c : ascii) (rest : string) :
    c ≠ "}"%char → malformed vars (String "}"%char (String c rest))
| opening_brace_at_end : malformed vars "{"
| empty_field (rest : string) : malformed vars ("{}" +:+ rest)
| numeric_field (digits rest : string) :
    digits ≠ EmptyString → PyFormat.all_digits digits = true →
    malformed vars ("{" +:+ digits +:+ "}" +:+ rest)
| brace_in_field (name rest : string) :
    name ≠ EmptyString → all_plain name = true →
    malformed vars ("{" +:+ name +:+ "{" +:+ rest)
| unclosed_field (name : string) :
    name ≠ EmptyString → all_plain name = true →
    malformed vars ("{" +:+ name)
| unknown_conversion (name : string) (c : ascii) (rest : string) :
    plain_name name = true → is_Some (vars !! name) →
    PyFormat.mem_char c "rsa" = false → c ≠ Ascii.zero →
    malformed vars ("{" +:+ name +:+ String "!"%char (String c ("}" +:+ rest))).



(** A compiler whose first pass writes the document and whose second pass
    stops on an error, as happens when the auxiliary file of the first pass
    cannot be read back. *)
Definition second_pass_failing_toolchain : Compiler.toolchain :=
  {| Compiler.version_check := Some 0;
     Compiler.run_latex := fun pass d =>
       match pass with
       | 1%nat =>
           (<["document.pdf" := "%PDF"]> (<["document.aux" := "aux"]> d),
            Compiler.Completed 0 "Output written" EmptyString)
       | _ => (d, Compiler.Completed 1 EmptyString "! Undefined control sequence.")
       end |}.

(** What the chain of ten replacements makes of one character: the table
    entry of the character after the later replacements went over it. *)
Definition escaped_as (c : ascii) : string :=
  if Ascii.eqb c PyStr.backslash then "\textbackslash{}"
  else if Ascii.eqb c "^" then
    "\textbackslash{}textasciicircum\textbackslash{}{\textbackslash{}}"
  else if Ascii.eqb c "~" then "\textbackslash{}textasciitilde{}"
  else if PyFormat.mem_char c "&%$#_{}" then
    "\textbackslash{}" +:+ String c EmptyString
  else String c EmptyString.

(** A text that holds white space only. *)
Fixpoint all_space (s : string) : bool :=
  match s with
  | EmptyString => true
  | String c rest => PyStr.isspace c && all_space rest
  end.

(** ** Unwrapping a model response: [AIService]

    [text.startswith(prefix)], [text.endswith(suffix)], [text[n:]] and
    [text[:-n]] for [0 < n]. *)
Definition startswith (text prefix : string) : bool :=
  String.prefix prefix text.

Definition endswith (text suffix : string) : bool :=
  String.prefix (String.rev suffix) (String.rev text).

Fixpoint drop_first (n : nat) (text : string) : string :=
  match n, text with
  | O, _ => text
  | S n', String _ rest => drop_first n' rest
  | S _, EmptyString => EmptyString
  end.

Definition drop_last (n : nat) (text : string) : string :=
  String.rev (drop_first n (String.rev text)).

Definition fence : string := "```".

(** The statements under [# Clean and parse JSON response] in
    [generate_story_structure] and [generate_book_content]; the result is
    what [json.loads] is given. *)
Definition clean_json_response (text : string) : string :=
  let text := PyStr.strip text in
  let text := if startswith text "```json" then drop_first 7 text else text in
  let text := if endswith text fence then drop_last 3 text else text in
  PyStr.strip text.

(** The statements under [# Clean up the LaTeX code] in
    [generate_latex_from_content]; the result is the LaTeX code returned. *)
Definition clean_latex_response (text : string) : string :=
  let latex_code := PyStr.strip text in
  let latex_code :=
    if startswith latex_code "```latex" then drop_first 8 latex_code
    else latex_code in
  let latex_code :=
    if startswith latex_code fence then drop_first 3 latex_code
    else latex_code in
  let latex_code :=
    if endswith latex_code fence then drop_last 3 latex_code
    else latex_code in
  PyStr.strip latex_code.

(** ** Cover pages: [PDFGenerator.generate_cover_page] *)

(** [cover_image and os.path.exists(cover_image)]. *)
Definition cover_on_disk (path_exists : string → bool)
    (cover_image : option string) : bool :=
  opt_truthy cover_image && path_exists (default EmptyString cover_image).

(** The two lines a cover image adds; the f-string inserts the path as it
    is. *)
Definition cover_image_lines (path_exists : string → bool)
    (cover_image : option string) (width vspace : string) : list string :=
  if cover_on_disk path_exists cover_image
  then [ "\includegraphics[width=" +:+ width +:+ "\textwidth]{"
           +:+ default EmptyString cover_image +:+ "}";
         "\vspace{" +:+ vspace +:+ "}" ]
  else [].

(** The list [cover_latex] of [_modern_cover_template]. *)
Definition modern_cover_lines (path_exists : string → bool)
    (title author : string) (cover_image : option string) : list string :=
  [ "\begin{titlepage}"; "\centering"; "\vspace*{2cm}" ]
  ++ cover_image_lines path_exists cover_image "0.6" "2cm"
  ++ [ "{\Huge\bfseries " +:+ _clean_text_for_latex title +:+ "\par}";
       "\vspace{1.5cm}";
       "{\Large\itshape " +:+ _clean_text_for_latex author +:+ "\par}";
       "\vfill";
       "{\large \today\par}";
       "\end{titlepage}";
       "\newpage" ].

(** The list [cover_latex] of [_classic_cover_template]. *)
Definition classic_cover_lines (path_exists : string → bool)
    (title author : string) (cover_image : option string) : list string :=
  [ "\begin{titlepage}"; "\centering"; "\vspace*{3cm}";
    "\rule{\linewidth}{0.5mm} \\[0.4cm]";
    "{\huge\bfseries " +:+ _clean_text_for_latex title +:+ "\par}";
    "\rule{\linewidth}{0.5mm} \\[1.5cm]" ]
  ++ cover_image_lines path_exists cover_image "0.5" "1cm"
  ++ [ "{\Large\itshape " +:+ _clean_text_for_latex author +:+ "\par}";
       "\vfill";
       "{\large \today\par}";
       "\end{titlepage}";
       "\newpage" ].

(** The list [cover_latex] of [_children_cover_template]. *)
Definition children_cover_lines (path_exists : string → bool)
    (title author : string) (cover_image : option string) : list string :=
  [ "\begin{titlepage}"; "\centering"; "\vspace*{1cm}" ]
  ++ cover_image_lines path_exists cover_image "0.8" "1cm"
  ++ [ "{\Huge\colorbox{yellow}{\textcolor{blue}{\textbf{"
         +:+ _clean_text_for_latex title +:+ "}}}\par}";
       "\vspace{2cm}";
       "{\LARGE\textcolor{purple}{\textbf{"
         +:+ _clean_text_for_latex author +:+ "}}\par}";
       "\vfill";
       "\end{titlepage}";
       "\newpage" ].

Definition _modern_cover_template (path_exists : string → bool)
    (title author : string) (cover_image : option string) : string :=
  PyStr.join newline_str (modern_cover_lines path_exists title author cover_image).

Definition _classic_cover_template (path_exists : string → bool)
    (title author : string) (cover_image : option string) : string :=
  PyStr.join newline_str (classic_cover_lines path_exists title author cover_image).

Definition _children_cover_template (path_exists : string → bool)
    (title author : string) (cover_image : option string) : string :=
  PyStr.join newline_str (children_cover_lines path_exists title author cover_image).

(** The dictionary [cover_styles]. *)
Definition cover_styles (path_exists : string → bool)
  : gmap string (string → string → option string → string) :=
  {[ "modern" := _modern_cover_template path_exists;
     "classic" := _classic_cover_template path_exists;
     "children" := _children_cover_template path_exists ]}.

(** [generate_cover_page]. *)
Definition generate_cover_page (path_exists : string → bool)
    (title author : string) (cover_image : option string) (style : string)
  : string :=
  let template_func :=
    default (_modern_cover_template path_exists)
            (cover_styles path_exists !! style) in
  template_func title author cover_image.

(** * Properties *)

(** ** Strings *)

Section string_facts.

Lemma app_String c (s t : string) : String c s +:+ t = String c (s +:+ t).
Proof. reflexivity. Qed.

Lemma app_empty_l (t : string) : EmptyString +:+ t = t.
Proof. reflexivity. Qed.

Lemma app_empty_r (s : string) : s +:+ EmptyString = s.
Proof. induction s as [|c s IH]; [done|]. by rewrite app_String, IH. Qed.

Lemma app_assoc_str (s t u : string) : (s +:+ t) +:+ u = s +:+ (t +:+ u).
Proof.
  induction s as [|c s IH]; [done|]. by rewrite !app_String, IH.
Qed.

Lemma rev_app_spec (s t : string) :
  String.rev_app s t = String.rev s +:+ t.
Proof.
  unfold String.rev. revert t.
  induction s as [|c s IH]; intros t; simpl; [done|].
  rewrite (IH (String c EmptyString)), IH, app_assoc_str. done.
Qed.

Lemma rev_String c (s : string) :
  String.rev (String c s) = String.rev s +:+ String c EmptyString.
Proof. unfold String.rev at 1. simpl. apply rev_app_spec. Qed.

Lemma rev_app_distr_str (s t : string) :
  String.rev (s +:+ t) = String.rev t +:+ String.rev s.
Proof.
  induction s as [|c s IH].
  - by rewrite app_empty_l, app_empty_r.
  - by rewrite app_String, !rev_String, IH, app_assoc_str.
Qed.

Lemma rev_involutive_str (s : string) : String.rev (String.rev s) = s.
Proof.
  induction s as [|c s IH]; [done|].
  by rewrite rev_String, rev_app_distr_str, IH.
Qed.

End string_facts.

(** ** Escaping *)

Section escaping.

Lemma replace_app old new (s t : string) :
  PyStr.replace old new (s +:+ t) =
  PyStr.replace old new s +:+ PyStr.replace old new t.
Proof.
  induction s as [|c s IH]; [done|].
  rewrite app_String. simpl. rewrite IH.
  destruct (Ascii.eqb c old); [by rewrite app_assoc_str | done].
Qed.

Lemma concat_map_app f (s t : string) :
  PyFormat.concat_map f (s +:+ t) =
  PyFormat.concat_map f s +:+ PyFormat.concat_map f t.
Proof.
  induction s as [|c s IH]; [done|].
  rewrite app_String. simpl. by rewrite IH, app_assoc_str.
Qed.

(** The chain of replacements distributes over concatenation, so it acts
    on each character of the input on its own. *)
Lemma escape_special_app (s t : string) :
  escape_special (s +:+ t) = escape_special s +:+ escape_special t.
Proof.
  unfold escape_special, latex_special_chars. simpl.
  by rewrite !replace_app.
Qed.

Lemma escape_special_char_by_char (s : string) :
  escape_special s =
  PyFormat.concat_map (fun c => escape_special (String c EmptyString)) s.
Proof.
  induction s as [|c s IH]; [done|].
  change (String c s) with (String c EmptyString +:+ s).
  rewrite escape_special_app, IH. done.
Qed.

(** What the chain makes of each of the ten characters: the backslash of
    every earlier replacement is rewritten by the last rule, and the
    braces of the circumflex rule by the brace rules.  Only the backslash
    itself comes out as its table entry. *)
Lemma escape_special_table :
  (fun c => escape_special (String c EmptyString)) <$>
    ["&"; "%"; "$"; "#"; "^"; "_"; "{"; "}"; "~"; PyStr.backslash]%char =
  [ "\textbackslash{}&"; "\textbackslash{}%"; "\textbackslash{}$";
    "\textbackslash{}#";
    "\textbackslash{}textasciicircum\textbackslash{}{\textbackslash{}}";
    "\textbackslash{}_"; "\textbackslash{}{"; "\textbackslash{}}";
    "\textbackslash{}textasciitilde{}"; "\textbackslash{}" ].
Proof. reflexivity. Qed.

(** The second and third quote statements find nothing to replace. *)
Lemma replace_absent old new (s : string) :
  PyFormat.mem_char old s = false → PyStr.replace old new s = s.
Proof.
  induction s as [|c s IH]; [done|]. simpl.
  rewrite Ascii.eqb_sym.
  destruct (Ascii.eqb c old); simpl; [done|]. intros H. by rewrite IH.
Qed.

Lemma mem_char_app c (s t : string) :
  PyFormat.mem_char c (s +:+ t) =
  PyFormat.mem_char c s || PyFormat.mem_char c t.
Proof.
  induction s as [|d s IH]; [done|].
  rewrite app_String. simpl. by rewrite IH, orb_assoc.
Qed.

Lemma replace_removes old new (s : string) :
  PyFormat.mem_char old new = false →
  PyFormat.mem_char old (PyStr.replace old new s) = false.
Proof.
  intros Hnew. induction s as [|c s IH]; [done|]. simpl.
  destruct (Ascii.eqb c old) eqn:E.
  - by rewrite mem_char_app, Hnew, IH.
  - simpl. by rewrite Ascii.eqb_sym, E, IH.
Qed.

Lemma handle_quotes_once (s : string) :
  handle_quotes s = PyStr.replace PyStr.dquote "''" s.
Proof.
  unfold handle_quotes.
  assert (PyFormat.mem_char PyStr.dquote
            (PyStr.replace PyStr.dquote "''" s) = false) as H
    by by apply replace_removes.
  by rewrite !(replace_absent _ _ _ H).
Qed.

(** No opening-quote markup is ever produced: a backquote is in the
    result only when it was in the input. *)
Lemma handle_quotes_no_backquote (s : string) :
  PyFormat.mem_char "`"%char s = false →
  PyFormat.mem_char "`"%char (handle_quotes s) = false.
Proof.
  rewrite handle_quotes_once.
  induction s as [|c s IH]; [done|]. simpl.
  intros [Hc Hs]%orb_false_elim.
  destruct (Ascii.eqb c PyStr.dquote); simpl; [by apply IH|].
  by rewrite Hc, IH.
Qed.

End escaping.

(** C1 (the code departs from it).  On the input of the specification's
    scenario, "Once upon a time & far away", the chain of replacements yields
    a backslash macro followed by a bare ampersand, where the one-pass
    mapping the specification describes yields an escaped ampersand. *)
Theorem C1_escape_ampersand_rewritten :
  escape_special "Once upon a time & far away"
    = "Once upon a time \textbackslash{}& far away"
  ∧ _clean_text_for_latex "Once upon a time & far away"
    = "\noindent Once upon a time \textbackslash{}& far away"
  ∧ escape_single_pass "Once upon a time & far away"
    = "Once upon a time \& far away"
  ∧ escape_special "Once upon a time & far away"
    ≠ escape_single_pass "Once upon a time & far away".
Proof. repeat split; try reflexivity. by vm_compute. Qed.

(** C6 (the code departs from it).  Every straight double quote, opening or
    closing, becomes the closing markup: the quoted span of
    [He said "hi"] comes out between two pairs of apostrophes. *)
Theorem C6_quotes_all_closing :
  _clean_text_for_latex
    ("He said " +:+ String PyStr.dquote "hi" +:+ String PyStr.dquote EmptyString)
  = "\noindent He said ''hi''".
Proof. reflexivity. Qed.

(** ** Grouping *)

Section grouping.

Implicit Types (l : list Store.content) (x item : Store.content) (k : Z).

Lemma scenes_of_snoc l x :
  scenes_of (l ++ [x]) = group_step (scenes_of l) x.
Proof. unfold scenes_of. by rewrite fold_left_app. Qed.

Lemma of_type_snoc ty k l x :
  of_type ty k (l ++ [x]) =
  of_type ty k l ++
    (if decide (Store.c_type x = ty ∧ scene_index_of x = k) then [x] else []).
Proof. unfold of_type. by rewrite filter_app, (filter_singleton _ x []). Qed.

Lemma of_type_empty ty k l :
  filter (fun item => scene_index_of item = k) l = [] → of_type ty k l = [].
Proof.
  intros H. unfold of_type. apply elem_of_nil_inv.
  intros y [[_ Hk] Hin]%list_elem_of_filter.
  by eapply (filter_nil_not_elem_of _ l y H).
Qed.

Lemma scene_at_empty k l :
  filter (fun item => scene_index_of item = k) l = [] →
  scene_at k l = new_scene k.
Proof.
  intros H. unfold scene_at, new_scene. by rewrite !of_type_empty.
Qed.

(** The dictionary after the [if scene_index not in scenes] statement. *)
Lemma ensure_lookup (m : gmap Z scene) k0 k :
  (match m !! k0 with
   | None => <[k0:=new_scene k0]> m
   | Some _ => m
   end) !! k =
  if decide (k = k0) then Some (default (new_scene k0) (m !! k0))
  else m !! k.
Proof.
  destruct (decide (k = k0)) as [->|Hne].
  - destruct (m !! k0) eqn:E; [by rewrite E | by rewrite lookup_insert_eq].
  - destruct (m !! k0); [done | by rewrite lookup_insert_ne].
Qed.

Lemma group_step_lookup (m : gmap Z scene) x k :
  group_step m x !! k =
  if decide (k = scene_index_of x)
  then Some (place x (default (new_scene k) (m !! k)))
  else m !! k.
Proof.
  unfold group_step, place.
  set (k0 := scene_index_of x).
  pose proof (ensure_lookup m k0) as He.
  set (m' := match m !! k0 with
             | Some _ => m
             | None => <[k0:=new_scene k0]> m
             end) in *.
  clearbody m'.
  destruct (decide (k = k0)) as [->|Hne].
  - repeat case_decide; rewrite ?lookup_alter_eq, He, decide_True by done;
      done.
  - repeat case_decide; rewrite ?lookup_alter_ne by done;
      by rewrite He, decide_False.
Qed.

Lemma of_type_snoc_same ty l x :
  of_type ty (scene_index_of x) (l ++ [x]) =
  of_type ty (scene_index_of x) l ++
    (if decide (Store.c_type x = ty) then [x] else []).
Proof.
  rewrite of_type_snoc. f_equal. apply decide_ext. tauto.
Qed.

Lemma of_type_snoc_other ty l x k :
  k ≠ scene_index_of x → of_type ty k (l ++ [x]) = of_type ty k l.
Proof.
  intros Hne. rewrite of_type_snoc, decide_False, app_nil_r; [done|].
  intros [_ ?]. by apply Hne.
Qed.

Lemma scene_at_snoc_same l x :
  scene_at (scene_index_of x) (l ++ [x]) =
  place x (scene_at (scene_index_of x) l).
Proof.
  unfold scene_at, place, append_text, append_image, append_audio.
  rewrite !of_type_snoc_same.
  destruct (decide (Store.c_type x = "text")) as [Ht|Ht].
  { rewrite Ht. simpl. by rewrite !app_nil_r. }
  destruct (decide (Store.c_type x = "image")) as [Hi|Hi].
  { rewrite Hi. simpl. by rewrite !app_nil_r. }
  destruct (decide (Store.c_type x = "audio")) as [Ha|Ha].
  { simpl. by rewrite !app_nil_r. }
  by rewrite !app_nil_r.
Qed.

Lemma scene_at_snoc_other l x k :
  k ≠ scene_index_of x → scene_at k (l ++ [x]) = scene_at k l.
Proof.
  intros Hne. unfold scene_at. by rewrite !of_type_snoc_other.
Qed.

(** The dictionary built by the loop, key by key. *)
Lemma scenes_of_lookup l k :
  scenes_of l !! k =
  match filter (fun item => scene_index_of item = k) l with
  | [] => None
  | _ => Some (scene_at k l)
  end.
Proof.
  revert k. induction l as [|x l IH] using rev_ind; intros k; [done|].
  rewrite scenes_of_snoc, group_step_lookup, filter_app,
    (filter_singleton _ x []), IH.
  destruct (decide (k = scene_index_of x)) as [->|Hne].
  - rewrite decide_True by done.
    rewrite scene_at_snoc_same.
    destruct (filter _ l) eqn:E; simpl; [|done].
    by rewrite scene_at_empty.
  - rewrite decide_False, app_nil_r by done.
    by rewrite scene_at_snoc_other.
Qed.

Lemma bucket_nonempty l k :
  filter (fun item => scene_index_of item = k) l ≠ [] ↔
  ∃ item, item ∈ l ∧ scene_index_of item = k.
Proof.
  split.
  - destruct (filter _ l) as [|a r] eqn:E; [done|]. intros _.
    assert (a ∈ filter (fun item => scene_index_of item = k) l) as Ha
      by (rewrite E; apply list_elem_of_here).
    apply list_elem_of_filter in Ha as [? ?]. eauto.
  - intros (a & Hin & Ha) E.
    by eapply (filter_nil_not_elem_of _ l a E).
Qed.

Lemma scenes_of_dom l k :
  k ∈ dom (scenes_of l) ↔ ∃ item, item ∈ l ∧ scene_index_of item = k.
Proof.
  rewrite elem_of_dom, scenes_of_lookup, <-bucket_nonempty.
  destruct (filter _ l); split; intros H; done.
Qed.

Lemma sorted_keys_elem (m : gmap Z scene) k :
  k ∈ sorted_keys m ↔ k ∈ dom m.
Proof.
  unfold sorted_keys. by rewrite merge_sort_Permutation, elem_of_elements.
Qed.

Lemma ascending_strict (ks : list Z) :
  StronglySorted Z.le ks → NoDup ks → StronglySorted Z.lt ks.
Proof.
  induction 1 as [|k ks Hs IH Hall]; intros Hnd; constructor.
  - apply IH. by apply NoDup_cons in Hnd as [_ ?].
  - apply NoDup_cons in Hnd as [Hk _].
    rewrite Forall_forall in Hall |- *. intros j Hj.
    assert (k ≠ j) by (intros ->; done).
    specialize (Hall j Hj). lia.
Qed.

Lemma sorted_keys_ascending (m : gmap Z scene) :
  StronglySorted Z.lt (sorted_keys m).
Proof.
  apply ascending_strict.
  - apply StronglySorted_merge_sort; apply _.
  - unfold sorted_keys. rewrite merge_sort_Permutation.
    apply NoDup_elements.
Qed.

Lemma omap_all_Some {A B} (f : A → option B) (g : A → B) (ks : list A) :
  Forall (fun a => f a = Some (g a)) ks → omap f ks = g <$> ks.
Proof.
  induction 1 as [|a ks Ha _ IH]; [done|].
  csimpl. by rewrite Ha, IH.
Qed.

(** The list comprehension finds every sorted key in the dictionary. *)
Lemma group_by_scene_eq l :
  _group_content_by_scene l =
  (fun k => scene_at k l) <$> sorted_keys (scenes_of l).
Proof.
  unfold _group_content_by_scene. apply omap_all_Some.
  apply Forall_forall. intros k Hk%sorted_keys_elem.
  apply scenes_of_dom, bucket_nonempty in Hk.
  rewrite scenes_of_lookup. by destruct (filter _ l).
Qed.

Lemma fmap_filter_comp {A B} (f : A → B) (P : B → Prop)
    `{∀ b, Decision (P b)} (l : list A) :
  f <$> filter (fun a => P (f a)) l = filter P (f <$> l).
Proof.
  induction l as [|a l IH]; [done|].
  rewrite fmap_cons, !filter_cons.
  destruct (decide (P (f a))); by rewrite ?fmap_cons, IH.
Qed.

Lemma of_type_assignments ty k l :
  assignment_of_item <$> of_type ty k l =
  filter (fun p : Z * string => p.2 = ty ∧ p.1 `div` 10 = k)
         (assignment_of_item <$> l).
Proof.
  unfold of_type.
  by rewrite <-(fmap_filter_comp assignment_of_item
                  (fun p : Z * string => p.2 = ty ∧ p.1 `div` 10 = k)).
Qed.

Lemma scenes_of_dom_assignments l1 l2 :
  assignment_of_item <$> l1 ≡ₚ assignment_of_item <$> l2 →
  dom (scenes_of l1) = dom (scenes_of l2).
Proof.
  intros Hp. apply set_eq. intros k. rewrite !scenes_of_dom.
  assert (∀ l, (∃ item, item ∈ l ∧ scene_index_of item = k) ↔
               ∃ p, p ∈ assignment_of_item <$> l ∧ p.1 `div` 10 = k) as Hl.
  { intros l. split.
    - intros (item & Hin & Hk). exists (assignment_of_item item).
      split; [by apply list_elem_of_fmap_2 | done].
    - intros (p & (item & -> & Hin)%list_elem_of_fmap & Hk). eauto. }
  rewrite !Hl. by setoid_rewrite Hp.
Qed.

End grouping.

(** C3.  Grouping puts an item of type text, image or audio in the list of
    its type of the scene keyed by its order index integer-divided by 10,
    in input order; the scenes come out in strictly ascending key order, one
    per key that occurs; the scene of key [k] is titled "Scene k+1".  Two
    inputs with the same multiset of (order index, type) assignments give
    the same keys in the same order and, scene by scene and type by type,
    the same multiset of assignments; a reordering of the same items leaves
    every item in its scene. *)
Theorem C3_group_content_by_scene (l1 l2 : list Store.content) :
  assignment_of_item <$> l1 ≡ₚ assignment_of_item <$> l2 →
  let keys := sorted_keys (scenes_of l1) in
  StronglySorted Z.lt keys
  ∧ (∀ k, k ∈ keys ↔
          ∃ item, item ∈ l1 ∧ Store.c_order_index item `div` 10 = k)
  ∧ _group_content_by_scene l1 =
      (fun k =>
         {| title := "Scene " +:+ PyStr.str_int (k + 1);
            text_items := of_type "text" k l1;
            image_items := of_type "image" k l1;
            audio_items := of_type "audio" k l1 |}) <$> keys
  ∧ sorted_keys (scenes_of l2) = keys
  ∧ title <$> _group_content_by_scene l2 = title <$> _group_content_by_scene l1
  ∧ (∀ ty k, assignment_of_item <$> of_type ty k l1 ≡ₚ
             assignment_of_item <$> of_type ty k l2)
  ∧ (l1 ≡ₚ l2 → ∀ ty k, of_type ty k l1 ≡ₚ of_type ty k l2).
Proof.
  intros Hp keys.
  assert (sorted_keys (scenes_of l2) = keys) as Hkeys.
  { unfold keys, sorted_keys. by rewrite (scenes_of_dom_assignments l1 l2). }
  split_and!.
  - apply sorted_keys_ascending.
  - intros k. unfold keys. by rewrite sorted_keys_elem, scenes_of_dom.
  - apply group_by_scene_eq.
  - done.
  - rewrite !group_by_scene_eq, Hkeys. fold keys.
    rewrite <-!list_fmap_compose. done.
  - intros ty k. rewrite !of_type_assignments. by rewrite Hp.
  - intros Hl ty k. unfold of_type. by rewrite Hl.
Qed.

Lemma C3_group_content_by_scene_witness :
  assignment_of_item <$> [scenario_text; scenario_image; later_text] ≡ₚ
  assignment_of_item <$> [scenario_image; later_text; scenario_text]
  ∧ sorted_keys (scenes_of [scenario_image; later_text; scenario_text])
    = sorted_keys (scenes_of [scenario_text; scenario_image; later_text])
  ∧ title <$> _group_content_by_scene [scenario_image; later_text; scenario_text]
    = title <$> _group_content_by_scene [scenario_text; scenario_image; later_text].
Proof.
  assert (assignment_of_item <$> [scenario_text; scenario_image; later_text] ≡ₚ
          assignment_of_item <$> [scenario_image; later_text; scenario_text])
    as Hp.
  { change (assignment_of_item <$> [scenario_image; later_text; scenario_text])
      with ((assignment_of_item <$> [scenario_image; later_text])
            ++ [assignment_of_item scenario_text]).
    apply Permutation_cons_append. }
  split; [exact Hp|].
  pose proof (C3_group_content_by_scene _ _ Hp) as H. simpl in H.
  split; apply H.
Defined.

Example group_scenario :
  _group_content_by_scene [scenario_text; scenario_image; later_text] =
  [ {| title := "Scene 1"; text_items := [scenario_text];
       image_items := [scenario_image]; audio_items := [] |};
    {| title := "Scene 2"; text_items := [later_text];
       image_items := []; audio_items := [] |} ].
Proof. by vm_compute. Qed.

(** ** Assembling the sections *)

Section assembling.

Context (path_exists : string → bool) (st : settings).
Implicit Types (l : list Store.content) (x item : Store.content) (k : Z).

Lemma build_content_sections_eq l :
  _build_content_sections path_exists l st =
  sorted_keys (scenes_of l) ≫=
    (fun k => scene_sections path_exists st (scene_at k l)).
Proof.
  unfold _build_content_sections. rewrite group_by_scene_eq.
  induction (sorted_keys (scenes_of l)) as [|k ks IH]; [done|].
  by rewrite fmap_cons, !bind_cons, IH.
Qed.

Lemma of_type_app ty k l1 l2 :
  of_type ty k (l1 ++ l2) = of_type ty k l1 ++ of_type ty k l2.
Proof. apply filter_app. Qed.

Lemma of_type_cons ty k x l :
  of_type ty k (x :: l) =
  (if decide (Store.c_type x = ty ∧ scene_index_of x = k) then [x] else [])
  ++ of_type ty k l.
Proof. unfold of_type. rewrite filter_cons. by case_decide. Qed.

(** An item changes the lists of its own type only. *)
Lemma of_type_skip ty k l1 x l2 :
  Store.c_type x ≠ ty →
  of_type ty k (l1 ++ x :: l2) = of_type ty k (l1 ++ l2).
Proof.
  intros Hty. rewrite !of_type_app, of_type_cons, decide_False; [done|].
  by intros [? _].
Qed.

(** An image whose file is absent does not pass the file check. *)
Lemma on_disk_skip k l1 x l2 :
  image_on_disk path_exists x = false →
  filter (fun item => Is_true (image_on_disk path_exists item))
         (of_type "image" k (l1 ++ x :: l2)) =
  filter (fun item => Is_true (image_on_disk path_exists item))
         (of_type "image" k (l1 ++ l2)).
Proof.
  intros Hx. rewrite !of_type_app, of_type_cons, !filter_app.
  case_decide; [|done].
  rewrite filter_cons, decide_False; [done|]. rewrite Hx. simpl. tauto.
Qed.

Lemma scene_sections_skip k l1 x l2 :
  Store.c_type x = "image" →
  image_on_disk path_exists x = false →
  scene_sections path_exists st (scene_at k (l1 ++ x :: l2)) =
  scene_sections path_exists st (scene_at k (l1 ++ l2)).
Proof.
  intros Hty Hx. unfold scene_sections, scene_at. simpl.
  rewrite on_disk_skip by done.
  rewrite (of_type_skip "text") by (by rewrite Hty).
  done.
Qed.

(** The text fragments open with the no-indent marker, when they are not
    empty; they never open a figure. *)
Lemma clean_text_not_image_block (text : string) :
  is_image_block (_clean_text_for_latex text) = false.
Proof.
  unfold _clean_text_for_latex, add_paragraph_breaks.
  destruct (filter _ _) as [|para [|para' rest]]; reflexivity.
Qed.

Lemma image_block_of_scene (sc : scene) (s : string) :
  s ∈ scene_sections path_exists st sc →
  is_image_block s = true →
  ∃ item, item ∈ image_items sc
          ∧ image_on_disk path_exists item = true
          ∧ s = _create_image_section item st.
Proof.
  unfold scene_sections. rewrite !elem_of_app.
  intros [Hh|[Ht|[Hi|Hv]]] Hblock.
  - destruct (PyStr.truthy (title sc)); [|by apply elem_of_nil in Hh].
    apply list_elem_of_singleton in Hh as ->.
    by destruct (is_comic st).
  - apply list_elem_of_fmap in Ht as (item & -> & _).
    by rewrite clean_text_not_image_block in Hblock.
  - apply list_elem_of_fmap in Hi as (item & -> & Hin).
    apply list_elem_of_filter in Hin as [Hdisk Hin].
    exists item. split_and!; [done| |done].
    by apply Is_true_true.
  - by apply list_elem_of_singleton in Hv as ->.
Qed.

Lemma text_in_scene (sc : scene) item :
  item ∈ text_items sc →
  opt_truthy (Store.c_content_text item) = true →
  _clean_text_for_latex (default EmptyString (Store.c_content_text item))
    ∈ scene_sections path_exists st sc.
Proof.
  intros Hin Htext. unfold scene_sections. rewrite !elem_of_app.
  right; left.
  apply (list_elem_of_fmap_2
           (fun item => _clean_text_for_latex
                          (default EmptyString (Store.c_content_text item)))).
  apply list_elem_of_filter. split; [by apply Is_true_true | done].
Qed.

(** An item that shares its scene with another adds no key of its own. *)
Lemma sorted_keys_skip l1 x l2 :
  (∃ y, y ∈ l1 ++ l2 ∧ scene_index_of y = scene_index_of x) →
  sorted_keys (scenes_of (l1 ++ x :: l2)) = sorted_keys (scenes_of (l1 ++ l2)).
Proof.
  intros (y & Hy & Hk). unfold sorted_keys. do 2 f_equal.
  apply set_eq. intros k. rewrite !scenes_of_dom. split.
  - intros (item & Hin & Hitem).
    apply elem_of_app in Hin as [Hin|[->|Hin]%elem_of_cons].
    + exists item. split; [apply elem_of_app; by left | done].
    + exists y. split; [done | congruence].
    + exists item. split; [apply elem_of_app; by right | done].
  - intros (item & Hin & Hitem). exists item. split; [|done].
    apply elem_of_app in Hin as [Hin|Hin]; apply elem_of_app;
      [by left | right; by apply list_elem_of_further].
Qed.

End assembling.

(** C8.  An image item whose file is not on disk contributes nothing and
    stops nothing: the fragments assembled from a list that holds it are,
    scene by scene, the fragments of the other items, and are exactly what
    the other items alone assemble to when one of them shares its scene;
    every image block in the result belongs to another image item, one
    whose file exists; and the cleaned text of every text item is in the
    result. *)
Theorem C8_missing_image_is_skipped (path_exists : string → bool)
    (st : settings) (l1 l2 : list Store.content) (x : Store.content) :
  Store.c_type x = "image" →
  image_on_disk path_exists x = false →
  let sections := _build_content_sections path_exists (l1 ++ x :: l2) st in
  sections =
    sorted_keys (scenes_of (l1 ++ x :: l2)) ≫=
      (fun k => scene_sections path_exists st (scene_at k (l1 ++ l2)))
  ∧ ((∃ y, y ∈ l1 ++ l2 ∧
           Store.c_order_index y `div` 10 = Store.c_order_index x `div` 10) →
     sections = _build_content_sections path_exists (l1 ++ l2) st)
  ∧ (∀ s, s ∈ sections → is_image_block s = true →
          ∃ item, item ∈ l1 ++ l2
                  ∧ Store.c_type item = "image"
                  ∧ image_on_disk path_exists item = true
                  ∧ s = _create_image_section item st)
  ∧ (∀ item, item ∈ l1 ++ x :: l2 →
             Store.c_type item = "text" →
             opt_truthy (Store.c_content_text item) = true →
             _clean_text_for_latex
               (default EmptyString (Store.c_content_text item)) ∈ sections).
Proof.
  intros Hty Hx sections.
  assert (sections =
          sorted_keys (scenes_of (l1 ++ x :: l2)) ≫=
            (fun k => scene_sections path_exists st (scene_at k (l1 ++ l2))))
    as Heq.
  { unfold sections. rewrite build_content_sections_eq.
    apply list_bind_ext; [|done].
    intros k. by apply scene_sections_skip. }
  split_and!; [done| | |].
  - intros Hshared. rewrite Heq, build_content_sections_eq.
    by rewrite sorted_keys_skip.
  - intros s Hs Hblock. rewrite Heq in Hs.
    apply list_elem_of_bind in Hs as (k & Hs & _).
    destruct (image_block_of_scene _ _ _ _ Hs Hblock) as (item & Hin & Hd & ->).
    simpl in Hin. apply list_elem_of_filter in Hin as [[Hi _] Hin].
    by exists item.
  - intros item Hin Htext Htruthy. unfold sections.
    rewrite build_content_sections_eq.
    apply list_elem_of_bind. exists (scene_index_of item). split.
    + apply text_in_scene; [|done]. simpl.
      apply list_elem_of_filter. done.
    + apply sorted_keys_elem, scenes_of_dom. eauto.
Qed.

Lemma C8_missing_image_is_skipped_witness :
  _build_content_sections (fun _ => false) [scenario_text; scenario_image] None
  = _build_content_sections (fun _ => false) [scenario_text] None
  ∧ _build_content_sections (fun _ => false) [scenario_text; scenario_image] None
  = [ "\chapter{Scene 1}";
      "\noindent Once upon a time \textbackslash{}& far away";
      "\vspace{1em}" ].
Proof.
  split; [|by vm_compute].
  assert (Store.c_type scenario_image = "image") as Hty by reflexivity.
  assert (image_on_disk (fun _ => false) scenario_image = false) as Hx
    by reflexivity.
  pose proof (C8_missing_image_is_skipped (fun _ => false) None
                [scenario_text] [] scenario_image Hty Hx) as (_ & H & _).
  apply H. exists scenario_text. split; [apply list_elem_of_here|reflexivity].
Defined.

(** ** The content store *)

Section store.

Import Store.
Implicit Types (d : db) (p q : project) (rows : list project).

Lemma find_update_where_id project_id (f : project → project) rows :
  (∀ p, p_id (f p) = p_id p) →
  List.find (fun p => bool_decide (p_id p = project_id))
            (update_where_id project_id f rows) =
  f <$> List.find (fun p => bool_decide (p_id p = project_id)) rows.
Proof.
  intros Hid. unfold update_where_id.
  induction rows as [|q rows IH]; [done|].
  rewrite fmap_cons. simpl.
  destruct (decide (p_id q = project_id)) as [Hq|Hq].
  - by rewrite !bool_decide_eq_true_2 by (by rewrite ?Hid).
  - by rewrite !bool_decide_eq_false_2.
Qed.

Lemma find_update_where_id_other project_id other (f : project → project)
    rows :
  other ≠ project_id →
  (∀ p, p_id (f p) = p_id p) →
  List.find (fun p => bool_decide (p_id p = other))
            (update_where_id project_id f rows) =
  List.find (fun p => bool_decide (p_id p = other)) rows.
Proof.
  intros Hne Hid. unfold update_where_id.
  induction rows as [|q rows IH]; [done|].
  rewrite fmap_cons. simpl.
  destruct (decide (p_id q = project_id)) as [Hq|Hq].
  - rewrite !bool_decide_eq_false_2; [done|congruence|].
    rewrite Hid. congruence.
  - by rewrite IH.
Qed.

Lemma assign_id a p : p_id (assign a p) = p_id p.
Proof. by destruct a. Qed.

Lemma assign_updated_at a p : p_updated_at (assign a p) = p_updated_at p.
Proof. by destruct a. Qed.

Lemma fold_assign_id fields p :
  p_id (fold_left (fun p a => assign a p) fields p) = p_id p.
Proof.
  revert p. induction fields as [|a fields IH]; intros p; [done|].
  simpl. by rewrite IH, assign_id.
Qed.

Lemma delete_project_get now project_id d :
  get_project project_id (delete_project now project_id d) =
  (fun p => stamp now (assign (SetStatus "deleted") p))
    <$> get_project project_id d.
Proof. unfold get_project, delete_project. simpl. by apply find_update_where_id. Qed.

(** A key adds a field exactly when it is one of the four. *)
Lemma assignment_of_None key value :
  assignment_of (key, value) = None ↔ key ∉ project_keys.
Proof.
  unfold assignment_of, project_keys.
  case_bool_decide as Hthree.
  - split; [by destruct value|]. intros Hnot. destruct Hnot.
    apply elem_of_cons in Hthree as [->|Hthree]; [set_solver|].
    apply elem_of_cons in Hthree as [->|Hthree]; [set_solver|].
    apply elem_of_cons in Hthree as [->|Hthree]; [set_solver|].
    by apply elem_of_nil in Hthree.
  - case_bool_decide as Hsettings.
    + split; [done|]. intros Hnot. destruct Hnot. subst key. set_solver.
    + split; [|done]. intros _ Hin.
      apply elem_of_cons in Hin as [->|Hin];
        [destruct Hthree; set_solver|].
      apply elem_of_cons in Hin as [->|Hin];
        [destruct Hthree; set_solver|].
      apply elem_of_cons in Hin as [->|Hin];
        [destruct Hthree; set_solver|].
      apply elem_of_cons in Hin as [->|Hin]; [done|].
      by apply elem_of_nil in Hin.
Qed.

Lemma omap_assignment_of_nil (kwargs : list (string * kwarg)) :
  omap assignment_of kwargs = [] ↔ ∀ kv, kv ∈ kwargs → kv.1 ∉ project_keys.
Proof.
  induction kwargs as [|[key value] kwargs IH].
  - split; [by intros _ kv ?%elem_of_nil | done].
  - cbn [omap list_omap].
    destruct (assignment_of (key, value)) as [field|] eqn:E.
    + split; [done|]. intros Hall.
      assert (key ∉ project_keys) as Hkey
        by apply (Hall (key, value)), list_elem_of_here.
      apply assignment_of_None with (value := value) in Hkey. congruence.
    + rewrite IH. apply assignment_of_None in E. split.
      * intros Hall kv [->|Hin]%elem_of_cons; [done | by apply Hall].
      * intros Hall kv Hin. by apply Hall, list_elem_of_further.
Qed.

(** The binding raises exactly when some value cannot be bound. *)
Lemma bind_all_raises {A} (fields : list (A + store_error)) e :
  bind_all fields = inr e → inr e ∈ fields.
Proof.
  induction fields as [|[a|e'] fields IH]; simpl; [done| |].
  - destruct (bind_all fields); [done|]. intros [= ->].
    by apply list_elem_of_further, IH.
  - intros [= ->]. apply list_elem_of_here.
Qed.

Lemma bind_all_returns {A} (fields : list (A + store_error)) :
  (∀ e, inr e ∉ fields) → ∃ assignments, bind_all fields = inl assignments.
Proof.
  induction fields as [|[a|e'] fields IH]; intros Hno; simpl.
  - by eexists.
  - destruct IH as [l ->]; [|by eexists].
    intros e He. by apply (Hno e), list_elem_of_further.
  - destruct (Hno e'). apply list_elem_of_here.
Qed.

(** The only values of the model that cannot be bound are dictionaries
    passed for [name], [type] or [status]. *)
Lemma assignment_of_raises key value e :
  assignment_of (key, value) = Some (inr e) ↔
  e = UnsupportedType ∧ key ∈ ["name"; "type"; "status"]
  ∧ ∃ m, value = KwSettings m.
Proof.
  unfold assignment_of.
  case_bool_decide as Hkey.
  - destruct value as [s|m].
    + split; [done | by intros (_ & _ & ? & ?)].
    + split; [intros [= <-]; eauto | by intros (-> & _)].
  - case_bool_decide; (split; [done | by intros (_ & ? & _)]).
Qed.

Lemma update_project_raises now project_id kwargs d e :
  update_project now project_id kwargs d = inr e ↔
  e = UnsupportedType
  ∧ ∃ key m, (key, KwSettings m) ∈ kwargs ∧ key ∈ ["name"; "type"; "status"].
Proof.
  unfold update_project. split.
  - destruct (omap assignment_of kwargs) as [|a fields] eqn:E; [done|].
    destruct (bind_all (a :: fields)) as [l|e'] eqn:Hbind; [done|].
    intros [= ->]. apply bind_all_raises in Hbind. rewrite <-E in Hbind.
    apply list_elem_of_omap in Hbind as ([key value] & Hin & Hraise).
    apply assignment_of_raises in Hraise as (-> & Hkey & m & ->). eauto.
  - intros (-> & key & m & Hin & Hkey).
    assert (inr UnsupportedType ∈ omap assignment_of kwargs) as Hfield.
    { apply list_elem_of_omap. exists (key, KwSettings m). split; [done|].
      apply assignment_of_raises. eauto. }
    destruct (omap assignment_of kwargs) as [|a fields] eqn:E;
      [by apply elem_of_nil in Hfield|].
    destruct (bind_all (a :: fields)) as [l|e'] eqn:Hbind.
    + exfalso. clear E. revert l Hbind.
      induction (a :: fields) as [|[b|e''] rest IH]; intros l Hbind;
        [by apply elem_of_nil in Hfield| |done].
      apply elem_of_cons in Hfield as [?|Hfield]; [done|].
      simpl in Hbind. destruct (bind_all rest) as [l'|]; [|done].
      by apply (IH Hfield l').
    + apply bind_all_raises in Hbind. rewrite <-E in Hbind.
      apply list_elem_of_omap in Hbind as ([key' value'] & _ & Hraise).
      by apply assignment_of_raises in Hraise as (-> & _).
Qed.

(** What a call that returns has written. *)
Lemma update_project_written now project_id kwargs d d' :
  omap assignment_of kwargs ≠ [] →
  update_project now project_id kwargs d = inl d' →
  ∃ assignments,
    bind_all (omap assignment_of kwargs) = inl assignments
    ∧ d' = {| projects :=
                update_where_id project_id
                  (fun p => stamp now
                              (fold_left (fun p a => assign a p) assignments p))
                  (projects d);
              contents := contents d;
              templates := templates d |}.
Proof.
  intros Hf. unfold update_project.
  destruct (omap assignment_of kwargs) as [|a fields] eqn:E; [done|].
  destruct (bind_all (a :: fields)) as [l|e]; [|done].
  intros [= <-]. by exists l.
Qed.

Lemma update_project_get now project_id kwargs d d' :
  omap assignment_of kwargs ≠ [] →
  update_project now project_id kwargs d = inl d' →
  ∃ assignments,
    bind_all (omap assignment_of kwargs) = inl assignments
    ∧ get_project project_id d' =
      (fun p => stamp now (fold_left (fun p a => assign a p) assignments p))
        <$> get_project project_id d.
Proof.
  intros Hf Hd'.
  destruct (update_project_written _ _ _ _ _ Hf Hd') as (l & Hl & ->).
  exists l. split; [done|]. unfold get_project. simpl.
  apply find_update_where_id.
  intros p. simpl. by rewrite fold_assign_id.
Qed.

(** Every row [get_projects] lists is an active row of the table. *)
Lemma get_projects_active project_type d q :
  q ∈ get_projects project_type d →
  q ∈ projects d ∧ p_status q = "active".
Proof.
  unfold get_projects. rewrite merge_sort_Permutation.
  destruct project_type as [ty|]; [destruct (PyStr.truthy ty)|];
    rewrite list_elem_of_filter; tauto.
Qed.

End store.

(** C9, as stated, fails on [add_content]: adding an item at time 200 to a
    project last updated at time 100 leaves its update time at 100. *)
Lemma C9_add_content_does_not_stamp :
  ∃ d', Store.add_content 200 "c9" "p1" "text" (Some "More text") None None 2
                          None sample_db = inl d'
        ∧ Store.p_updated_at <$> Store.get_project "p1" d' = Some 100
        ∧ ¬ write_stamps_owner 200 "p1" sample_db d'.
Proof.
  eexists. split; [reflexivity|]. split; [reflexivity|].
  intros H. specialize (H sample_project eq_refl). discriminate H.
Qed.

(** C9, amended.  [update_project], when it is passed at least one of the
    keys it recognises and returns, and [delete_project] stamp the project's
    update time with the current time as part of the write.
    [update_project] without a recognised key writes nothing; it raises, and
    then writes nothing, exactly when a dictionary is passed for [name],
    [type] or [status].  [add_content] and [delete_content] write content
    rows only: the projects table, update times included, is as it was. *)
Theorem C9_project_writes_stamp (now : Z) (project_id : string)
    (kwargs : list (string * Store.kwarg)) (d d' : Store.db) :
  (∃ kv, kv ∈ kwargs ∧ kv.1 ∈ Store.project_keys) →
  Store.update_project now project_id kwargs d = inl d' →
  write_stamps_owner now project_id d d'
  ∧ write_stamps_owner now project_id d (Store.delete_project now project_id d)
  ∧ (∀ unrecognised,
       (∀ kv, kv ∈ unrecognised → kv.1 ∉ Store.project_keys) →
       Store.update_project now project_id unrecognised d = inl d)
  ∧ (∀ other e,
       Store.update_project now project_id other d = inr e ↔
       e = Store.UnsupportedType
       ∧ ∃ key m, (key, Store.KwSettings m) ∈ other
                  ∧ key ∈ ["name"; "type"; "status"])
  ∧ (∀ content_id content_type text image_path audio_path order_index
       metadata d1,
       Store.add_content now content_id project_id content_type text
         image_path audio_path order_index metadata d = inl d1 →
       Store.projects d1 = Store.projects d)
  ∧ (∀ content_id,
       Store.projects (Store.delete_content content_id d) = Store.projects d).
Proof.
  intros (kv & Hin & Hkey) Hd'.
  assert (omap Store.assignment_of kwargs ≠ []) as Hfields.
  { intros Hnil. by apply (proj1 (omap_assignment_of_nil kwargs) Hnil kv). }
  split_and!.
  - intros p Hp.
    destruct (update_project_get _ _ _ _ _ Hfields Hd') as (l & _ & ->).
    by rewrite Hp.
  - intros p Hp. by rewrite delete_project_get, Hp.
  - intros kw Hkw. unfold Store.update_project.
    by rewrite (proj2 (omap_assignment_of_nil kw) Hkw).
  - intros other e. apply update_project_raises.
  - intros ???????? Hadd. unfold Store.add_content in Hadd.
    destruct (Store.fits_int64 _); simpl in Hadd; [|done].
    case_bool_decide; by simplify_eq.
  - done.
Qed.

Lemma C9_project_writes_stamp_witness :
  ∃ d',
    Store.update_project 200 "p1" [("settings", Store.KwStr "dark")] sample_db
      = inl d'
    ∧ write_stamps_owner 200 "p1" sample_db d'
    ∧ write_stamps_owner 200 "p1" sample_db
        (Store.delete_project 200 "p1" sample_db)
    ∧ Store.update_project 200 "p1"
        [("name", Store.KwSettings ∅); ("status", Store.KwStr "done")] sample_db
      = inr Store.UnsupportedType.
Proof.
  eexists. split; [reflexivity|].
  assert (∃ kv, kv ∈ [("settings", Store.KwStr "dark")]
                ∧ kv.1 ∈ Store.project_keys) as Hkey.
  { exists ("settings", Store.KwStr "dark").
    split; [apply list_elem_of_here | by apply (bool_decide_unpack _)]. }
  pose proof (C9_project_writes_stamp 200 "p1"
                [("settings", Store.KwStr "dark")] sample_db _ Hkey eq_refl)
    as (Hupdate & Hdelete & _ & Hraise & _).
  split; [exact Hupdate|]. split; [exact Hdelete|].
  apply Hraise. split; [done|].
  exists "name", ∅.
  split; [apply list_elem_of_here | by apply (bool_decide_unpack _)].
Defined.

(** C10.  Deleting an existing project is a soft delete: the row stays, with
    its status set to deleted and its update time to the current time and
    every other column as it was; the rows of other projects, the content
    rows and the templates are untouched; [get_project] still returns the
    row; [get_projects] no longer lists it, whatever the type filter. *)
Theorem C10_delete_project_is_soft (now : Z) (project_id : string)
    (d : Store.db) (p : Store.project) :
  Store.get_project project_id d = Some p →
  let d' := Store.delete_project now project_id d in
  Store.get_project project_id d' =
    Some {| Store.p_id := Store.p_id p; Store.p_name := Store.p_name p;
            Store.p_type := Store.p_type p;
            Store.p_created_at := Store.p_created_at p;
            Store.p_updated_at := now;
            Store.p_settings := Store.p_settings p;
            Store.p_status := "deleted" |}
  ∧ Store.contents d' = Store.contents d
  ∧ Store.get_project_content project_id d' =
      Store.get_project_content project_id d
  ∧ Store.templates d' = Store.templates d
  ∧ length (Store.projects d') = length (Store.projects d)
  ∧ (∀ other, other ≠ project_id →
              Store.get_project other d' = Store.get_project other d)
  ∧ (∀ project_type q, q ∈ Store.get_projects project_type d' →
                       Store.p_id q ≠ project_id).
Proof.
  intros Hp d'. split_and!.
  - unfold d'. by rewrite delete_project_get, Hp.
  - done.
  - done.
  - done.
  - unfold d', Store.delete_project, Store.update_where_id. simpl.
    by rewrite length_fmap.
  - intros other Hne. unfold d', Store.get_project, Store.delete_project.
    simpl. by apply find_update_where_id_other.
  - intros ty q [Hin Hactive]%get_projects_active Hid.
    unfold d', Store.delete_project, Store.update_where_id in Hin.
    simpl in Hin.
    apply list_elem_of_fmap in Hin as (q0 & -> & _).
    destruct (decide (Store.p_id q0 = project_id)); [done|].
    done.
Qed.

Lemma C10_delete_project_is_soft_witness :
  Store.get_project "p1" sample_db = Some sample_project
  ∧ Store.p_status <$> Store.get_project "p1"
                         (Store.delete_project 200 "p1" sample_db)
    = Some "deleted"
  ∧ Store.get_projects None (Store.delete_project 200 "p1" sample_db) = []
  ∧ Store.get_project_content "p1" (Store.delete_project 200 "p1" sample_db)
    = [scenario_text; scenario_image].
Proof.
  split; [reflexivity|].
  pose proof (C10_delete_project_is_soft 200 "p1" sample_db sample_project
                eq_refl) as (Hget & _ & Hcontent & _).
  split; [by rewrite Hget|].
  split; [by vm_compute|].
  rewrite Hcontent. by vm_compute.
Defined.

(** ** The rate limiter *)

Section limiter.

Import Limiter.
Local Open Scope Q_scope.

Lemma in_window_true (now window req_time : Q) :
  in_window now window req_time = true ↔ now - req_time < window.
Proof.
  unfold in_window. rewrite negb_true_iff, <-not_true_iff_false, Qle_bool_iff.
  split; [apply Qnot_le_lt | apply Qlt_not_le].
Qed.

Lemma in_window_false (now window req_time : Q) :
  in_window now window req_time = false ↔ window <= now - req_time.
Proof.
  unfold in_window. by rewrite negb_false_iff, Qle_bool_iff.
Qed.

(** With room for two requests, a list that holds one timestamp never
    blocks. *)
Lemma filter_length_le {A} (f : A → bool) (l : list A) :
  (length (List.filter f l) <= length l)%nat.
Proof.
  induction l as [|a l IH]; simpl; [done|]. destruct (f a); simpl; lia.
Qed.

End limiter.

(** C5.  For a limiter built with [max_requests=2] and [time_window=60]:
    a check succeeds exactly when fewer than two recorded timestamps are
    less than 60 seconds old; two requests made within a window are both
    admitted and recorded, a third check within the same window is refused,
    and [time_until_next_request] then returns the time left until the
    older timestamp is 60 seconds old, a value above zero; a check made 60
    seconds or more after the older timestamp succeeds. *)
Theorem C5_sliding_window (a1 r1 a2 r2 c c' t : Q) :
  (r1 <= a2)%Q → (a2 <= r2)%Q → (r2 <= c)%Q → (c <= c')%Q →
  (c' - r1 < 60)%Q →
  (60 <= t - r1)%Q →
  let rl0 := Limiter.init 2 60 in
  let rl1 := {| Limiter.max_requests := 2; Limiter.time_window := 60;
                Limiter.requests := [r1] |} in
  let rl2 := {| Limiter.max_requests := 2; Limiter.time_window := 60;
                Limiter.requests := [r1; r2] |} in
  (∀ now rl, Limiter.max_requests rl = 2%Z → Limiter.time_window rl = 60%Q →
     (snd (Limiter.can_make_request now rl) = true ↔
      (length (List.filter (Limiter.in_window now 60) (Limiter.requests rl))
       < 2)%nat))
  ∧ (∀ now req_time,
       Limiter.in_window now 60 req_time = true ↔ (now - req_time < 60)%Q)
  ∧ Limiter.check_and_record a1 r1 rl0 = (rl1, true)
  ∧ Limiter.check_and_record a2 r2 rl1 = (rl2, true)
  ∧ Limiter.can_make_request c rl2 = (rl2, false)
  ∧ Limiter.time_until_next_request c c' rl2 = (rl2, Some (60 - (c' - r1))%Q)
  ∧ (0 < 60 - (c' - r1))%Q
  ∧ snd (Limiter.can_make_request t rl2) = true.
Proof.
  intros H1 H2 H3 H4 Hin Hout rl0 rl1 rl2.
  assert (Limiter.in_window a2 60 r1 = true) as Ea2
    by (apply in_window_true; lra).
  assert (Limiter.in_window c 60 r1 = true) as Ec1
    by (apply in_window_true; lra).
  assert (Limiter.in_window c 60 r2 = true) as Ec2
    by (apply in_window_true; lra).
  assert (Limiter.in_window t 60 r1 = false) as Et
    by (apply in_window_false; lra).
  split_and!.
  - intros now rl Hmax Hwin. unfold Limiter.can_make_request. simpl.
    rewrite Hmax, Hwin, bool_decide_eq_true. lia.
  - intros now req_time. apply in_window_true.
  - reflexivity.
  - unfold Limiter.check_and_record, Limiter.can_make_request, rl1, rl2. simpl.
    by rewrite Ea2.
  - unfold Limiter.can_make_request, rl2. simpl. by rewrite Ec1, Ec2.
  - unfold Limiter.time_until_next_request, Limiter.can_make_request, rl2.
    simpl. rewrite Ec1, Ec2. simpl.
    assert (Qle_bool r1 r2 = true) as -> by (apply Qle_bool_iff; lra).
    done.
  - lra.
  - unfold Limiter.can_make_request, rl2. simpl. rewrite Et.
    apply bool_decide_eq_true.
    pose proof (filter_length_le (Limiter.in_window t 60) [r2]). simpl in *. lia.
Qed.

Lemma C5_sliding_window_witness :
  Limiter.check_and_record 0 0 (Limiter.init 2 60)
    = ({| Limiter.max_requests := 2; Limiter.time_window := 60;
          Limiter.requests := [0%Q] |}, true)
  ∧ Limiter.time_until_next_request 30 30
      {| Limiter.max_requests := 2; Limiter.time_window := 60;
         Limiter.requests := [0%Q; 10%Q] |}
    = ({| Limiter.max_requests := 2; Limiter.time_window := 60;
          Limiter.requests := [0%Q; 10%Q] |}, Some (60 - (30 - 0))%Q)
  ∧ snd (Limiter.can_make_request 60
           {| Limiter.max_requests := 2; Limiter.time_window := 60;
              Limiter.requests := [0%Q; 10%Q] |}) = true.
Proof.
  assert (0 <= 10)%Q as H1 by lra.
  assert (10 <= 10)%Q as H2 by lra.
  assert (10 <= 30)%Q as H3 by lra.
  assert (30 <= 30)%Q as H4 by lra.
  assert (30 - 0 < 60)%Q as H5 by lra.
  assert (60 <= 60 - 0)%Q as H6 by lra.
  pose proof (C5_sliding_window 0 0 10 10 30 30 60 H1 H2 H3 H4 H5 H6)
    as (_ & _ & Ha & _ & _ & Hu & _ & Hc).
  split; [exact Ha|]. split; [exact Hu|exact Hc].
Defined.

(** ** Compilation *)

Section compilation.

Import Compiler.
Implicit Types (tc : toolchain) (w : world).

Lemma promote_temp odn name t work rc out err w :
  temp_dirs (promote odn name t work rc out err w).1 =
  <[t := work]> (temp_dirs w).
Proof.
  unfold promote, copy_to_output.
  destruct ((rc =? 0) && bool_decide (is_Some (work !! "document.pdf")));
    [|done].
  by destruct (copy_error (set_temp t work w) (name +:+ ".pdf")).
Qed.

(** Whatever the [try] block does, the temporary directory is the only
    temporary directory it writes. *)
Lemma compile_in_temp tc odn code name twice t w :
  ∃ work, temp_dirs (compile_in tc odn code name twice t w).1 =
          <[t := work]> (temp_dirs w).
Proof.
  unfold compile_in.
  destruct (run_passes tc code twice) as [work [rc out err| |msg]];
    exists work; [apply promote_temp|done|done].
Qed.

Lemma promote_failure odn name t work rc out err w :
  (promote odn name t work rc out err w).2.1 = None →
  output_dir (promote odn name t work rc out err w).1 = output_dir w.
Proof.
  unfold promote, copy_to_output.
  destruct ((rc =? 0) && bool_decide (is_Some (work !! "document.pdf")));
    [|done].
  by destruct (copy_error (set_temp t work w) (name +:+ ".pdf")).
Qed.

Lemma compile_in_failure tc odn code name twice t w :
  (compile_in tc odn code name twice t w).2.1 = None →
  output_dir (compile_in tc odn code name twice t w).1 = output_dir w.
Proof.
  unfold compile_in.
  destruct (run_passes tc code twice) as [work [rc out err| |msg]];
    [apply promote_failure|done|done].
Qed.

Lemma cleanup_fresh w work :
  delete (fresh_temp w) (<[fresh_temp w := work]> (temp_dirs w)) =
  temp_dirs w.
Proof.
  apply delete_insert_id, not_elem_of_dom. unfold fresh_temp. apply is_fresh.
Qed.

End compilation.

(** C4.  A call of [compile_pdf] leaves the set of temporary directories as
    it found it, on every path.  Whenever it returns no path, the output
    directory is unchanged.  When the toolchain is there and the run that
    counts ends with a non-zero status or without the document, the error is
    the fixed heading followed by the compiler's standard error, or by its
    standard output when the former is empty; when a run times out, the error
    is the timeout message. *)
Theorem C4_failed_compile_promotes_nothing (tc : Compiler.toolchain)
    (output_dir_name latex_code output_filename : string)
    (compile_twice : bool) (w : Compiler.world) :
  let result :=
    Compiler.compile_pdf tc output_dir_name latex_code output_filename
                         compile_twice w in
  let final := Compiler.run_passes tc latex_code compile_twice in
  Compiler.temp_dirs result.1 = Compiler.temp_dirs w
  ∧ (result.2.1 = None → Compiler.output_dir result.1 = Compiler.output_dir w)
  ∧ (Compiler.check_latex_installation tc = true →
     ∀ returncode stdout stderr,
       final.2 = Compiler.Completed returncode stdout stderr →
       returncode ≠ 0 ∨ final.1 !! "document.pdf" = None →
       Compiler.output_dir result.1 = Compiler.output_dir w
       ∧ result.2 =
           (None, Some ("LaTeX compilation failed:" +:+ newline_str +:+
                        (if PyStr.truthy stderr then stderr else stdout))))
  ∧ (Compiler.check_latex_installation tc = true →
     final.2 = Compiler.TimeoutExpired →
       Compiler.output_dir result.1 = Compiler.output_dir w
       ∧ result.2 = (None, Some "LaTeX compilation timeout")).
Proof.
  intros result final.
  unfold result, Compiler.compile_pdf.
  destruct (Compiler.check_latex_installation tc) eqn:Hinst; simpl;
    [|by split_and!].
  set (t := Compiler.fresh_temp w).
  destruct (Compiler.compile_in tc output_dir_name latex_code output_filename
              compile_twice t (Compiler.set_temp t ∅ w)) as [w' r] eqn:E.
  simpl.
  pose proof (compile_in_temp tc output_dir_name latex_code output_filename
                compile_twice t (Compiler.set_temp t ∅ w)) as [work Htemp].
  pose proof (compile_in_failure tc output_dir_name latex_code output_filename
                compile_twice t (Compiler.set_temp t ∅ w)) as Hfail.
  rewrite E in Htemp, Hfail. simpl in Htemp, Hfail.
  assert (final = Compiler.run_passes tc latex_code compile_twice) as Hfinal
    by done.
  unfold Compiler.compile_in in E. rewrite <-Hfinal in E.
  clearbody final.
  split_and!.
  - rewrite Htemp, insert_insert_eq. apply cleanup_fresh.
  - done.
  - intros _ rc out err Hres Hbad.
    destruct final as [work' res]. simpl in Hres, Hbad. subst res.
    unfold Compiler.promote, Compiler.error_log in E.
    assert ((rc =? 0) && bool_decide (is_Some (work' !! "document.pdf"))
            = false) as Hcond.
    { destruct Hbad as [Hrc%Z.eqb_neq|Hpdf].
      - by rewrite Hrc.
      - rewrite Hpdf, bool_decide_eq_false_2, andb_false_r; [done|].
        by intros [? ?]. }
    rewrite Hcond in E. by simplify_eq.
  - intros _ Hres. destruct final as [work' res]. simpl in Hres. subst res.
    by simplify_eq.
Qed.

Lemma C4_failed_compile_promotes_nothing_witness :
  Compiler.check_latex_installation failing_toolchain = true
  ∧ (let result :=
       Compiler.compile_pdf failing_toolchain "static/exports"
         "\documentclass{book}\begin{document}" "project_p1" true
         sample_world in
     Compiler.temp_dirs result.1 = Compiler.temp_dirs sample_world
     ∧ Compiler.output_dir result.1 = Compiler.output_dir sample_world
     ∧ result.2 = (None, Some ("LaTeX compilation failed:" +:+ newline_str
                               +:+ "! Emergency stop."))).
Proof.
  split; [reflexivity|].
  pose proof (C4_failed_compile_promotes_nothing failing_toolchain
                "static/exports" "\documentclass{book}\begin{document}"
                "project_p1" true sample_world)
    as (Htemp & _ & Hfail & _).
  assert (1 ≠ 0) as Hne by lia.
  destruct (Hfail eq_refl 1 "! Emergency stop." EmptyString eq_refl
                  (or_introl Hne))
    as [Hout Hres].
  split; [exact Htemp|]. split; [exact Hout | exact Hres].
Defined.

Example compile_success :
  Compiler.compile_pdf working_toolchain "static/exports"
    "\documentclass{book}" "project_p1" true sample_world
  = ({| Compiler.output_dir :=
          <["project_p1.pdf" := "%PDF"]> (Compiler.output_dir sample_world);
        Compiler.temp_dirs := ∅;
        Compiler.copy_error := Compiler.copy_error sample_world |},
     (Some "static/exports/project_p1.pdf", None)).
Proof. reflexivity. Qed.

(** An output name with a directory part that does not exist: the copy
    raises, and the call returns the error of its last handler. *)
Example compile_copy_refused :
  Compiler.compile_pdf working_toolchain "static/exports"
    "\documentclass{book}" "sub/doc" true sample_world
  = (sample_world,
     (None, Some "PDF generation error: [Errno 2] No such file or directory: 'static/exports/sub/doc.pdf'")).
Proof. reflexivity. Qed.

(** ** The audiobook companion *)

Section audiobook.

Implicit Types (items : list Store.content) (i : Z).










End audiobook.



Example audiobook_narrated :
  _generate_audiobook_latex
    {| Store.p_id := "p2"; Store.p_name := "Narrated"; Store.p_type := "story";
       Store.p_created_at := 100; Store.p_updated_at := 100;
       Store.p_settings := Store.KwSettings ∅; Store.p_status := "active" |}
    (Store.get_project_content "p2" narrated_db)
  = PyStr.join newline_str
      (audiobook_preamble
         {| Store.p_id := "p2"; Store.p_name := "Narrated";
            Store.p_type := "story";
            Store.p_created_at := 100; Store.p_updated_at := 100;
            Store.p_settings := Store.KwSettings ∅; Store.p_status := "active" |}
       ++ [ "\subsection*{Track 1}";
            "\textbf{File:} p2_scene_0.mp3\\";
            "\textbf{Duration:} Approximately 0.1 minutes\\";
            "\vspace{1em}";
            "\subsection*{Track 2}";
            "\textbf{File:} track_2.mp3\\";
            "\textbf{Duration:} Approximately 1.0 minutes\\";
            "\vspace{1em}";
            "\subsection*{Track 3}";
            "\textbf{File:} outro.mp3\\";
            "\textbf{Duration:} Approximately 0.2 minutes\\";
            "\vspace{1em}";
            EmptyString; "\end{document}" ]).
Proof. by vm_compute. Qed.

(** ** Template filling *)

Section filling.

Import PyFormat.
Context (vars : gmap string string).

Lemma eqb_false_of_plain (c d : ascii) :
  plain_char c = true → mem_char d "{}[].:!" = true → Ascii.eqb c d = false.
Proof.
  unfold plain_char. intros Hc Hd.
  destruct (Ascii.eqb c d) eqn:E; [|done].
  apply Ascii.eqb_eq in E as ->. by rewrite Hd in Hc.
Qed.

Lemma field_char_plain name c :
  plain_char c = true → field_char name c = inl (Field (String c name)).
Proof.
  intros Hc. unfold field_char.
  by rewrite !(eqb_false_of_plain c) by done.
Qed.

(** Scanning the rest of a plain name up to its closing brace. *)
Lemma format_go_name (name acc out rest : string) :
  all_plain name = true →
  format_go vars (Field acc) out (name +:+ String "}"%char rest) =
  match get_field vars (String.rev (String.rev_app name acc)) with
  | Ok v => format_go vars Literal (String.rev_app v out) rest
  | r => r
  end.
Proof.
  revert acc. induction name as [|c name IH]; intros acc Hplain.
  - done.
  - simpl in Hplain. apply andb_true_iff in Hplain as [Hc Hplain].
    rewrite app_String. cbn [format_go].
    rewrite (eqb_false_of_plain c "}") by done.
    rewrite field_char_plain by done.
    by rewrite IH.
Qed.

Lemma first_part_plain (name : string) :
  all_plain name = true → first_part name = (name, false).
Proof.
  induction name as [|c name IH]; [done|].
  simpl. intros [Hc Hplain]%andb_true_iff.
  rewrite !(eqb_false_of_plain c) by done. simpl.
  by rewrite IH.
Qed.

Lemma get_field_plain (name : string) :
  plain_name name = true →
  get_field vars name =
  match vars !! name with
  | None => Raise (KeyError name)
  | Some v => Ok v
  end.
Proof.
  unfold plain_name.
  intros [[Hne Hplain]%andb_true_iff Hdig%negb_true_iff]%andb_true_iff.
  unfold get_field. by rewrite first_part_plain, Hne, Hdig.
Qed.

(** A whole placeholder, read from literal text. *)
Lemma format_go_placeholder (name out rest : string) :
  plain_name name = true →
  format_go vars Literal out (("{" +:+ name +:+ "}") +:+ rest) =
  match vars !! name with
  | None => Raise (KeyError name)
  | Some v => format_go vars Literal (String.rev_app v out) rest
  end.
Proof.
  intros Hname. pose proof Hname as Hplain. unfold plain_name in Hplain.
  apply andb_true_iff in Hplain as [[Hne Hplain]%andb_true_iff _].
  destruct name as [|c name]; [done|].
  simpl in Hplain. apply andb_true_iff in Hplain as [Hc Hplain].
  change (("{" +:+ String c name +:+ "}") +:+ rest)
    with (String "{"%char (String c ((name +:+ "}") +:+ rest))).
  rewrite app_assoc_str.
  change ("}" +:+ rest) with (String "}"%char rest).
  cbn [format_go]. simpl (Ascii.eqb "{" "{").
  cbn match.
  rewrite (eqb_false_of_plain c "{"), (eqb_false_of_plain c "}") by done.
  rewrite field_char_plain by done.
  rewrite format_go_name by done.
  rewrite rev_app_spec, rev_app_distr_str, rev_involutive_str.
  change (String.rev (String c EmptyString) +:+ name) with (String c name).
  rewrite get_field_plain by done.
  by destruct (vars !! String c name).
Qed.

Lemma rev_app_app (a b c : string) :
  String.rev_app (a +:+ b) c = String.rev_app b (String.rev_app a c).
Proof.
  revert c. induction a as [|x a IH]; intros c; [done|].
  rewrite app_String. simpl. by rewrite IH.
Qed.

(** Scanning plain characters of a field name, whatever follows them. *)
Lemma format_go_plain (name acc out s : string) :
  all_plain name = true →
  format_go vars (Field acc) out (name +:+ s) =
  format_go vars (Field (String.rev_app name acc)) out s.
Proof.
  revert acc. induction name as [|c name IH]; intros acc Hplain; [done|].
  simpl in Hplain. apply andb_true_iff in Hplain as [Hc Hplain].
  rewrite app_String. cbn [format_go].
  rewrite (eqb_false_of_plain c "}") by done.
  rewrite field_char_plain by done.
  by rewrite IH.
Qed.

(** An opening brace and the name behind it. *)
Lemma format_go_open (name out s : string) :
  name ≠ EmptyString → all_plain name = true →
  format_go vars Literal out (String "{"%char (name +:+ s)) =
  format_go vars (Field (String.rev name)) out s.
Proof.
  intros Hne Hplain. destruct name as [|c name]; [done|].
  simpl in Hplain. apply andb_true_iff in Hplain as [Hc Hplain].
  rewrite app_String. cbn [format_go]. simpl (Ascii.eqb "{" "{").
  cbn match.
  rewrite (eqb_false_of_plain c "{"), (eqb_false_of_plain c "}") by done.
  rewrite field_char_plain by done.
  rewrite format_go_plain by done.
  by rewrite rev_app_spec, rev_String.
Qed.

Lemma plain_name_all_plain (name : string) :
  plain_name name = true → name ≠ EmptyString ∧ all_plain name = true.
Proof.
  unfold plain_name. intros [[Hne Hplain]%andb_true_iff _]%andb_true_iff.
  split; [by destruct name|done].
Qed.

(** The conversions [r], [s] and [a]. *)
Lemma do_conversion_rsa (c : ascii) (v : string) :
  mem_char c "rsa" = true →
  do_conversion (Some c) v = inl (converted c v).
Proof.
  cbn [mem_char]. rewrite orb_false_r.
  intros [E|[E|E]%orb_true_iff]%orb_true_iff;
    apply Ascii.eqb_eq in E as ->; reflexivity.
Qed.

(** Any other conversion, except the character 0, is refused. *)
Lemma do_conversion_unknown (c : ascii) (v : string) :
  mem_char c "rsa" = false → c ≠ Ascii.zero →
  ∃ msg, do_conversion (Some c) v = inr (ValueError msg).
Proof.
  cbn [mem_char]. rewrite orb_false_r.
  intros [Hr [Hs Ha]%orb_false_elim]%orb_false_elim Hzero.
  unfold do_conversion.
  destruct (N.eqb_spec (N_of_ascii c) 0) as [E|_].
  { exfalso. apply Hzero. by rewrite <-(ascii_N_embedding c), E. }
  rewrite Hr, Hs, Ha. by destruct (_ && _); eexists.
Qed.

(** A placeholder with a conversion, read from literal text. *)
Lemma format_go_conversion (name : string) (c : ascii) (out rest : string) :
  plain_name name = true →
  format_go vars Literal out
    (String "{"%char (name +:+ String "!"%char (String c (String "}"%char rest)))) =
  match vars !! name with
  | None => Raise (KeyError name)
  | Some v =>
      match do_conversion (Some c) v with
      | inl text => format_go vars Literal (String.rev_app text out) rest
      | inr e => Raise e
      end
  end.
Proof.
  intros Hname. destruct (plain_name_all_plain name Hname) as [Hne Hplain].
  rewrite format_go_open by done.
  cbn [format_go]. simpl (Ascii.eqb "!" "}"). cbn match.
  change (field_char (String.rev name) "!") with
    (inl (Conversion (String.rev name)) : mode + result).
  cbn match. simpl (Ascii.eqb "}" "}"). cbn match.
  unfold output_markup.
  rewrite rev_involutive_str, get_field_plain by done.
  destruct (vars !! name) as [v|]; [|done].
  by destruct (do_conversion (Some c) v).
Qed.

(** The scanner on a rendered token list followed by any text at all. *)
Lemma format_go_render_then (toks : list token) (out rest : string) :
  forallb valid_token toks = true →
  format_go vars Literal out (render toks +:+ rest) =
  match first_missing vars toks with
  | Some name => Raise (KeyError name)
  | None =>
      format_go vars Literal (String.rev_app (substituted vars toks) out) rest
  end.
Proof.
  revert out. induction toks as [|t toks IH]; intros out Hvalid; [done|].
  simpl in Hvalid. apply andb_true_iff in Hvalid as [Ht Hvalid].
  destruct t as [c| | |name|name conversion];
    cbn [render render_token first_missing substituted].
  - simpl in Ht. apply negb_true_iff, orb_false_iff in Ht as [Ho Hc].
    rewrite !app_String, app_empty_l. cbn [format_go]. rewrite Ho, Hc.
    rewrite IH by done. by destruct (first_missing vars toks).
  - change (("{{" +:+ render toks) +:+ rest)
      with (String "{"%char (String "{"%char (render toks +:+ rest))).
    cbn [format_go]. simpl (Ascii.eqb "{" "{"). cbn match.
    rewrite IH by done. by destruct (first_missing vars toks).
  - change (("}}" +:+ render toks) +:+ rest)
      with (String "}"%char (String "}"%char (render toks +:+ rest))).
    cbn [format_go]. simpl (Ascii.eqb "}" "{").
    simpl (Ascii.eqb "}" "}"). cbn match.
    rewrite IH by done. by destruct (first_missing vars toks).
  - rewrite app_assoc_str, format_go_placeholder by done.
    destruct (vars !! name) as [v|]; [|done].
    rewrite IH by done. destruct (first_missing vars toks); [done|].
    simpl. by rewrite rev_app_app.
  - simpl in Ht. apply andb_true_iff in Ht as [Hname Hconv].
    rewrite app_assoc_str.
    change ("{" +:+ name +:+ String "!" (String conversion "}"))
      with (String "{"%char (name +:+ String "!" (String conversion "}"))).
    rewrite app_String, app_assoc_str.
    change (String "!" (String conversion "}") +:+ render toks +:+ rest)
      with (String "!"%char
              (String conversion (String "}"%char (render toks +:+ rest)))).
    rewrite format_go_conversion by done.
    destruct (vars !! name) as [v|]; [|done].
    rewrite do_conversion_rsa by done.
    rewrite IH by done. destruct (first_missing vars toks); [done|].
    simpl. by rewrite rev_app_app.
Qed.

(** The scanner on a rendered token list. *)
Lemma format_go_render (toks : list token) (out : string) :
  forallb valid_token toks = true →
  format_go vars Literal out (render toks) =
  match first_missing vars toks with
  | Some name => Raise (KeyError name)
  | None => Ok (String.rev out +:+ substituted vars toks)
  end.
Proof.
  intros Hvalid. rewrite <-(app_empty_r (render toks)).
  rewrite format_go_render_then by done.
  destruct (first_missing vars toks); [done|].
  cbn [format_go].
  by rewrite rev_app_spec, rev_app_distr_str, rev_involutive_str.
Qed.

(** Some placeholder is absent exactly when there is a first one. *)
Lemma first_missing_Some_iff (toks : list token) :
  (∃ name, first_missing vars toks = Some name) ↔
  ∃ name, name ∈ placeholder_names toks ∧ vars !! name = None.
Proof.
  unfold placeholder_names. induction toks as [|t toks IH].
  - split; [by intros [? ?] | intros (? & []%elem_of_nil & _)].
  - destruct t as [c| | |n|n conversion];
      cbn [first_missing omap list_omap placeholder_name]; try exact IH.
    all: destruct (vars !! n) eqn:E.
    all: try (rewrite IH; split;
              [intros (n' & ? & ?); exists n'; split;
                 [by apply list_elem_of_further|done]
              |intros (n' & [->|?]%elem_of_cons & ?);
                 [congruence|by exists n']]).
    all: split; [intros _|by eexists];
         exists n; split; [apply list_elem_of_here|done].
Qed.

(** Attribute and index parts of a field name. *)
Lemma format_go_bracket (index acc out s : string) :
  mem_char "]"%char index = false →
  format_go vars (Bracket acc) out (index +:+ String "]"%char s) =
  format_go vars (Field (String "]"%char (String.rev_app index acc))) out s.
Proof.
  revert acc. induction index as [|c index IH]; intros acc Hindex.
  - rewrite app_empty_l. cbn [format_go]. by simpl (Ascii.eqb "]" "]").
  - cbn [mem_char] in Hindex. apply orb_false_elim in Hindex as [Hc Hindex].
    rewrite app_String. cbn [format_go].
    rewrite Ascii.eqb_sym, Hc. by rewrite IH.
Qed.

Lemma format_go_access (a acc out s : string) :
  access a →
  format_go vars (Field acc) out (a +:+ s) =
  format_go vars (Field (String.rev_app a acc)) out s.
Proof.
  intros Ha. revert acc. induction Ha as [|attr rest Hattr _ IH|index rest Hindex _ IH];
    intros acc; [done| |].
  - rewrite app_String. cbn [format_go]. simpl (Ascii.eqb "." "}").
    cbn match.
    change (field_char acc ".") with
      (inl (Field (String "."%char acc)) : mode + result).
    cbn match.
    rewrite app_assoc_str, format_go_plain, IH by done.
    cbn [String.rev_app]. by rewrite rev_app_app.
  - rewrite app_String. cbn [format_go]. simpl (Ascii.eqb "[" "}").
    cbn match.
    change (field_char acc "[") with
      (inl (Bracket (String "["%char acc)) : mode + result).
    cbn match.
    rewrite app_assoc_str, app_String, format_go_bracket, IH by done.
    cbn [String.rev_app]. rewrite rev_app_app. by cbn [String.rev_app].
Qed.

Lemma first_part_access (name a : string) :
  all_plain name = true → access a →
  ∃ more, first_part (name +:+ a) = (name, more).
Proof.
  intros Hplain Ha. induction name as [|c name IH].
  - rewrite app_empty_l. destruct Ha; by eexists.
  - simpl in Hplain. apply andb_true_iff in Hplain as [Hc Hplain].
    destruct (IH Hplain) as [more Hmore]. exists more.
    rewrite app_String. cbn [first_part].
    rewrite !(eqb_false_of_plain c) by done. simpl.
    by rewrite Hmore.
Qed.

(** The lookup of an absent name fails, whatever is applied to it. *)
Lemma get_field_absent (name a : string) :
  plain_name name = true → vars !! name = None → access a →
  get_field vars (name +:+ a) = Raise (KeyError name).
Proof.
  intros Hname Hnone Ha. pose proof Hname as Hplain. unfold plain_name in Hplain.
  apply andb_true_iff in Hplain as [[Hne Hplain]%andb_true_iff Hdig%negb_true_iff].
  unfold get_field.
  destruct (first_part_access name a Hplain Ha) as [more ->].
  by rewrite Hne, Hdig, Hnone.
Qed.

(** A format spec without braces, up to the brace that closes the field. *)
Lemma format_go_spec (name : string) (conversion : option ascii)
    (spec acc out rest : string) (nested : bool) :
  no_brace spec = true →
  format_go vars (FormatSpec name conversion acc 1 nested) out
            (spec +:+ String "}"%char rest) =
  match output_markup vars (String.rev name) conversion
                      (String.rev (String.rev_app spec acc)) nested with
  | Ok v => format_go vars Literal (String.rev_app v out) rest
  | r => r
  end.
Proof.
  unfold no_brace. revert acc. induction spec as [|c spec IH]; intros acc Hspec.
  - rewrite app_empty_l. cbn [format_go]. simpl (Ascii.eqb "}" "{").
    by simpl (Ascii.eqb "}" "}").
  - cbn [mem_char] in Hspec.
    apply negb_true_iff, orb_false_elim in Hspec as [Ho Hc].
    apply orb_false_elim in Ho as [Ho Hspec_o].
    apply orb_false_elim in Hc as [Hc Hspec_c].
    rewrite app_String. cbn [format_go].
    rewrite (Ascii.eqb_sym c "{"), Ho, (Ascii.eqb_sym c "}"), Hc.
    rewrite IH; [done|]. by rewrite Hspec_o, Hspec_c.
Qed.

(** A field whose name is absent from the map raises the key error, with
    whatever access, conversion or format spec it is written. *)
Lemma format_go_absent_field (name a e out rest : string) :
  plain_name name = true → vars !! name = None → access a → ending e →
  format_go vars Literal out
    (String "{"%char (name +:+ a +:+ e +:+ String "}"%char rest)) =
  Raise (KeyError name).
Proof.
  intros Hname Hnone Ha He.
  destruct (plain_name_all_plain name Hname) as [Hne Hplain].
  rewrite format_go_open, format_go_access by done.
  assert (String.rev (String.rev_app a (String.rev name)) = name +:+ a) as Hfield.
  { by rewrite rev_app_spec, rev_app_distr_str, !rev_involutive_str. }
  set (field := String.rev_app a (String.rev name)) in *.
  pose proof (get_field_absent name a Hname Hnone Ha) as Hget.
  destruct He as [|c|spec Hspec|c spec Hspec].
  - rewrite app_empty_l. cbn [format_go]. simpl (Ascii.eqb "}" "}").
    cbn match. by rewrite Hfield, Hget.
  - rewrite !app_String, app_empty_l. cbn [format_go].
    simpl (Ascii.eqb "!" "}"). cbn match.
    change (field_char field "!") with (inl (Conversion field) : mode + result).
    cbn match. simpl (Ascii.eqb "}" "}"). cbn match.
    unfold output_markup. by rewrite Hfield, Hget.
  - rewrite app_String. cbn [format_go]. simpl (Ascii.eqb ":" "}").
    cbn match.
    change (field_char field ":") with
      (inl (FormatSpec field None EmptyString 1 false) : mode + result).
    cbn match. rewrite format_go_spec by done.
    unfold output_markup. by rewrite Hfield, Hget.
  - rewrite !app_String. cbn [format_go]. simpl (Ascii.eqb "!" "}").
    cbn match.
    change (field_char field "!") with (inl (Conversion field) : mode + result).
    cbn match. simpl (Ascii.eqb ":" "}"). simpl (Ascii.eqb ":" ":").
    cbn match. rewrite format_go_spec by done.
    unfold output_markup. by rewrite Hfield, Hget.
Qed.

Lemma is_digit_plain (c : ascii) : is_digit c = true → plain_char c = true.
Proof.
  destruct c as [[] [] [] [] [] [] [] []]; vm_compute; congruence.
Qed.

Lemma all_digits_plain (digits : string) :
  all_digits digits = true → all_plain digits = true.
Proof.
  induction digits as [|c digits IH]; [done|].
  simpl. intros [Hc Hdigits]%andb_true_iff.
  by rewrite is_digit_plain, IH.
Qed.

(** Text that begins with a malformation raises an error that is not a
    key error, whatever was produced before it. *)
Lemma malformed_raises (rest out : string) :
  malformed vars rest →
  ∃ e, format_go vars Literal out rest = Raise e ∧ ∀ key, e ≠ KeyError key.
Proof.
  intros [|c rest' Hc| |rest'|digits rest' Hne Hdigits|name rest' Hne Hplain
          |name Hne Hplain|name c rest' Hname [v Hv] Hconv Hzero].
  - by eexists.
  - cbn [format_go]. simpl (Ascii.eqb "}" "{"). simpl (Ascii.eqb "}" "}").
    cbn match.
    destruct (Ascii.eqb c "}") eqn:E; [by apply Ascii.eqb_eq in E|].
    by eexists.
  - by eexists.
  - by eexists.
  - change ("{" +:+ digits +:+ "}" +:+ rest')
      with (String "{"%char (digits +:+ String "}"%char rest')).
    rewrite format_go_open by (done || by apply all_digits_plain).
    cbn [format_go]. simpl (Ascii.eqb "}" "}"). cbn match.
    rewrite rev_involutive_str. unfold get_field.
    rewrite first_part_plain by (by apply all_digits_plain).
    assert (PyStr.truthy digits = true) as -> by (by destruct digits).
    rewrite Hdigits. simpl.
    by destruct (PY_SSIZE_T_MAX <? digits_value 0 digits); eexists.
  - change ("{" +:+ name +:+ "{" +:+ rest')
      with (String "{"%char (name +:+ String "{"%char rest')).
    rewrite format_go_open by done.
    cbn [format_go]. simpl (Ascii.eqb "{" "}"). cbn match.
    by eexists.
  - change ("{" +:+ name) with (String "{"%char name).
    rewrite <-(app_empty_r name), format_go_open by done.
    by eexists.
  - change ("{" +:+ name +:+ String "!" (String c ("}" +:+ rest')))
      with (String "{"%char
              (name +:+ String "!"%char (String c (String "}"%char rest')))).
    rewrite format_go_conversion, Hv by done.
    destruct (do_conversion_unknown c v Hconv Hzero) as [msg ->].
    by eexists.
Qed.

Lemma literal_tokens_valid (text : string) :
  mem_char "{"%char text = false → mem_char "}"%char text = false →
  forallb valid_token (literal_tokens text) = true.
Proof.
  induction text as [|c text IH]; [done|].
  cbn [mem_char literal_tokens forallb valid_token].
  intros [Ho Ht]%orb_false_elim [Hc Ht']%orb_false_elim.
  rewrite IH by done.
  by rewrite (Ascii.eqb_sym c), Ho, (Ascii.eqb_sym c), Hc.
Qed.

(** Text already produced is carried along unchanged. *)
Lemma format_go_out (m : mode) (a b s : string) :
  format_go vars m (a +:+ b) s =
  match format_go vars m a s with
  | Ok r => Ok (String.rev b +:+ r)
  | e => e
  end.
Proof.
  assert (∀ v a, String.rev_app v (a +:+ b) = String.rev_app v a +:+ b)
    as Hrev.
  { intros v. induction v as [|x v IH]; intros a'; [done|].
    simpl. by rewrite <-IH. }
  revert m a. induction s as [|c s IH]; intros m a.
  - destruct m; try done. cbn [format_go]. by rewrite rev_app_distr_str.
  - destruct m as [| | |name|name|name|name conversion
                   |name conversion spec count nested];
      cbn [format_go]; unfold field_char;
      repeat match goal with
             | |- context [Ascii.eqb c ?x] => destruct (Ascii.eqb c x)
             end;
      cbn [orb];
      repeat match goal with
             | |- context [get_field vars ?f] =>
                 destruct (get_field vars f) as [v|e|]
             | |- context [output_markup vars ?f ?cv ?sp ?n] =>
                 destruct (output_markup vars f cv sp n) as [v|e|]
             | |- context [match ?k with 0%nat => _ | S _ => _ end] =>
                 destruct k
             end;
      rewrite ?Hrev, <-?app_String; try done; apply IH.
Qed.

(** Whatever the template, a key error names a key the map lacks. *)
Lemma get_field_KeyError (field_name key : string) :
  get_field vars field_name = Raise (KeyError key) → vars !! key = None.
Proof.
  unfold get_field. destruct (first_part field_name) as [first more].
  destruct (negb (PyStr.truthy first)); [done|].
  destruct (all_digits first);
    [by destruct (PY_SSIZE_T_MAX <? digits_value 0 first)|].
  destruct (vars !! first) eqn:E; [by destruct more|].
  intros [= <-]. done.
Qed.

Lemma do_conversion_KeyError (conversion : option ascii) (v key : string) :
  do_conversion conversion v ≠ inr (KeyError key).
Proof.
  unfold do_conversion. destruct conversion as [c|]; [|done].
  by repeat case_match.
Qed.

Lemma output_markup_KeyError (field_name : string)
    (conversion : option ascii) (spec : string) (nested : bool)
    (key : string) :
  output_markup vars field_name conversion spec nested = Raise (KeyError key) →
  vars !! key = None.
Proof.
  unfold output_markup.
  destruct (get_field vars field_name) as [v|e|] eqn:E.
  - destruct (do_conversion conversion v) as [text|e] eqn:Ec.
    + by repeat case_match.
    + intros [= ->]. by apply do_conversion_KeyError in Ec.
  - intros [= ->]. by eapply get_field_KeyError.
  - done.
Qed.

Lemma format_go_KeyError (m : mode) (out s key : string) :
  format_go vars m out s = Raise (KeyError key) → vars !! key = None.
Proof.
  revert m out. induction s as [|c s IH]; intros m out.
  - by destruct m.
  - destruct m as [| | |name|name|name|name conversion
                   |name conversion spec count nested];
      cbn [format_go]; unfold field_char;
      repeat case_match; simplify_eq; try done;
      try (by apply IH);
      try (intros [= ->];
           match goal with
           | H : get_field _ ?f = _ |- _ => exact (get_field_KeyError f key H)
           | H : output_markup _ ?f ?c ?sp ?n = _ |- _ =>
               exact (output_markup_KeyError f c sp n key H)
           end).
Qed.

End filling.

(** C2, as stated, fails on a malformed template: with the four variables
    supplied, a template whose only placeholder is [title] and which ends in
    a stray closing brace references no absent name, yet filling returns a
    template-processing error, neither markup nor the missing-variable
    error. *)
Lemma C2_stray_brace_is_a_processing_error :
  fill_template "\title{title}}" sample_vars
    = Some (None,
            Some "Template processing error: Single '}' encountered in format string")
  ∧ ¬ fill_as_claimed "\title{title}}" sample_vars.
Proof.
  split; [reflexivity|].
  intros [(name & _ & H)|(code & H)]; vm_compute in H; discriminate H.
Qed.

(** C2, amended.  Filling reads the template from the left.  For a
    template made of ordinary characters, doubled braces and placeholders (a
    plain name, alone or with one of the conversions [!r], [!s], [!a]):
    filling returns the missing-variable error, naming the first placeholder
    whose name is absent from the map, if and only if some placeholder's
    name is absent; otherwise it returns the markup with every occurrence of
    every placeholder substituted and each doubled brace single; the error
    comes with no markup.  The first absent placeholder decides whatever
    text follows it, well-formed or not, and whatever follows its name
    inside the braces: attribute or index parts, a conversion, a format
    spec.  A malformation that comes before any absent placeholder (a
    closing brace on its own, an opening brace at the end, a field without a
    name or with a number for a name, an opening brace inside a field, a
    field that is not closed, an unknown conversion) gives a
    template-processing error instead.  For any template at all, a
    missing-variable error names a variable the map lacks. *)
Theorem C2_fill_template (vars : gmap string string) (toks : list token) :
  forallb valid_token toks = true →
  fill_template (render toks) vars =
    match first_missing vars toks with
    | Some name =>
        Some (None, Some ("Template variable missing: " +:+ PyFormat.repr name))
    | None => Some (Some (substituted vars toks), None)
    end
  ∧ ((∃ name, fill_template (render toks) vars =
                Some (None, Some ("Template variable missing: " +:+
                                  PyFormat.repr name)))
     ↔ ∃ name, name ∈ placeholder_names toks ∧ vars !! name = None)
  ∧ (∀ template name,
       PyFormat.format template vars = PyFormat.Raise (PyFormat.KeyError name) →
       vars !! name = None
       ∧ fill_template template vars =
           Some (None, Some ("Template variable missing: " +:+
                             PyFormat.repr name)))
  ∧ (∀ name rest,
       first_missing vars toks = Some name →
       fill_template (render toks +:+ rest) vars =
         Some (None, Some ("Template variable missing: " +:+
                           PyFormat.repr name)))
  ∧ (first_missing vars toks = None →
     (∀ name a e rest,
        plain_name name = true → vars !! name = None →
        access a → ending e →
        fill_template
          (render toks +:+ "{" +:+ name +:+ a +:+ e +:+ "}" +:+ rest) vars =
          Some (None, Some ("Template variable missing: " +:+
                            PyFormat.repr name)))
     ∧ (∀ rest,
          malformed vars rest →
          ∃ msg,
            fill_template (render toks +:+ rest) vars =
              Some (None, Some ("Template processing error: " +:+ msg)))).
Proof.
  intros Hvalid.
  assert (fill_template (render toks) vars =
          match first_missing vars toks with
          | Some name =>
              Some (None, Some ("Template variable missing: " +:+
                                PyFormat.repr name))
          | None => Some (Some (substituted vars toks), None)
          end) as Hfill.
  { unfold fill_template, PyFormat.format.
    rewrite format_go_render by done.
    by destruct (first_missing vars toks). }
  split_and!; [done| | | |].
  - rewrite Hfill. rewrite <-first_missing_Some_iff.
    destruct (first_missing vars toks) as [n|]; split.
    + intros _. by exists n.
    + intros _. by eexists.
    + by intros [? ?].
    + by intros [? ?].
  - intros template name Hraise. split.
    + by eapply format_go_KeyError.
    + unfold fill_template. by rewrite Hraise.
  - intros name rest Hmiss. unfold fill_template, PyFormat.format.
    by rewrite format_go_render_then, Hmiss.
  - intros Hnone. split.
    + intros name a e rest Hname Habsent Ha He.
      unfold fill_template, PyFormat.format.
      rewrite format_go_render_then, Hnone by done.
      change ("{" +:+ name +:+ a +:+ e +:+ "}" +:+ rest)
        with (String "{"%char (name +:+ a +:+ e +:+ String "}"%char rest)).
      by rewrite format_go_absent_field.
    + intros rest Hmal. unfold fill_template, PyFormat.format.
      rewrite format_go_render_then, Hnone by done.
      destruct (malformed_raises vars rest
                  (String.rev_app (substituted vars toks) EmptyString) Hmal)
        as (e & -> & Hkey).
      destruct e as [key|msg|msg]; [by destruct (Hkey key)| |]; by eexists.
Qed.

Lemma C2_fill_template_witness :
  forallb valid_token
    [TChar "\"; TChar "t"; TOpenBrace; TPlaceholder "title"; TCloseBrace;
     TPlaceholder "content"; TConverted "title" "r"]%char = true
  ∧ fill_template "\t{{{title}}}{content}{title!r}" sample_vars
    = Some (Some "\t{A story}\chapter{Scene 1}'A story'", None)
  ∧ fill_template "\t{{{title}}}{content}{title!r}"
                  (delete "content" sample_vars)
    = Some (None, Some "Template variable missing: 'content'")
  ∧ fill_template "{nope}}" sample_vars
    = Some (None, Some "Template variable missing: 'nope'")
  ∧ fill_template "{title}{writer.name!r:>10} and more {" sample_vars
    = Some (None, Some "Template variable missing: 'writer'")
  ∧ (∃ msg, fill_template "{title}}" sample_vars
            = Some (None, Some ("Template processing error: " +:+ msg)))
  ∧ (∃ msg, fill_template "{title}{title!x}" sample_vars
            = Some (None, Some ("Template processing error: " +:+ msg))).
Proof.
  pose proof (C2_fill_template sample_vars
                [TChar "\"; TChar "t"; TOpenBrace; TPlaceholder "title";
                 TCloseBrace; TPlaceholder "content";
                 TConverted "title" "r"]%char eq_refl) as (Hfill & _).
  pose proof (C2_fill_template (delete "content" sample_vars)
                [TChar "\"; TChar "t"; TOpenBrace; TPlaceholder "title";
                 TCloseBrace; TPlaceholder "content";
                 TConverted "title" "r"]%char eq_refl) as (Hmiss & _).
  pose proof (C2_fill_template sample_vars [TPlaceholder "nope"] eq_refl)
    as (_ & _ & _ & Hfirst & _).
  pose proof (C2_fill_template sample_vars [TPlaceholder "title"] eq_refl)
    as (_ & _ & _ & _ & Hrest).
  destruct (Hrest eq_refl) as [Habsent Hmal].
  split; [reflexivity|].
  split; [exact Hfill|].
  split; [exact Hmiss|].
  split; [exact (Hfirst "nope" "}" eq_refl)|].
  split.
  { exact (Habsent "writer" ".name" "!r:>10" " and more {" eq_refl eq_refl
             (access_attribute "name" EmptyString eq_refl access_none)
             (ending_conversion_spec "r" ">10" eq_refl)). }
  split.
  - exact (Hmal "}" (closing_brace_at_end sample_vars)).
  - refine (Hmal "{title!x}"
              (unknown_conversion sample_vars "title" "x" EmptyString
                 eq_refl _ eq_refl _)).
    + by eexists.
    + discriminate.
Defined.

(** The seeded storybook template's title line, and a line with an empty
    group as LaTeX writes it. *)
Example fill_title_line :
  fill_template "\title{{\Huge\textcolor{{storyblue}}{{{title}}}}}" sample_vars
  = Some (Some "\title{\Huge\textcolor{storyblue}{A story}}", None).
Proof. reflexivity. Qed.

Example fill_empty_group :
  fill_template "\fancyhf{}" sample_vars
  = Some (None,
          Some "Template processing error: Replacement index 0 out of range for positional args tuple").
Proof. reflexivity. Qed.

(** * Further properties of the content store *)

Section store_rows.

Import Store.
Implicit Types (d : db) (p q : project) (c : content).

Lemma fits_int64_true (n : Z) :
  fits_int64 n = true ↔ - 2 ^ 63 ≤ n < 2 ^ 63.
Proof. unfold fits_int64. rewrite andb_true_iff, Z.leb_le, Z.ltb_lt. done. Qed.

Lemma fits_int64_false (n : Z) :
  fits_int64 n = false ↔ ¬ (- 2 ^ 63 ≤ n < 2 ^ 63).
Proof. rewrite <-fits_int64_true. by destruct (fits_int64 n). Qed.

Lemma find_snoc {A} (f : A → bool) (l : list A) (x : A) :
  List.find f (l ++ [x]) =
  match List.find f l with
  | Some y => Some y
  | None => if f x then Some x else None
  end.
Proof.
  induction l as [|a l IH]; simpl; [done|]. by destruct (f a).
Qed.

Lemma find_id_None project_id (rows : list project) :
  project_id ∉ p_id <$> rows →
  List.find (fun p => bool_decide (p_id p = project_id)) rows = None.
Proof.
  induction rows as [|q rows IH]; [done|].
  rewrite fmap_cons, not_elem_of_cons. intros [Hq Hrows]. simpl.
  rewrite bool_decide_eq_false_2 by done. by apply IH.
Qed.

Lemma find_id_elem project_id (rows : list project) p :
  List.find (fun p => bool_decide (p_id p = project_id)) rows = Some p →
  p ∈ rows ∧ p_id p = project_id.
Proof.
  intros [Hin Hid]%List.find_some. split; [by apply list_elem_of_In|].
  by apply bool_decide_eq_true in Hid.
Qed.

Global Instance content_order_total : Total content_order.
Proof. intros a b. unfold content_order. lia. Qed.

Global Instance content_order_trans : Transitive content_order.
Proof. intros a b c. unfold content_order. lia. Qed.

Global Instance newer_first_total : Total newer_first.
Proof. intros a b. unfold newer_first. lia. Qed.

Global Instance newer_first_trans : Transitive newer_first.
Proof. intros a b c. unfold newer_first. lia. Qed.

End store_rows.

(** X1.  [create_project] followed by [get_project] returns the row that was
    written: the given name, type and settings (an empty dictionary when none
    are given), both timestamps at the time of the call, status active.  The
    new project is listed by [get_projects]; every other project, the content
    and the templates are as they were.  A project id that is already in the
    table is refused with an integrity error, and only then. *)
Theorem X1_create_project_round_trip (now : Z) (project_id name ty : string)
    (st : settings) (d : Store.db) :
  let row := {| Store.p_id := project_id; Store.p_name := name;
                Store.p_type := ty; Store.p_created_at := now;
                Store.p_updated_at := now;
                Store.p_settings := Store.KwSettings (default ∅ st);
                Store.p_status := "active" |} in
  (Store.create_project now project_id name ty st d = inr Store.IntegrityError
   ↔ ∃ p, p ∈ Store.projects d ∧ Store.p_id p = project_id)
  ∧ ∀ d', Store.create_project now project_id name ty st d = inl d' →
      Store.get_project project_id d = None
      ∧ Store.get_project project_id d' = Some row
      ∧ row ∈ Store.get_projects None d'
      ∧ (∀ other, other ≠ project_id →
           Store.get_project other d' = Store.get_project other d)
      ∧ Store.contents d' = Store.contents d
      ∧ Store.templates d' = Store.templates d.
Proof.
  intros row. unfold Store.create_project. split.
  - case_bool_decide as Hin; split; try done.
    + intros _. apply list_elem_of_fmap in Hin as (p & -> & Hp). eauto.
    + intros (p & Hp & Hid). destruct Hin. rewrite <-Hid.
      by apply list_elem_of_fmap_2.
  - intros d'. case_bool_decide as Hin; [done|]. intros [= <-].
    assert (Store.get_project project_id d = None) as Hnone
      by by apply find_id_None.
    unfold Store.get_project in *. simpl. split_and!; try done.
    + rewrite find_snoc, Hnone. simpl. by rewrite bool_decide_eq_true_2.
    + unfold Store.get_projects. rewrite merge_sort_Permutation.
      apply list_elem_of_filter. split; [done|].
      apply elem_of_app. right. apply list_elem_of_here.
    + intros other Hne. rewrite find_snoc.
      cbn [Store.p_id]. rewrite (bool_decide_eq_false_2 (project_id = other))
        by congruence.
      clear Hnone. by destruct (List.find _ (Store.projects d)).
Qed.

Lemma X1_create_project_round_trip_witness :
  ∃ d', Store.create_project 200 "p9" "Tale" "story" None sample_db = inl d'
        ∧ Store.p_name <$> Store.get_project "p9" d' = Some "Tale"
        ∧ Store.get_project "p1" d' = Some sample_project.
Proof.
  eexists. split; [reflexivity|].
  pose proof (proj2 (X1_create_project_round_trip 200 "p9" "Tale" "story" None
                       sample_db) _ eq_refl) as (_ & Hget & _ & Hother & _).
  split.
  - apply (f_equal (fmap Store.p_name)) in Hget. exact Hget.
  - assert ("p1" ≠ "p9") as Hne by discriminate.
    exact (Hother "p1" Hne).
Defined.

(** X2.  [get_project_content] returns exactly the content rows of the
    project, each as often as the table holds it, in ascending order of
    order index with ties in order of creation time. *)
Theorem X2_get_project_content_sorted (project_id : string) (d : Store.db) :
  let rows := Store.get_project_content project_id d in
  StronglySorted
    (fun a b =>
       Store.c_order_index a < Store.c_order_index b
       ∨ (Store.c_order_index a = Store.c_order_index b
          ∧ Store.c_created_at a ≤ Store.c_created_at b)) rows
  ∧ rows ≡ₚ filter (fun c => Store.c_project_id c = project_id)
                   (Store.contents d)
  ∧ (∀ c, c ∈ rows ↔ c ∈ Store.contents d ∧ Store.c_project_id c = project_id).
Proof.
  intros rows. unfold rows, Store.get_project_content. split_and!.
  - apply (StronglySorted_merge_sort Store.content_order).
  - apply merge_sort_Permutation.
  - intros c. rewrite merge_sort_Permutation, list_elem_of_filter. tauto.
Qed.

(** X3.  [add_content] raises [OverflowError] exactly when the order index
    is outside 64 bits, and otherwise an integrity error exactly when the
    content id is already in the table; in both cases nothing is written.
    Otherwise it appends one row: the content of the owning project becomes
    its former content plus the new item, still in the order of
    [get_project_content]; the content of every other project is unchanged,
    and no project row is touched. *)
Theorem X3_add_content_then_read (now : Z)
    (content_id project_id content_type : string)
    (text image_path audio_path : option string) (order_index : Z)
    (metadata : option (gmap string string)) (d : Store.db) :
  let item := {| Store.c_id := content_id; Store.c_project_id := project_id;
                 Store.c_type := content_type; Store.c_content_text := text;
                 Store.c_image_path := image_path;
                 Store.c_audio_path := audio_path;
                 Store.c_order_index := order_index;
                 Store.c_metadata := default ∅ metadata;
                 Store.c_created_at := now |} in
  let result := Store.add_content now content_id project_id content_type text
                  image_path audio_path order_index metadata d in
  (result = inr Store.OverflowError
   ↔ ¬ (- 2 ^ 63 ≤ order_index < 2 ^ 63))
  ∧ (result = inr Store.IntegrityError
     ↔ - 2 ^ 63 ≤ order_index < 2 ^ 63
       ∧ ∃ c, c ∈ Store.contents d ∧ Store.c_id c = content_id)
  ∧ ∀ d', result = inl d' →
      Store.get_project_content project_id d'
        ≡ₚ item :: Store.get_project_content project_id d
      ∧ StronglySorted Store.content_order
          (Store.get_project_content project_id d')
      ∧ item ∈ Store.get_project_content project_id d'
      ∧ (∀ other, other ≠ project_id →
           Store.get_project_content other d'
           = Store.get_project_content other d)
      ∧ Store.projects d' = Store.projects d
      ∧ Store.templates d' = Store.templates d.
Proof.
  intros item result. unfold result, Store.add_content.
  destruct (Store.fits_int64 order_index) eqn:Hfits; simpl.
  - apply fits_int64_true in Hfits. split_and!.
    + split; [by case_bool_decide | by intros []].
    + case_bool_decide as Hin; split; try done.
      * intros _. split; [done|].
        apply list_elem_of_fmap in Hin as (c & -> & Hc). eauto.
      * intros (_ & c & Hc & Hid). destruct Hin. rewrite <-Hid.
        by apply list_elem_of_fmap_2.
    + intros d'. case_bool_decide as Hin; [done|]. intros [= <-].
      fold item. unfold Store.get_project_content. simpl.
      assert (filter (fun c => Store.c_project_id c = project_id)
                     (Store.contents d ++ [item])
              = filter (fun c => Store.c_project_id c = project_id)
                       (Store.contents d) ++ [item]) as Hfilter.
      { rewrite filter_app. f_equal.
        by rewrite (filter_singleton_True _ item []). }
      split_and!; try done.
      * rewrite !merge_sort_Permutation, Hfilter.
        by rewrite <-Permutation_cons_append.
      * apply (StronglySorted_merge_sort Store.content_order).
      * rewrite merge_sort_Permutation, Hfilter.
        apply elem_of_app. right. apply list_elem_of_here.
      * intros other Hne. f_equal. rewrite filter_app.
        rewrite (filter_singleton_False _ item []); [by rewrite app_nil_r|].
        simpl. congruence.
  - apply fits_int64_false in Hfits. split_and!; [done| |done].
    split; [done | by intros [? _]].
Qed.

Lemma X3_add_content_then_read_witness :
  (∃ d', Store.add_content 200 "c9" "p1" "text" (Some "More") None None 2 None
           sample_db = inl d'
         ∧ Store.projects d' = Store.projects sample_db
         ∧ Store.get_project_content "p2" d'
           = Store.get_project_content "p2" sample_db)
  ∧ Store.add_content 200 "c9" "p1" "text" (Some "More") None None (2 ^ 63)
      None sample_db = inr Store.OverflowError.
Proof.
  split.
  - eexists. split; [reflexivity|].
    pose proof (proj2 (proj2 (X3_add_content_then_read 200 "c9" "p1" "text"
                                (Some "More") None None 2 None sample_db))
                      _ eq_refl)
      as (_ & _ & _ & Hother & Hprojects & _).
    split; [exact Hprojects|].
    assert ("p2" ≠ "p1") as Hne by discriminate.
    exact (Hother "p2" Hne).
  - apply (X3_add_content_then_read 200 "c9" "p1" "text" (Some "More") None
             None (2 ^ 63) None sample_db). lia.
Defined.

(** X4.  [get_projects] lists exactly the active projects, or the active
    projects of the requested type, most recently updated first; a filter
    that is [None] or the empty string selects every type. *)
Theorem X4_get_projects_listing (project_type : option string) (d : Store.db) :
  let listing := Store.get_projects project_type d in
  StronglySorted (fun p q => Store.p_updated_at q ≤ Store.p_updated_at p)
                 listing
  ∧ (∀ p, p ∈ listing ↔
          p ∈ Store.projects d
          ∧ Store.p_status p = "active"
          ∧ match project_type with
            | Some (String c rest) => Store.p_type p = String c rest
            | _ => True
            end)
  ∧ (length listing ≤ length (Store.projects d))%nat
  ∧ Store.get_projects (Some EmptyString) d = Store.get_projects None d.
Proof.
  intros listing. split_and!.
  - apply (StronglySorted_merge_sort Store.newer_first).
  - intros p. unfold listing, Store.get_projects.
    rewrite merge_sort_Permutation.
    destruct project_type as [[|c rest]|]; simpl;
      rewrite list_elem_of_filter; tauto.
  - unfold listing, Store.get_projects. rewrite merge_sort_Permutation.
    destruct project_type as [[|c rest]|]; simpl; apply length_filter.
  - done.
Qed.

(** X5.  A soft delete is an update of the status and can be undone by one:
    [update_project] with status deleted is [delete_project], and setting the
    status of a deleted project back to active returns the row with every
    column as before the delete except the update time, listed by
    [get_projects] again, with the content untouched throughout. *)
Theorem X5_soft_delete_can_be_undone (now1 now2 : Z) (project_id : string)
    (d : Store.db) (p : Store.project) :
  Store.get_project project_id d = Some p →
  Store.p_status p = "active" →
  let restored := {| Store.p_id := Store.p_id p; Store.p_name := Store.p_name p;
                     Store.p_type := Store.p_type p;
                     Store.p_created_at := Store.p_created_at p;
                     Store.p_updated_at := now2;
                     Store.p_settings := Store.p_settings p;
                     Store.p_status := Store.p_status p |} in
  Store.update_project now1 project_id [("status", Store.KwStr "deleted")] d
    = inl (Store.delete_project now1 project_id d)
  ∧ ∃ d2,
      Store.update_project now2 project_id [("status", Store.KwStr "active")]
        (Store.delete_project now1 project_id d) = inl d2
      ∧ Store.get_project project_id d2 = Some restored
      ∧ restored ∈ Store.get_projects None d2
      ∧ Store.contents d2 = Store.contents d.
Proof.
  intros Hp Hactive restored. split; [done|].
  eexists. split; [reflexivity|].
  match goal with
  | |- Store.get_project _ ?d2 = _ ∧ _ =>
      assert (Store.get_project project_id d2 = Some restored) as Hget
  end.
  { unfold Store.get_project at 1. cbn [Store.projects].
    rewrite find_update_where_id by done.
    fold (Store.get_project project_id
            (Store.delete_project now1 project_id d)).
    rewrite delete_project_get, Hp. simpl. unfold restored.
    by rewrite Hactive. }
  split_and!; [done| |done].
  apply find_id_elem in Hget as [Hin _].
  unfold Store.get_projects. rewrite merge_sort_Permutation.
  apply list_elem_of_filter. by split.
Qed.

Lemma X5_soft_delete_can_be_undone_witness :
  ∃ d2,
    Store.update_project 300 "p1" [("status", Store.KwStr "active")]
      (Store.delete_project 200 "p1" sample_db) = inl d2
    ∧ Store.get_project "p1" d2
      = Some {| Store.p_id := "p1"; Store.p_name := "A story";
                Store.p_type := "story"; Store.p_created_at := 100;
                Store.p_updated_at := 300;
                Store.p_settings := Store.KwSettings ∅;
                Store.p_status := "active" |}.
Proof.
  destruct (proj2 (X5_soft_delete_can_be_undone 200 300 "p1" sample_db
                     sample_project eq_refl eq_refl))
    as (d2 & Hd2 & Hget & _).
  exists d2. split; [exact Hd2 | exact Hget].
Defined.

Section store_updates.

Import Store.

Lemma update_where_id_fmap {B} (g : project → B) project_id
    (f : project → project) (rows : list project) :
  (∀ p, g (f p) = g p) →
  g <$> update_where_id project_id f rows = g <$> rows.
Proof.
  intros Hg. unfold update_where_id. rewrite <-list_fmap_compose.
  apply list_fmap_ext. intros i p _. simpl. by case_decide.
Qed.

Lemma fold_assign_created_at fields p :
  p_created_at (fold_left (fun p a => assign a p) fields p) = p_created_at p.
Proof.
  revert p. induction fields as [|a fields IH]; intros p; [done|].
  simpl. rewrite IH. by destruct a.
Qed.

End store_updates.

(** X6.  [update_project], when it returns, never changes a project's id
    or creation time, never adds or removes a row, and leaves every other
    project, the content and the templates as they were.  Keys it does not
    recognise change nothing about what it does, whatever their values.  The
    value passed as [settings] is stored and read back as it is, a string
    as well as a dictionary, and the row is stamped. *)
Theorem X6_update_project_frame (now : Z) (project_id : string)
    (kwargs : list (string * Store.kwarg)) (d : Store.db) :
  (∀ d', Store.update_project now project_id kwargs d = inl d' →
     Store.p_id <$> Store.projects d' = Store.p_id <$> Store.projects d
     ∧ Store.p_created_at <$> Store.projects d'
       = Store.p_created_at <$> Store.projects d
     ∧ Store.contents d' = Store.contents d
     ∧ Store.templates d' = Store.templates d
     ∧ (∀ other, other ≠ project_id →
          Store.get_project other d' = Store.get_project other d))
  ∧ (∀ unrecognised,
       (∀ kv, kv ∈ unrecognised → kv.1 ∉ Store.project_keys) →
       Store.update_project now project_id (kwargs ++ unrecognised) d
       = Store.update_project now project_id kwargs d)
  ∧ (∀ value p, Store.get_project project_id d = Some p →
       ∃ d', Store.update_project now project_id [("settings", value)] d
             = inl d'
             ∧ Store.get_project project_id d'
               = Some {| Store.p_id := Store.p_id p;
                         Store.p_name := Store.p_name p;
                         Store.p_type := Store.p_type p;
                         Store.p_created_at := Store.p_created_at p;
                         Store.p_updated_at := now;
                         Store.p_settings := value;
                         Store.p_status := Store.p_status p |}).
Proof.
  split_and!.
  - intros d' Hd'.
    destruct (omap Store.assignment_of kwargs) as [|a fields] eqn:E.
    { unfold Store.update_project in Hd'. rewrite E in Hd'. by simplify_eq. }
    destruct (update_project_written now project_id kwargs d d')
      as (l & _ & ->); [by rewrite E | done |].
    simpl. split_and!; try done.
    + apply update_where_id_fmap. intros p. simpl.
      by rewrite fold_assign_id.
    + apply update_where_id_fmap. intros p. simpl.
      by rewrite fold_assign_created_at.
    + intros other Hne. unfold Store.get_project. simpl.
      apply find_update_where_id_other; [done|].
      intros p. simpl. by rewrite fold_assign_id.
  - intros extra Hextra. unfold Store.update_project.
    by rewrite omap_app, (proj2 (omap_assignment_of_nil extra) Hextra),
      app_nil_r.
  - intros value p Hp. eexists. split; [reflexivity|].
    unfold Store.get_project. cbn [Store.projects].
    rewrite find_update_where_id by done.
    fold (Store.get_project project_id d). by rewrite Hp.
Qed.

Lemma X6_update_project_frame_witness :
  Store.update_project 200 "p1"
    ([("name", Store.KwStr "Renamed")] ++ [("colour", Store.KwSettings ∅)])
    sample_db
  = Store.update_project 200 "p1" [("name", Store.KwStr "Renamed")] sample_db
  ∧ ∃ d', Store.update_project 200 "p1" [("settings", Store.KwStr "dark")]
            sample_db = inl d'
          ∧ Store.p_settings <$> Store.get_project "p1" d'
            = Some (Store.KwStr "dark").
Proof.
  pose proof (X6_update_project_frame 200 "p1"
                [("name", Store.KwStr "Renamed")] sample_db)
    as (_ & Hignored & _).
  pose proof (X6_update_project_frame 200 "p1" [] sample_db)
    as (_ & _ & Hsettings).
  split.
  - apply Hignored. intros kv ->%list_elem_of_singleton.
    by apply (bool_decide_unpack _).
  - destruct (Hsettings (Store.KwStr "dark") sample_project eq_refl)
      as (d' & Hd' & Hget).
    exists d'. split; [exact Hd'|]. by rewrite Hget.
Defined.

(** X7.  [delete_content] removes the rows with the given id and nothing
    else: every other content row stays, in order, and no project or
    template changes.  Deleting an id that is not in the table changes
    nothing, and deleting an item right after adding it gives back the
    database as it was. *)
Theorem X7_delete_content_exact (content_id : string) (d : Store.db) :
  let d' := Store.delete_content content_id d in
  (∀ c, c ∈ Store.contents d' ↔
        c ∈ Store.contents d ∧ Store.c_id c ≠ content_id)
  ∧ Store.projects d' = Store.projects d
  ∧ Store.templates d' = Store.templates d
  ∧ (content_id ∉ Store.c_id <$> Store.contents d → d' = d)
  ∧ (∀ now project_id content_type text image_path audio_path order_index
       metadata d1,
       Store.add_content now content_id project_id content_type text
         image_path audio_path order_index metadata d = inl d1 →
       Store.delete_content content_id d1 = d).
Proof.
  intros d'.
  assert (content_id ∉ Store.c_id <$> Store.contents d →
          filter (fun c => Store.c_id c ≠ content_id) (Store.contents d)
          = Store.contents d) as Hkeep.
  { intros Hnot. induction (Store.contents d) as [|c rows IH]; [done|].
    rewrite fmap_cons, not_elem_of_cons in Hnot. destruct Hnot as [Hc Hrows].
    rewrite filter_cons_True by congruence. by rewrite IH. }
  split_and!; try done.
  - intros c. unfold d', Store.delete_content. simpl.
    rewrite list_elem_of_filter. tauto.
  - intros Hnot. unfold d', Store.delete_content. rewrite Hkeep by done.
    by destruct d.
  - intros ????????? Hadd. unfold Store.add_content in Hadd.
    destruct (Store.fits_int64 _); simpl in Hadd; [|done].
    case_bool_decide as Hin; [done|]. simplify_eq.
    unfold Store.delete_content. simpl.
    rewrite filter_app, Hkeep by done.
    rewrite filter_cons_False by (simpl; tauto).
    rewrite filter_nil, app_nil_r. by destruct d.
Qed.

Lemma X7_delete_content_exact_witness :
  Store.delete_content "c7" sample_db = sample_db
  ∧ Store.c_id <$> Store.contents (Store.delete_content "c1" sample_db)
    = ["c2"].
Proof.
  split; [|by vm_compute].
  apply (X7_delete_content_exact "c7" sample_db).
  by apply (bool_decide_unpack _).
Defined.

Section store_content_updates.

Import Store.

Lemma content_assignment_of_None key value :
  content_assignment_of (key, value) = None ↔ key ∉ content_keys.
Proof.
  unfold content_assignment_of, content_keys.
  case_bool_decide as Htext.
  - split; [done|]. intros Hnot. destruct Hnot.
    apply elem_of_cons in Htext as [->|Htext]; [set_solver|].
    apply elem_of_cons in Htext as [->|Htext]; [set_solver|].
    apply elem_of_cons in Htext as [->|Htext]; [set_solver|].
    by apply elem_of_nil in Htext.
  - case_bool_decide as Hindex.
    { split; [done|]. intros Hnot. destruct Hnot. subst key. set_solver. }
    case_bool_decide as Hmeta.
    { split; [done|]. intros Hnot. destruct Hnot. subst key. set_solver. }
    split; [|done]. intros _ Hin.
    apply elem_of_cons in Hin as [->|Hin]; [destruct Htext; set_solver|].
    apply elem_of_cons in Hin as [->|Hin]; [destruct Htext; set_solver|].
    apply elem_of_cons in Hin as [->|Hin]; [destruct Htext; set_solver|].
    apply elem_of_cons in Hin as [->|Hin]; [done|].
    apply elem_of_cons in Hin as [->|Hin]; [done|].
    by apply elem_of_nil in Hin.
Qed.

Lemma omap_content_assignment_of_nil
    (kwargs : list (string * content_kwarg)) :
  omap content_assignment_of kwargs = [] ↔
  ∀ kv, kv ∈ kwargs → kv.1 ∉ content_keys.
Proof.
  induction kwargs as [|[key value] kwargs IH].
  - split; [by intros _ kv ?%elem_of_nil | done].
  - cbn [omap list_omap].
    destruct (content_assignment_of (key, value)) as [field|] eqn:E.
    + split; [done|]. intros Hall.
      assert (key ∉ content_keys) as Hkey
        by apply (Hall (key, value)), list_elem_of_here.
      apply content_assignment_of_None with (value := value) in Hkey.
      congruence.
    + rewrite IH. apply content_assignment_of_None in E. split.
      * intros Hall kv [->|Hin]%elem_of_cons; [done | by apply Hall].
      * intros Hall kv Hin. by apply Hall, list_elem_of_further.
Qed.

Lemma first_raise_Some (fields : list bound) :
  (∃ e, first_raise fields = Some e) ↔ ∃ e, BindRaises e ∈ fields.
Proof.
  induction fields as [|b fields IH].
  - split; [by intros [? ?] | by intros [? ?%elem_of_nil]].
  - destruct b as [a|e|]; cbn [first_raise].
    + rewrite IH. split; intros [e He]; exists e;
        [by apply list_elem_of_further
        | by apply elem_of_cons in He as [?|?]].
    + split; [|by eauto]. intros _. exists e. apply list_elem_of_here.
    + rewrite IH. split; intros [e He]; exists e;
        [by apply list_elem_of_further
        | by apply elem_of_cons in He as [?|?]].
Qed.

(** Which values cannot be bound: a dictionary, or an integer outside 64
    bits, for one of the four columns whose value is bound as it is. *)
Lemma content_assignment_of_raises key value :
  (∃ e, content_assignment_of (key, value) = Some (BindRaises e)) ↔
  key ∈ ["content_text"; "image_path"; "audio_path"; "order_index"]
  ∧ ((∃ m, value = CkMetadata m)
     ∨ (∃ n, value = CkInt n ∧ ¬ (- 2 ^ 63 ≤ n < 2 ^ 63))).
Proof.
  unfold content_assignment_of, text_column, integer_column.
  assert (∀ n, fits_int64 n = false ↔ ¬ (- 2 ^ 63 ≤ n < 2 ^ 63)) as Hfits
    by apply fits_int64_false.
  case_bool_decide as Htext.
  - assert (key ∈ ["content_text"; "image_path"; "audio_path"; "order_index"])
      as Hkey by set_solver.
    destruct value as [t|n|m].
    + split; [by intros [? ?] | by intros [_ [[? ?]|(? & ? & _)]]].
    + destruct (fits_int64 n) eqn:E.
      * split; [by intros [? ?]|]. intros [_ [[? ?]|(n' & [= <-] & Hn)]];
          [done|]. apply Hfits in Hn. congruence.
      * split; [|by eauto]. intros _. split; [done|]. right.
        exists n. split; [done|]. by apply Hfits.
    + split; [|by eauto]. intros _. split; [done|]. left. by eexists.
  - case_bool_decide as Hindex.
    + subst key. destruct value as [t|n|m].
      * split; [by intros [? ?] | by intros [_ [[? ?]|(? & ? & _)]]].
      * destruct (fits_int64 n) eqn:E.
        -- split; [by intros [? ?]|]. intros [_ [[? ?]|(n' & [= <-] & Hn)]];
             [done|]. apply Hfits in Hn. congruence.
        -- split; [|by eauto]. intros _. split; [set_solver|]. right.
           exists n. split; [done|]. by apply Hfits.
      * split; [|by eauto]. intros _. split; [set_solver|]. left. by eexists.
    + assert (key ∉ ["content_text"; "image_path"; "audio_path";
                     "order_index"]) as Hkey by set_solver.
      case_bool_decide.
      * split; [by intros [? ?]; destruct value | by intros [? _]].
      * split; [by intros [? ?] | by intros [? _]].
Qed.

Lemma fold_assign_content {B} (g : content → B) fields c :
  (∀ a c, g (assign_content a c) = g c) →
  g (fold_left (fun c a => assign_content a c) fields c) = g c.
Proof.
  intros Hg. revert c. induction fields as [|a fields IH]; intros c; [done|].
  simpl. by rewrite IH, Hg.
Qed.

Lemma update_content_written content_id kwargs d d' :
  omap content_assignment_of kwargs ≠ [] →
  update_content content_id kwargs d = Written d' →
  ∃ assignments,
    d' = {| projects := projects d;
            contents :=
              (fun c => if decide (c_id c = content_id)
                        then fold_left (fun c a => assign_content a c)
                                       assignments c
                        else c) <$> contents d;
            templates := templates d |}.
Proof.
  intros Hf. unfold update_content.
  destruct (omap content_assignment_of kwargs) as [|a fields]; [done|].
  destruct (first_raise (a :: fields)); [done|].
  destruct (all_bound (a :: fields)) as [l|]; [|done].
  intros [= <-]. by exists l.
Qed.

End store_content_updates.

(** X8.  [update_content], when it returns, rewrites only the text, paths,
    order index and metadata of the rows with the given id: no row changes
    its id, its project, its type or its creation time, no row is added or
    removed, rows with another id are untouched and no project is stamped.
    Keys it does not recognise are ignored whatever their values, and
    without a recognised key nothing is written.  It raises, and then writes
    nothing, exactly when the value of [content_text], [image_path],
    [audio_path] or [order_index] is a dictionary or an integer outside 64
    bits.  An integer passed for a text column is stored as its decimal
    text.  (Values being strings, [None], integers and dictionaries; text
    or [None] for the order index, and metadata that is not a dictionary,
    are stored by the code in a form the row record does not hold.) *)
Theorem X8_update_content_frame (content_id : string)
    (kwargs : list (string * Store.content_kwarg)) (d : Store.db) :
  (∀ d', Store.update_content content_id kwargs d = Store.Written d' →
     Store.c_id <$> Store.contents d' = Store.c_id <$> Store.contents d
     ∧ Store.c_project_id <$> Store.contents d'
       = Store.c_project_id <$> Store.contents d
     ∧ Store.c_type <$> Store.contents d' = Store.c_type <$> Store.contents d
     ∧ Store.c_created_at <$> Store.contents d'
       = Store.c_created_at <$> Store.contents d
     ∧ (∀ i c, Store.contents d !! i = Some c → Store.c_id c ≠ content_id →
               Store.contents d' !! i = Some c)
     ∧ Store.projects d' = Store.projects d
     ∧ Store.templates d' = Store.templates d)
  ∧ ((∀ kv, kv ∈ kwargs → kv.1 ∉ Store.content_keys) →
     Store.update_content content_id kwargs d = Store.Written d)
  ∧ (∀ unrecognised,
       (∀ kv, kv ∈ unrecognised → kv.1 ∉ Store.content_keys) →
       Store.update_content content_id (kwargs ++ unrecognised) d
       = Store.update_content content_id kwargs d)
  ∧ ((∃ e, Store.update_content content_id kwargs d = Store.Raises e) ↔
     ∃ key value,
       (key, value) ∈ kwargs
       ∧ key ∈ ["content_text"; "image_path"; "audio_path"; "order_index"]
       ∧ ((∃ m, value = Store.CkMetadata m)
          ∨ (∃ n, value = Store.CkInt n ∧ ¬ (- 2 ^ 63 ≤ n < 2 ^ 63))))
  ∧ (∀ n i c,
       - 2 ^ 63 ≤ n < 2 ^ 63 →
       Store.contents d !! i = Some c → Store.c_id c = content_id →
       ∃ d', Store.update_content content_id
               [("content_text", Store.CkInt n)] d = Store.Written d'
             ∧ Store.c_content_text <$> Store.contents d' !! i
               = Some (Some (PyStr.str_int n))).
Proof.
  split_and!.
  - intros d' Hd'.
    destruct (omap Store.content_assignment_of kwargs) as [|a fields] eqn:E.
    { unfold Store.update_content in Hd'. rewrite E in Hd'.
      by simplify_eq. }
    destruct (update_content_written content_id kwargs d d')
      as (l & ->); [by rewrite E | done |].
    assert (∀ {B} (g : Store.content → B),
              (∀ a c, g (Store.assign_content a c) = g c) →
              g <$> ((fun c => if decide (Store.c_id c = content_id)
                               then fold_left
                                      (fun c a => Store.assign_content a c)
                                      l c
                               else c) <$> Store.contents d)
              = g <$> Store.contents d) as Hmap.
    { intros B g Hg. rewrite <-list_fmap_compose. apply list_fmap_ext.
      intros i c _. simpl. case_decide; [|done].
      by apply fold_assign_content. }
    simpl. split_and!; try done.
    + apply Hmap. by intros [] ?.
    + apply Hmap. by intros [] ?.
    + apply Hmap. by intros [] ?.
    + apply Hmap. by intros [] ?.
    + intros i c Hi Hne. rewrite list_lookup_fmap, Hi. simpl.
      by rewrite decide_False.
  - intros Hnone. unfold Store.update_content.
    by rewrite (proj2 (omap_content_assignment_of_nil kwargs) Hnone).
  - intros extra Hextra. unfold Store.update_content.
    by rewrite omap_app,
      (proj2 (omap_content_assignment_of_nil extra) Hextra), app_nil_r.
  - unfold Store.update_content.
    assert ((∃ e, Store.first_raise
                    (omap Store.content_assignment_of kwargs) = Some e) ↔
            ∃ key value,
              (key, value) ∈ kwargs
              ∧ key ∈ ["content_text"; "image_path"; "audio_path";
                       "order_index"]
              ∧ ((∃ m, value = Store.CkMetadata m)
                 ∨ (∃ n, value = Store.CkInt n
                         ∧ ¬ (- 2 ^ 63 ≤ n < 2 ^ 63)))) as Hraise.
    { rewrite first_raise_Some. split.
      - intros (e & ([key value] & Hin & He)%list_elem_of_omap).
        exists key, value. split; [done|].
        apply content_assignment_of_raises. by exists e.
      - intros (key & value & Hin & Hbad).
        apply content_assignment_of_raises in Hbad as [e He].
        exists e. apply list_elem_of_omap. by exists (key, value). }
    rewrite <-Hraise.
    destruct (omap Store.content_assignment_of kwargs) as [|a fields];
      [split; by intros [? ?]|].
    destruct (Store.first_raise (a :: fields)) as [e|].
    + split; intros _; by eexists.
    + split; [|by intros [? ?]].
      intros [e He]. by destruct (Store.all_bound (a :: fields)).
  - intros n i c Hn Hi Hid.
    unfold Store.update_content. cbn [omap list_omap].
    unfold Store.content_assignment_of, Store.text_column.
    rewrite bool_decide_eq_true_2 by set_solver.
    rewrite (proj2 (fits_int64_true n) Hn).
    cbn [Store.first_raise Store.all_bound fmap option_fmap option_map].
    eexists. split; [reflexivity|].
    cbn [Store.contents]. rewrite !list_lookup_fmap, Hi. simpl.
    by rewrite decide_True.
Qed.

Lemma X8_update_content_frame_witness :
  (∃ d', Store.update_content "c1" [("order_index", Store.CkInt 30)] sample_db
         = Store.Written d'
         ∧ Store.contents d' !! 1%nat = Some scenario_image)
  ∧ Store.update_content "c1" [("colour", Store.CkStr None)] sample_db
    = Store.Written sample_db
  ∧ (∃ d', Store.update_content "c1" [("content_text", Store.CkInt 5)]
             sample_db = Store.Written d'
           ∧ Store.c_content_text <$> Store.contents d' !! 0%nat
             = Some (Some "5")).
Proof.
  pose proof (X8_update_content_frame "c1" [("order_index", Store.CkInt 30)]
                sample_db) as (Hframe & _).
  pose proof (X8_update_content_frame "c1" [("colour", Store.CkStr None)]
                sample_db) as (_ & Hnone & _).
  pose proof (X8_update_content_frame "c1" [] sample_db)
    as (_ & _ & _ & _ & Htext).
  split_and!.
  - eexists. split; [reflexivity|].
    destruct (Hframe _ eq_refl) as (_ & _ & _ & _ & Hother & _).
    apply (Hother 1%nat scenario_image eq_refl). discriminate.
  - apply Hnone. intros kv ->%list_elem_of_singleton.
    by apply (bool_decide_unpack _).
  - assert (- 2 ^ 63 ≤ 5 < 2 ^ 63) as Hn by lia.
    destruct (Htext 5 0%nat scenario_text Hn eq_refl eq_refl)
      as (d' & Hd' & Hread).
    exists d'. split; [exact Hd' | exact Hread].
Defined.

Section store_statistics.

Import Store.

Lemma sum_values_insert (counts : gmap string nat) (k : string) (n : nat) :
  (sum_values (<[k:=n]> counts) + default 0 (counts !! k)
   = n + sum_values counts)%nat.
Proof.
  unfold sum_values.
  destruct (counts !! k) as [v|] eqn:E; simpl.
  - rewrite <-(insert_delete_eq counts k n).
    rewrite map_fold_insert_L; [|intros; lia|by rewrite lookup_delete_eq].
    rewrite (map_fold_delete_L _ _ k v counts); [lia|intros; lia|done].
  - rewrite map_fold_insert_L; [lia|intros; lia|done].
Qed.

Lemma count_by_type_snoc {A} (type_of : A → string) (rows : list A) (x : A) :
  count_by_type type_of (rows ++ [x]) =
  <[type_of x := S (default 0%nat (count_by_type type_of rows !! type_of x))]>
    (count_by_type type_of rows).
Proof. unfold count_by_type. by rewrite fold_left_app. Qed.

(** The values of a count dictionary add up to the number of rows counted. *)
Lemma sum_values_count_by_type {A} (type_of : A → string) (rows : list A) :
  sum_values (count_by_type type_of rows) = length rows.
Proof.
  induction rows as [|x rows IH] using rev_ind; [done|].
  rewrite count_by_type_snoc, length_app. simpl.
  pose proof (sum_values_insert (count_by_type type_of rows) (type_of x)
                (S (default 0%nat (count_by_type type_of rows !! type_of x)))).
  lia.
Qed.

(** A type is a key exactly when a row has it, and its value is the number
    of such rows. *)
Lemma count_by_type_lookup {A} (type_of : A → string) (rows : list A)
    (ty : string) :
  count_by_type type_of rows !! ty =
  match length (filter (fun row => type_of row = ty) rows) with
  | O => None
  | n => Some n
  end.
Proof.
  induction rows as [|x rows IH] using rev_ind; [done|].
  rewrite count_by_type_snoc, filter_app, length_app,
    (filter_singleton _ x []).
  destruct (decide (type_of x = ty)) as [->|Hne].
  - rewrite lookup_insert_eq, IH. simpl.
    destruct (length (filter _ rows)) as [|n] eqn:E; simpl; [done|].
    f_equal. lia.
  - rewrite lookup_insert_ne, IH by done. simpl. by rewrite Nat.add_0_r.
Qed.

End store_statistics.

(** X9.  The figures of [get_statistics] agree with each other and with the
    tables: the total number of projects is the number of active projects,
    which [get_projects] lists; the per-type figures of the content add up
    to the number of content rows; the figure of a type is the number of its
    rows, and a type without rows has no entry rather than a zero. *)
Theorem X9_statistics_consistent (d : Store.db) :
  let stats := Store.get_statistics d in
  Store.total_projects stats = length (Store.get_projects None d)
  ∧ Store.sum_values (Store.content_by_type stats) = Store.total_content stats
  ∧ Store.total_content stats = length (Store.contents d)
  ∧ (∀ ty, default 0%nat (Store.content_by_type stats !! ty)
           = length (filter (fun c => Store.c_type c = ty) (Store.contents d)))
  ∧ (∀ ty, Store.content_by_type stats !! ty ≠ Some 0%nat)
  ∧ (∀ ty, ty ≠ EmptyString →
           default 0%nat (Store.projects_by_type stats !! ty)
           = length (Store.get_projects (Some ty) d)).
Proof.
  intros stats. unfold stats, Store.get_statistics. simpl. split_and!.
  - rewrite sum_values_count_by_type. unfold Store.get_projects.
    by rewrite merge_sort_Permutation.
  - apply sum_values_count_by_type.
  - done.
  - intros ty. rewrite count_by_type_lookup.
    by destruct (length (filter _ (Store.contents d))).
  - intros ty. rewrite count_by_type_lookup.
    by destruct (length (filter _ (Store.contents d))).
  - intros ty Hty. rewrite count_by_type_lookup.
    unfold Store.get_projects. destruct ty as [|c rest]; [done|]. simpl.
    rewrite merge_sort_Permutation, list_filter_filter.
    by destruct (length (filter _ (Store.projects d))).
Qed.

Lemma X9_statistics_consistent_witness :
  default 0%nat (Store.projects_by_type (Store.get_statistics sample_db)
                   !! "story")
  = length (Store.get_projects (Some "story") sample_db).
Proof.
  apply (X9_statistics_consistent sample_db). discriminate.
Defined.

Section store_templates.

Import Store.

Lemma find_app_list {A} (f : A → bool) (l1 l2 : list A) :
  List.find f (l1 ++ l2) =
  match List.find f l1 with
  | Some y => Some y
  | None => List.find f l2
  end.
Proof. induction l1 as [|a l1 IH]; simpl; [done|]. by destruct (f a). Qed.

Lemma find_filter_implied {A} (f : A → bool) (P : A → Prop)
    `{∀ a, Decision (P a)} (l : list A) :
  (∀ a, f a = true → P a) → List.find f (filter P l) = List.find f l.
Proof.
  intros Himp. induction l as [|a l IH]; [done|].
  rewrite filter_cons. simpl. destruct (f a) eqn:E.
  - rewrite decide_True by auto. simpl. by rewrite E.
  - case_decide; simpl; by rewrite ?E, IH.
Qed.

Lemma find_filter_excluded {A} (f : A → bool) (P : A → Prop)
    `{∀ a, Decision (P a)} (l : list A) :
  (∀ a, f a = true → ¬ P a) → List.find f (filter P l) = None.
Proof.
  intros Himp. induction l as [|a l IH]; [done|].
  rewrite filter_cons. case_decide as HP; [|done]. simpl.
  destruct (f a) eqn:E; [|done]. by destruct (Himp a E).
Qed.

(** What the three upserts leave in the table: the rows with other ids, in
    their order, then the three default rows. *)
Lemma upsert_defaults_rows now (rows : list template) :
  fold_left (fun rows t => insert_or_replace t rows)
            (default_templates now) rows =
  filter (fun r => t_id r ∉ default_template_ids) rows
  ++ default_templates now.
Proof.
  unfold default_templates, insert_or_replace.
  simpl. rewrite !filter_app, !list_filter_filter.
  rewrite !(filter_singleton_True _ _ []) by done.
  rewrite <-!(assoc_L (++)). simpl. f_equal.
  apply list_filter_iff. intros r. unfold default_template_ids.
  rewrite !not_elem_of_cons. pose proof (not_elem_of_nil (t_id r)). tauto.
Qed.

Lemma insert_default_templates_rows now d :
  templates (insert_default_templates now d) =
  filter (fun r => t_id r ∉ default_template_ids) (templates d)
  ++ default_templates now.
Proof. apply upsert_defaults_rows. Qed.

Lemma get_template_seeded now d t :
  t ∈ default_templates now →
  get_template (t_id t) (insert_default_templates now d) = Some t.
Proof.
  intros Ht. unfold get_template.
  rewrite insert_default_templates_rows, find_app_list.
  rewrite find_filter_excluded.
  - unfold default_templates in *.
    repeat (apply elem_of_cons in Ht as [->|Ht]; [reflexivity|]).
    by apply elem_of_nil in Ht.
  - intros r Hr%bool_decide_eq_true Hnot. apply Hnot. rewrite Hr.
    unfold default_templates, default_template_ids in *.
    repeat (apply elem_of_cons in Ht as [->|Ht]; [simpl; set_solver|]).
    by apply elem_of_nil in Ht.
Qed.

End store_templates.

(** X10.  Opening the store reseeds the three default templates: whatever
    rows carried their ids before, [get_template] afterwards returns the
    default row for each of the three ids; templates with other ids are
    found as before; projects and content are untouched; and opening the
    store again at the same time changes nothing more. *)
Theorem X10_default_templates_reseeded (now : Z) (d : Store.db) :
  let d' := Store.init_database now d in
  (∀ t, t ∈ Store.default_templates now →
        Store.get_template (Store.t_id t) d' = Some t)
  ∧ (∀ template_id, template_id ∉ Store.default_template_ids →
       Store.get_template template_id d' = Store.get_template template_id d)
  ∧ Store.projects d' = Store.projects d
  ∧ Store.contents d' = Store.contents d
  ∧ Store.init_database now d' = d'.
Proof.
  intros d'. unfold d', Store.init_database. split_and!; try done.
  - intros t Ht. by apply get_template_seeded.
  - intros template_id Hid. unfold Store.get_template.
    rewrite insert_default_templates_rows, find_app_list.
    rewrite find_filter_implied.
    + destruct (List.find _ (Store.templates d)); [done|].
      unfold Store.default_template_ids in Hid.
      rewrite !not_elem_of_cons in Hid. destruct Hid as (H1 & H2 & H3 & _).
      simpl. by rewrite !bool_decide_eq_false_2 by congruence.
    + intros r Hr%bool_decide_eq_true. by rewrite Hr.
  - unfold Store.insert_default_templates.
    cbn [Store.projects Store.contents Store.templates]. f_equal.
    rewrite !upsert_defaults_rows.
    rewrite filter_app, list_filter_filter.
    assert (filter (fun r => Store.t_id r ∉ Store.default_template_ids)
                   (Store.default_templates now) = []) as ->.
    { apply elem_of_nil_inv. intros r [Hnot Hr]%list_elem_of_filter.
      apply Hnot. unfold Store.default_templates in Hr.
      unfold Store.default_template_ids.
      repeat (apply elem_of_cons in Hr as [->|Hr]; [simpl; set_solver|]).
      by apply elem_of_nil in Hr. }
    rewrite app_nil_r. f_equal. apply list_filter_iff. tauto.
Qed.

Lemma X10_default_templates_reseeded_witness :
  Store.get_template "my_template" (Store.init_database 5 Store.empty_db)
  = Store.get_template "my_template" Store.empty_db
  ∧ Store.init_database 5 (Store.init_database 5 Store.empty_db)
    = Store.init_database 5 Store.empty_db.
Proof.
  pose proof (X10_default_templates_reseeded 5 Store.empty_db)
    as (_ & Hother & _ & _ & Hagain).
  split; [|exact Hagain].
  apply Hother. by apply (bool_decide_unpack _).
Defined.

(** * Further properties of template filling *)

(** X11.  Filling reads the template from the left and stops at the first
    placeholder the map lacks: the missing-variable error names that
    placeholder whatever text follows it, well-formed or not.  When the
    placeholders of a well-formed prefix are all present, the result is the
    result of filling the rest, with the substituted prefix in front. *)
Theorem X11_first_missing_placeholder_wins (vars : gmap string string)
    (toks : list token) (rest : string) :
  forallb valid_token toks = true →
  (∀ name, first_missing vars toks = Some name →
     fill_template (render toks +:+ rest) vars
     = Some (None, Some ("Template variable missing: " +:+
                         PyFormat.repr name)))
  ∧ (first_missing vars toks = None →
     ∀ latex, fill_template rest vars = Some (Some latex, None) →
       fill_template (render toks +:+ rest) vars
       = Some (Some (substituted vars toks +:+ latex), None)).
Proof.
  intros Hvalid. split.
  - intros name Hmiss. unfold fill_template, PyFormat.format.
    by rewrite format_go_render_then, Hmiss.
  - intros Hnone latex Hrest. unfold fill_template, PyFormat.format in *.
    rewrite format_go_render_then, Hnone by done.
    rewrite rev_app_spec.
    rewrite <-(app_empty_l (String.rev (substituted vars toks) +:+ _)).
    rewrite format_go_out, app_empty_r, rev_involutive_str.
    destruct (PyFormat.format_go vars PyFormat.Literal EmptyString rest)
      as [r|[]|]; by simplify_eq.
Qed.

Lemma X11_first_missing_placeholder_wins_witness :
  fill_template "{title} by {writer} }{" sample_vars
  = Some (None, Some "Template variable missing: 'writer'").
Proof.
  exact (proj1 (X11_first_missing_placeholder_wins sample_vars
                  [TPlaceholder "title"; TChar " "; TChar "b"; TChar "y";
                   TChar " "; TPlaceholder "writer"]%char " }{" eq_refl)
               "writer" eq_refl).
Defined.

Section seeded_templates.

Lemma seeded_template_fails (vars : gmap string string)
    (template opening name : string) :
  PyFormat.mem_char "{"%char opening = false →
  PyFormat.mem_char "}"%char opening = false →
  plain_name name = true →
  vars !! name = None →
  (∃ rest, template = render (literal_tokens opening ++ [TPlaceholder name])
                      +:+ rest) →
  fill_template template vars
  = Some (None, Some ("Template variable missing: " +:+ PyFormat.repr name)).
Proof.
  intros Ho Hc Hname Hnone [rest ->].
  unfold fill_template, PyFormat.format.
  rewrite format_go_render_then.
  - assert (first_missing vars (literal_tokens opening ++ [TPlaceholder name])
            = Some name) as ->; [|done].
    clear Ho Hc. induction opening as [|c opening IH]; simpl; [|done].
    by rewrite Hnone.
  - rewrite forallb_app, literal_tokens_valid by done. simpl.
    by rewrite Hname.
Qed.

End seeded_templates.

(** X12.  None of the three default templates can be filled.  Each opens
    with a LaTeX group in single braces ([{book}], [{article}],
    [{report}]), which [str.format] reads as a placeholder; so for a project
    that exists and any settings, [generate_latex_from_project] on a freshly
    opened store returns no LaTeX but the missing-variable error for that
    name. *)
Theorem X12_default_templates_do_not_fill (path_exists : string → bool)
    (today : string) (now : Z) (d : Store.db) (project_id : string)
    (cs : gmap string pyval) (project : Store.project) :
  Store.get_project project_id d = Some project →
  let d' := Store.init_database now d in
  generate_latex_from_project path_exists today d' project_id
    "children_storybook" (Some cs)
  = Returns (None, Some "Template variable missing: 'book'")
  ∧ generate_latex_from_project path_exists today d' project_id
      "comic_book" (Some cs)
    = Returns (None, Some "Template variable missing: 'article'")
  ∧ generate_latex_from_project path_exists today d' project_id
      "educational_book" (Some cs)
    = Returns (None, Some "Template variable missing: 'report'")
  ∧ (∀ vars, vars !! "book" = None →
       fill_template Store.children_storybook_template vars
       = Some (None, Some "Template variable missing: 'book'")).
Proof.
  intros Hp d'.
  assert (∀ vars, vars !! "book" = None →
            fill_template Store.children_storybook_template vars
            = Some (None, Some "Template variable missing: 'book'")) as Hbook.
  { intros vars Hv.
    apply (seeded_template_fails vars _ "\documentclass[a4paper,12pt]" "book");
      try done.
    exists (String.substring 34
              (String.length Store.children_storybook_template - 34)
              Store.children_storybook_template).
    by vm_compute. }
  assert (∀ vars, vars !! "article" = None →
            fill_template Store.comic_book_template vars
            = Some (None, Some "Template variable missing: 'article'"))
    as Harticle.
  { intros vars Hv.
    apply (seeded_template_fails vars _ "\documentclass[a4paper]" "article");
      try done.
    exists (String.substring 32
              (String.length Store.comic_book_template - 32)
              Store.comic_book_template).
    by vm_compute. }
  assert (∀ vars, vars !! "report" = None →
            fill_template Store.educational_book_template vars
            = Some (None, Some "Template variable missing: 'report'"))
    as Hreport.
  { intros vars Hv.
    apply (seeded_template_fails vars _ "\documentclass[a4paper,11pt]" "report");
      try done.
    exists (String.substring 36
              (String.length Store.educational_book_template - 36)
              Store.educational_book_template).
    by vm_compute. }
  assert (Store.get_project project_id d' = Some project) as Hp' by done.
  pose proof (get_template_seeded now d _
                (list_elem_of_here _ _ : _ ∈ Store.default_templates now))
    as H1.
  pose proof (get_template_seeded now d _
                (list_elem_of_further _ _ _ (list_elem_of_here _ _)
                 : _ ∈ Store.default_templates now)) as H2.
  pose proof (get_template_seeded now d _
                (list_elem_of_further _ _ _
                   (list_elem_of_further _ _ _ (list_elem_of_here _ _))
                 : _ ∈ Store.default_templates now)) as H3.
  cbn [Store.t_id] in H1, H2, H3.
  unfold generate_latex_from_project, d', Store.init_database.
  fold d' in Hp'. unfold d', Store.init_database in Hp'.
  rewrite Hp', H1, H2, H3. cbn [Store.t_latex_template].
  rewrite Hbook, Harticle, Hreport by done.
  done.
Qed.

Lemma X12_default_templates_do_not_fill_witness :
  generate_latex_from_project (fun _ => false) "November 04, 2026"
    (Store.init_database 5 sample_db) "p1" "children_storybook" (Some ∅)
  = Returns (None, Some "Template variable missing: 'book'").
Proof.
  exact (proj1 (X12_default_templates_do_not_fill (fun _ => false)
                  "November 04, 2026" 5 sample_db "p1" ∅ sample_project
                  eq_refl)).
Defined.



(** * Further properties of the rate limiter *)

Section limiter_general.

Import Limiter.
Local Open Scope Q_scope.

Lemma filter_filter_implied {A} (f g : A → bool) (l : list A) :
  (∀ a, g a = true → f a = true) →
  List.filter g (List.filter f l) = List.filter g l.
Proof.
  intros Himp. induction l as [|a l IH]; [done|]. simpl.
  destruct (f a) eqn:Ef; simpl.
  - by rewrite IH.
  - destruct (g a) eqn:Eg; [|done]. rewrite (Himp a Eg) in Ef. done.
Qed.

Lemma filter_all_kept {A} (f : A → bool) (l : list A) :
  length (List.filter f l) = length l → List.filter f l = l.
Proof.
  induction l as [|a l IH]; [done|]. simpl.
  pose proof (filter_length_le f l).
  destruct (f a); simpl; intros Hlen; [f_equal; apply IH; lia | lia].
Qed.

Lemma filter_drops {A} (f : A → bool) (l : list A) (x : A) :
  In x l → f x = false → (length (List.filter f l) < length l)%nat.
Proof.
  induction l as [|a l IH]; [done|]. simpl.
  pose proof (filter_length_le f l).
  intros [->|Hin] Hx.
  - rewrite Hx. lia.
  - specialize (IH Hin Hx). destruct (f a); simpl; lia.
Qed.

Lemma min_from_in (cur : Q) (l : list Q) :
  In (min_from cur l) (cur :: l).
Proof.
  revert cur. induction l as [|x l IH]; intros cur; [by left|].
  simpl. destruct (negb (Qle_bool cur x)).
  - destruct (IH x) as [H|H]; [right; left; done | right; right; done].
  - destruct (IH cur) as [H|H]; [left; done | right; right; done].
Qed.

Lemma min_from_le (cur : Q) (l : list Q) :
  min_from cur l <= cur ∧ ∀ x, In x l → min_from cur l <= x.
Proof.
  revert cur. induction l as [|x l IH]; intros cur.
  - simpl. split; [lra|]. by intros ? [].
  - simpl. destruct (Qle_bool cur x) eqn:E; simpl.
    + apply Qle_bool_iff in E. destruct (IH cur) as [H1 H2].
      split; [done|]. intros y [<-|Hy]; [lra | by apply H2].
    + assert (x < cur) as Hlt.
      { apply Qnot_le_lt. intros H%Qle_bool_iff. congruence. }
      destruct (IH x) as [H1 H2].
      split; [lra|]. intros y [<-|Hy]; [done | by apply H2].
Qed.

Lemma guarded_call_invariant (c : call) rl :
  (0 <= max_requests rl)%Z →
  (Z.of_nat (length (requests rl)) <= max_requests rl)%Z →
  (Z.of_nat (length (requests (guarded_call c rl))) <= max_requests rl)%Z
  ∧ max_requests (guarded_call c rl) = max_requests rl
  ∧ time_window (guarded_call c rl) = time_window rl.
Proof.
  intros Hmax Hlen. unfold guarded_call, can_make_request.
  pose proof (filter_length_le (in_window (now_check c) (time_window rl))
                (requests rl)) as Hkept.
  case_bool_decide as Hok.
  - destruct (now_record c) as [now|]; simpl; rewrite ?length_app; simpl;
      split_and!; try done; lia.
  - destruct (wait_readings c) as [[now1 now2]|];
      [|simpl; split_and!; try done; lia].
    unfold time_until_next_request, can_make_request. simpl.
    pose proof (filter_length_le (in_window now1 (time_window rl))
                  (List.filter (in_window (now_check c) (time_window rl))
                     (requests rl))) as Hkept'.
    case_bool_decide; simpl; split_and!; try done; lia.
Qed.

End limiter_general.

(** X14.  Dropping old timestamps during a check loses nothing a later check
    needs, as long as the clock does not run backwards: a check at a later
    reading gives the same answer and leaves the same timestamps whether or
    not an earlier check pruned the list before it.  In particular a check
    repeated at the same reading changes nothing. *)
Theorem X14_pruning_is_sound (now now' : Q) (rl : Limiter.RateLimiter) :
  (now <= now')%Q →
  Limiter.can_make_request now' (Limiter.can_make_request now rl).1
  = Limiter.can_make_request now' rl
  ∧ Limiter.can_make_request now (Limiter.can_make_request now rl).1
    = Limiter.can_make_request now rl.
Proof.
  intros Hle.
  assert (∀ t t' : Q, (t <= t')%Q →
            List.filter (Limiter.in_window t' (Limiter.time_window rl))
              (List.filter (Limiter.in_window t (Limiter.time_window rl))
                 (Limiter.requests rl))
            = List.filter (Limiter.in_window t' (Limiter.time_window rl))
                (Limiter.requests rl)) as Hfilter.
  { intros t t' Ht. apply filter_filter_implied.
    intros a Ha%in_window_true. apply in_window_true. lra. }
  unfold Limiter.can_make_request. simpl.
  rewrite !Hfilter by lra. done.
Qed.

Lemma X14_pruning_is_sound_witness :
  Limiter.can_make_request 70
    (Limiter.can_make_request 65
       {| Limiter.max_requests := 2; Limiter.time_window := 60;
          Limiter.requests := [0%Q; 10%Q; 20%Q] |}).1
  = Limiter.can_make_request 70
      {| Limiter.max_requests := 2; Limiter.time_window := 60;
         Limiter.requests := [0%Q; 10%Q; 20%Q] |}.
Proof.
  assert (65 <= 70)%Q as H by lra.
  exact (proj1 (X14_pruning_is_sound 65 70 _ H)).
Defined.

(** X15.  Under the guard every generation method uses (check; when
    refused, for the image and audio methods, ask for the wait; otherwise
    call the service and record when the call returned), with calls made one
    after the other, a limiter never holds more timestamps than
    [max_requests]: from a fresh limiter with a non-negative bound, after
    any run of guarded calls, refused and failed ones included, the number
    of recorded timestamps is at most the bound, and the bound and the
    window are what the limiter was built with. *)
Theorem X15_never_over_capacity (max_requests : Z) (time_window : Q)
    (calls : list Limiter.call) :
  0 ≤ max_requests →
  let rl := Limiter.serve calls (Limiter.init max_requests time_window) in
  Z.of_nat (length (Limiter.requests rl)) ≤ max_requests
  ∧ Limiter.max_requests rl = max_requests
  ∧ Limiter.time_window rl = time_window.
Proof.
  intros Hmax.
  assert (∀ rl0,
            Z.of_nat (length (Limiter.requests rl0)) ≤ max_requests →
            Limiter.max_requests rl0 = max_requests →
            Limiter.time_window rl0 = time_window →
            let rl := Limiter.serve calls rl0 in
            Z.of_nat (length (Limiter.requests rl)) ≤ max_requests
            ∧ Limiter.max_requests rl = max_requests
            ∧ Limiter.time_window rl = time_window) as Hgen.
  { induction calls as [|c calls IH]; intros rl0 Hlen Hm Hw; [done|].
    simpl. destruct (guarded_call_invariant c rl0) as (Hlen' & Hm' & Hw');
      [lia|lia|].
    apply IH; [lia | congruence | congruence]. }
  apply Hgen; simpl; done || lia.
Qed.

Lemma X15_never_over_capacity_witness :
  Z.of_nat (length (Limiter.requests
                      (Limiter.serve
                         [ Limiter.Build_call 0 None (Some 0%Q);
                           Limiter.Build_call 1 (Some (1, 1)%Q) (Some 2%Q);
                           Limiter.Build_call 3 (Some (3, 4)%Q) None;
                           Limiter.Build_call 5 None None;
                           Limiter.Build_call 70 None (Some 71%Q) ]
                         (Limiter.init 2 60)))) ≤ 2.
Proof.
  assert (0 ≤ 2) as H by lia.
  exact (proj1 (X15_never_over_capacity 2 60
                  [ Limiter.Build_call 0 None (Some 0%Q);
                    Limiter.Build_call 1 (Some (1, 1)%Q) (Some 2%Q);
                    Limiter.Build_call 3 (Some (3, 4)%Q) None;
                    Limiter.Build_call 5 None None;
                    Limiter.Build_call 70 None (Some 71%Q) ] H)).
Defined.

(** X16.  The wait that [time_until_next_request] reports is enough.  For a
    limiter that holds at most [max_requests] timestamps, with a bound of at
    least one: when a check is refused, the call returns the window minus
    the age of the oldest recorded timestamp, the oldest being the least of
    them all; and any check made at least that long after the second clock
    reading succeeds. *)
Theorem X16_reported_wait_suffices (now1 now2 : Q)
    (rl : Limiter.RateLimiter) :
  1 ≤ Limiter.max_requests rl →
  Z.of_nat (length (Limiter.requests rl)) ≤ Limiter.max_requests rl →
  snd (Limiter.can_make_request now1 rl) = false →
  ∃ oldest,
    In oldest (Limiter.requests rl)
    ∧ (∀ t, In t (Limiter.requests rl) → (oldest <= t)%Q)
    ∧ snd (Limiter.time_until_next_request now1 now2 rl)
      = Some (Limiter.time_window rl - (now2 - oldest))%Q
    ∧ (∀ later,
         (Limiter.time_window rl - (now2 - oldest) <= later - now2)%Q →
         snd (Limiter.can_make_request later rl) = true).
Proof.
  intros Hmax Hlen Hrefused.
  unfold Limiter.can_make_request in Hrefused. simpl in Hrefused.
  apply bool_decide_eq_false in Hrefused.
  pose proof (filter_length_le
                (Limiter.in_window now1 (Limiter.time_window rl))
                (Limiter.requests rl)) as Hle.
  assert (List.filter (Limiter.in_window now1 (Limiter.time_window rl))
                      (Limiter.requests rl) = Limiter.requests rl) as Hkept
    by (apply filter_all_kept; lia).
  destruct (Limiter.requests rl) as [|first others] eqn:Hreq;
    [simpl in *; lia|].
  exists (Limiter.min_from first others).
  pose proof (min_from_in first others) as Hin.
  pose proof (min_from_le first others) as [Hfirst Hothers].
  split_and!.
  - done.
  - intros t [<-|Ht]; [done | by apply Hothers].
  - unfold Limiter.time_until_next_request, Limiter.can_make_request. simpl.
    rewrite Hreq, Hkept.
    rewrite bool_decide_eq_false_2 by (rewrite Hkept in Hrefused; exact Hrefused).
    done.
  - intros later Hlater.
    unfold Limiter.can_make_request. simpl. rewrite Hreq.
    apply bool_decide_eq_true.
    assert (Limiter.in_window later (Limiter.time_window rl)
              (Limiter.min_from first others) = false) as Hgone
      by (apply in_window_false; lra).
    pose proof (filter_drops _ _ _ Hin Hgone). lia.
Qed.

Lemma X16_reported_wait_suffices_witness :
  snd (Limiter.time_until_next_request 30 31
         {| Limiter.max_requests := 2; Limiter.time_window := 60;
            Limiter.requests := [5%Q; 10%Q] |})
  = Some (60 - (31 - 5))%Q
  ∧ snd (Limiter.can_make_request 65
           {| Limiter.max_requests := 2; Limiter.time_window := 60;
              Limiter.requests := [5%Q; 10%Q] |}) = true.
Proof.
  assert (1 ≤ 2) as H1 by lia.
  assert (Z.of_nat 2 ≤ 2) as H2 by lia.
  destruct (X16_reported_wait_suffices 30 31
              {| Limiter.max_requests := 2; Limiter.time_window := 60;
                 Limiter.requests := [5%Q; 10%Q] |} H1 H2 eq_refl)
    as (oldest & Hin & Hleast & Hwait & Hlater).
  split; [reflexivity|].
  apply Hlater. simpl in Hin, Hleast.
  pose proof (Hleast 5%Q (or_introl eq_refl)) as Hfive.
  destruct Hin as [<-|[<-|[]]]; simpl; lra.
Defined.

(** X17.  [time_until_next_request] has three outcomes: zero when a request
    can be made; the window minus the age of the oldest timestamp in the
    window when it cannot and some timestamp is in the window; and the
    [ValueError] of [min] on an empty list exactly when the bound is zero or
    less and no timestamp is in the window. *)
Theorem X17_wait_outcomes (now1 now2 : Q) (rl : Limiter.RateLimiter) :
  let kept := List.filter (Limiter.in_window now1 (Limiter.time_window rl))
                          (Limiter.requests rl) in
  let wait := snd (Limiter.time_until_next_request now1 now2 rl) in
  (snd (Limiter.can_make_request now1 rl) = true → wait = Some 0%Q)
  ∧ (snd (Limiter.can_make_request now1 rl) = false →
     wait = (fun oldest => (Limiter.time_window rl - (now2 - oldest))%Q)
            <$> Limiter.py_min kept)
  ∧ (wait = None ↔ Limiter.max_requests rl ≤ 0 ∧ kept = []).
Proof.
  intros kept wait.
  unfold wait, Limiter.time_until_next_request, Limiter.can_make_request.
  simpl. fold kept. split_and!.
  - by intros ->.
  - by intros ->.
  - case_bool_decide as Hok; simpl.
    + split; [done|]. intros [Hmax ->]. simpl in Hok. lia.
    + destruct kept as [|first others]; simpl.
      * split; [intros _; split; [simpl in Hok; lia | done] | done].
      * split; [done | by intros [_ ?]].
Qed.

Lemma X17_wait_outcomes_witness :
  snd (Limiter.time_until_next_request 0 0 (Limiter.init 0 60)) = None.
Proof.
  apply (X17_wait_outcomes 0 0 (Limiter.init 0 60)).
  split; [simpl; lia | reflexivity].
Defined.

(** ** Compilation: the successful run and the second pass *)

Section compilation_paths.

Import Compiler.

Lemma compile_pdf_installed tc odn code name twice w :
  check_latex_installation tc = true →
  compile_pdf tc odn code name twice w =
  let t := fresh_temp w in
  let r := compile_in tc odn code name twice t (set_temp t ∅ w) in
  (cleanup t r.1, r.2).
Proof.
  intros Hinst. unfold compile_pdf. rewrite Hinst. simpl.
  by destruct (compile_in _ _ _ _ _ _ _).
Qed.

Lemma temp_restored w work :
  delete (fresh_temp w)
         (<[fresh_temp w := work]> (<[fresh_temp w := ∅]> (temp_dirs w)))
  = temp_dirs w.
Proof. rewrite insert_insert_eq. apply cleanup_fresh. Qed.

Lemma promote_success odn name t work out err pdf w :
  work !! "document.pdf" = Some pdf →
  promote odn name t work 0 out err w =
  match copy_error w (name +:+ ".pdf") with
  | None =>
      ({| output_dir := <[name +:+ ".pdf" := pdf]> (output_dir w);
          temp_dirs := <[t := work]> (temp_dirs w);
          copy_error := copy_error w |},
       (Some (path_join odn (name +:+ ".pdf")), None))
  | Some msg =>
      (set_temp t work w, (None, Some ("PDF generation error: " +:+ msg)))
  end.
Proof.
  intros Hpdf. unfold promote, copy_to_output. rewrite Hpdf.
  rewrite bool_decide_eq_true_2 by done. cbn [andb Z.eqb].
  cbn [set_temp copy_error output_dir temp_dirs default].
  by destruct (copy_error w (name +:+ ".pdf")).
Qed.

Lemma cleanup_restores w work :
  cleanup (fresh_temp w) (set_temp (fresh_temp w) work
                            (set_temp (fresh_temp w) ∅ w)) = w.
Proof.
  unfold cleanup, set_temp. cbn [output_dir temp_dirs copy_error].
  rewrite temp_restored. by destruct w.
Qed.

Lemma promote_shape odn name t work rc out err w :
  let r := promote odn name t work rc out err w in
  (r.2.1 = None ↔ is_Some r.2.2)
  ∧ (∀ path, r.2.1 = Some path →
       path = path_join odn (name +:+ ".pdf")
       ∧ rc = 0
       ∧ output_dir r.1 = <[name +:+ ".pdf" :=
                              default EmptyString (work !! "document.pdf")]>
                            (output_dir w)
       ∧ is_Some (work !! "document.pdf")).
Proof.
  unfold promote, copy_to_output.
  destruct (rc =? 0) eqn:Hrc; simpl.
  - apply Z.eqb_eq in Hrc. case_bool_decide as Hpdf; simpl.
    + destruct (copy_error w (name +:+ ".pdf")); simpl.
      * split; [split; [by eexists | done]|]. done.
      * split; [split; [done | by intros [? ?]]|].
        intros path [= <-]. done.
    + split; [split; [by eexists | done]|]. done.
  - split; [split; [by eexists | done]|]. done.
Qed.

End compilation_paths.



(** X19.  [compile_pdf] returns exactly one of a path and an error.  A
    returned path is always [<output_dir>/<output_filename>.pdf], and then
    the run that counts exited with zero and the file of that name in the
    output directory is the document it left.  When the version check of
    the compiler fails, the compiler is never run: the result is the
    not-installed error and the file system is as it was, whatever a run
    would have done. *)
Theorem X19_compile_result_shape (tc : Compiler.toolchain)
    (output_dir_name latex_code output_filename : string)
    (compile_twice : bool) (w : Compiler.world) :
  let result :=
    Compiler.compile_pdf tc output_dir_name latex_code output_filename
                         compile_twice w in
  let final := Compiler.run_passes tc latex_code compile_twice in
  (result.2.1 = None ↔ is_Some result.2.2)
  ∧ (∀ path, result.2.1 = Some path →
       path = Compiler.path_join output_dir_name (output_filename +:+ ".pdf")
       ∧ (∃ stdout stderr, final.2 = Compiler.Completed 0 stdout stderr)
       ∧ is_Some (final.1 !! "document.pdf")
       ∧ Compiler.output_dir result.1 !! (output_filename +:+ ".pdf")
         = final.1 !! "document.pdf")
  ∧ (Compiler.check_latex_installation tc = false →
     ∀ run,
       Compiler.compile_pdf
         {| Compiler.version_check := Compiler.version_check tc;
            Compiler.run_latex := run |}
         output_dir_name latex_code output_filename compile_twice w
       = (w, (None, Some "LaTeX is not installed or not accessible"))).
Proof.
  intros result final.
  destruct (Compiler.check_latex_installation tc) eqn:Hinst.
  - unfold result. rewrite compile_pdf_installed by done.
    cbn [fst snd]. unfold Compiler.compile_in. fold final.
    destruct final as [work [rc out err| |msg]]; cbn [fst snd].
    + pose proof (promote_shape output_dir_name output_filename
                    (Compiler.fresh_temp w) work rc out err
                    (Compiler.set_temp (Compiler.fresh_temp w) ∅ w))
        as [Hone Hpath].
      split_and!; [done| |done].
      intros path Hp. destruct (Hpath path Hp) as (-> & -> & Hout & Hpdf).
      split_and!; [done|by eauto|done|].
      unfold Compiler.cleanup. cbn [Compiler.output_dir].
      rewrite Hout, lookup_insert_eq.
      by destruct Hpdf as [pdf ->].
    + split_and!; [split; [by eexists | done] | done | done].
    + split_and!; [split; [by eexists | done] | done | done].
  - split_and!.
    + unfold result, Compiler.compile_pdf. rewrite Hinst. simpl.
      split; [by eexists | done].
    + unfold result, Compiler.compile_pdf. rewrite Hinst. simpl. done.
    + intros _ run. unfold Compiler.compile_pdf.
      unfold Compiler.check_latex_installation in *. simpl.
      by rewrite Hinst.
Qed.

Lemma X19_compile_result_shape_witness :
  Compiler.compile_pdf
    {| Compiler.version_check := None;
       Compiler.run_latex := Compiler.run_latex working_toolchain |}
    "static/exports" "\documentclass{book}" "project_p1" true sample_world
  = (sample_world, (None, Some "LaTeX is not installed or not accessible")).
Proof.
  exact (proj2 (proj2 (X19_compile_result_shape
                         {| Compiler.version_check := None;
                            Compiler.run_latex := fun _ d =>
                              (d, Compiler.TimeoutExpired) |}
                         "static/exports" "\documentclass{book}" "project_p1"
                         true sample_world))
               eq_refl (Compiler.run_latex working_toolchain)).
Defined.

(** X20.  The second pass decides.  When the first pass exits with zero and
    leaves a document, and the second pass exits with a non-zero status,
    then with [compile_twice] (the default) [compile_pdf] returns the
    failure of the second pass and promotes nothing, although the document
    of the first pass was there; without [compile_twice] the same source
    yields that document, provided the copy into the output directory
    succeeds. *)
Theorem X20_second_pass_decides (tc : Compiler.toolchain)
    (output_dir_name latex_code output_filename : string)
    (w : Compiler.world) (work1 work2 : Compiler.dir)
    (out1 err1 out2 err2 pdf : string) (rc2 : Z) :
  Compiler.check_latex_installation tc = true →
  Compiler.run_latex tc 1 {[ "document.tex" := latex_code ]}
    = (work1, Compiler.Completed 0 out1 err1) →
  work1 !! "document.pdf" = Some pdf →
  Compiler.run_latex tc 2 work1 = (work2, Compiler.Completed rc2 out2 err2) →
  rc2 ≠ 0 →
  Compiler.compile_pdf tc output_dir_name latex_code output_filename true w
  = (w, (None, Some ("LaTeX compilation failed:" +:+ newline_str +:+
                     (if PyStr.truthy err2 then err2 else out2))))
  ∧ (Compiler.copy_error w (output_filename +:+ ".pdf") = None →
     Compiler.compile_pdf tc output_dir_name latex_code output_filename
       false w
     = ({| Compiler.output_dir :=
             <[output_filename +:+ ".pdf" := pdf]> (Compiler.output_dir w);
           Compiler.temp_dirs := Compiler.temp_dirs w;
           Compiler.copy_error := Compiler.copy_error w |},
        (Some (Compiler.path_join output_dir_name
                 (output_filename +:+ ".pdf")),
         None))).
Proof.
  intros Hinst Hrun1 Hpdf Hrun2 Hrc.
  rewrite !compile_pdf_installed by done.
  unfold Compiler.compile_in, Compiler.run_passes.
  rewrite Hrun1. simpl. rewrite Hrun2. split.
  - unfold Compiler.promote.
    apply Z.eqb_neq in Hrc. rewrite Hrc. simpl.
    unfold Compiler.error_log. f_equal. apply cleanup_restores.
  - intros Hcopy. rewrite (promote_success _ _ _ _ _ _ pdf) by done.
    cbn [Compiler.set_temp Compiler.copy_error Compiler.output_dir
         Compiler.temp_dirs].
    rewrite Hcopy. unfold Compiler.cleanup.
    cbn [fst snd Compiler.output_dir Compiler.temp_dirs Compiler.copy_error].
    by rewrite temp_restored.
Qed.

Lemma X20_second_pass_decides_witness :
  Compiler.compile_pdf second_pass_failing_toolchain "static/exports"
    "\documentclass{book}" "project_p1" true sample_world
  = (sample_world,
     (None, Some ("LaTeX compilation failed:" +:+ newline_str +:+
                  "! Undefined control sequence.")))
  ∧ (Compiler.compile_pdf second_pass_failing_toolchain "static/exports"
       "\documentclass{book}" "project_p1" false sample_world).2
    = (Some "static/exports/project_p1.pdf", None).
Proof.
  assert (1 ≠ 0) as Hne by lia.
  pose proof (X20_second_pass_decides second_pass_failing_toolchain
                "static/exports" "\documentclass{book}" "project_p1"
                sample_world _ _ _ _ _ _ "%PDF" 1 eq_refl eq_refl
                ltac:(by vm_compute) eq_refl Hne) as [Htwice Honce].
  split; [exact Htwice|].
  by rewrite (Honce eq_refl).
Defined.

(** ** Exports and the soft delete *)

Section exports_after_delete.

Lemma get_project_after_delete now deleted project_id d :
  Store.get_project project_id (Store.delete_project now deleted d) =
  (fun p => if decide (project_id = deleted)
            then Store.stamp now (Store.assign (Store.SetStatus "deleted") p)
            else p)
    <$> Store.get_project project_id d.
Proof.
  destruct (decide (project_id = deleted)) as [->|Hne].
  - apply delete_project_get.
  - unfold Store.get_project, Store.delete_project. simpl.
    rewrite find_update_where_id_other by done.
    by destruct (List.find _ _).
Qed.

End exports_after_delete.

(** X21.  The exports do not look at the status of a project.  After
    [delete_project], of this or of any other project,
    [generate_latex_from_project] and [create_audiobook_companion] give for
    every project id what they gave before: a deleted project, which
    [get_projects] no longer lists, is still exported in full. *)
Theorem X21_deleted_project_still_exports (now : Z) (deleted : string)
    (d : Store.db) (path_exists : string → bool) (today : string)
    (project_id template_id : string) (st : settings)
    (tc : Compiler.toolchain) (output_dir_name output_filename : string)
    (w : Compiler.world) :
  let d' := Store.delete_project now deleted d in
  generate_latex_from_project path_exists today d' project_id template_id st
  = generate_latex_from_project path_exists today d project_id template_id st
  ∧ create_audiobook_companion tc output_dir_name d' project_id
      output_filename w
    = create_audiobook_companion tc output_dir_name d project_id
        output_filename w
  ∧ (∀ project_type q, q ∈ Store.get_projects project_type d' →
                       Store.p_id q ≠ deleted).
Proof.
  intros d'. split_and!.
  - unfold generate_latex_from_project, d'.
    rewrite get_project_after_delete.
    destruct (Store.get_project project_id d) as [p|]; [|done].
    cbn [fmap option_fmap option_map].
    assert (∀ q, Store.p_name
                   (if decide (project_id = deleted)
                    then Store.stamp now
                           (Store.assign (Store.SetStatus "deleted") q)
                    else q) = Store.p_name q) as Hname
      by (intros q; by case_decide).
    unfold Store.get_template, Store.get_project_content,
      Store.delete_project. cbn [Store.templates Store.contents].
    by rewrite Hname.
  - unfold create_audiobook_companion, d'.
    rewrite get_project_after_delete.
    destruct (Store.get_project project_id d) as [p|]; [|done].
    cbn [fmap option_fmap option_map].
    unfold Store.get_project_content, Store.delete_project.
    cbn [Store.contents].
    unfold _generate_audiobook_latex, audiobook_preamble.
    by case_decide.
  - intros project_type q Hq Hid.
    apply get_projects_active in Hq as [Hin Hstatus].
    unfold d', Store.delete_project in Hin. cbn [Store.projects] in Hin.
    unfold Store.update_where_id in Hin.
    apply list_elem_of_fmap in Hin as (p & -> & Hp).
    case_decide as Hpid; [by simpl in Hstatus|]. done.
Qed.

(** ** Assembling: what the order of the items decides *)

Section assembling_order.

Context (path_exists : string → bool) (st : settings).
Implicit Types (l : list Store.content) (k : Z).

Lemma scenes_of_dom_perm l1 l2 :
  l1 ≡ₚ l2 → sorted_keys (scenes_of l1) = sorted_keys (scenes_of l2).
Proof.
  intros Hp. unfold sorted_keys. do 2 f_equal. apply set_eq. intros k.
  rewrite !scenes_of_dom. by setoid_rewrite Hp.
Qed.

Lemma partition_perm {A} (P : A → Prop) `{∀ a, Decision (P a)} (l : list A) :
  filter P l ++ filter (fun a => ¬ P a) l ≡ₚ l.
Proof.
  induction l as [|a l IH]; [done|].
  rewrite !filter_cons. destruct (decide (P a)) as [Ha|Ha].
  - rewrite decide_False by tauto. simpl. by rewrite IH.
  - rewrite decide_True by done.
    rewrite <-Permutation_middle. by rewrite IH.
Qed.

Lemma filter_none {A} (P : A → Prop) `{∀ a, Decision (P a)} (l : list A) :
  (∀ a, ¬ P a) → filter P l = [].
Proof.
  intros HP. induction l as [|a l IH]; [done|].
  rewrite filter_cons, decide_False by apply HP. done.
Qed.

Lemma of_type_texts_first ty k l :
  of_type ty k (filter (fun item => Store.c_type item = "text") l
                ++ filter (fun item => ¬ Store.c_type item = "text") l)
  = of_type ty k l.
Proof.
  rewrite of_type_app. unfold of_type. rewrite !list_filter_filter.
  destruct (decide (ty = "text")) as [->|Hty].
  - rewrite (filter_none
               (fun item => (Store.c_type item = "text"
                             ∧ scene_index_of item = k)
                            ∧ ¬ Store.c_type item = "text")) by tauto.
    rewrite app_nil_r. apply list_filter_iff. tauto.
  - rewrite (filter_none
               (fun item => (Store.c_type item = ty
                             ∧ scene_index_of item = k)
                            ∧ Store.c_type item = "text")).
    + simpl. apply list_filter_iff. intros item. split; [tauto|].
      intros [<- ?]. done.
    + intros item [[<- _] ?]. done.
Qed.

End assembling_order.

(** X22.  What [_build_content_sections] makes of a list of items, read off
    the items themselves: one chapter per scene key in ascending order, never
    without its heading; in it the cleaned texts of the scene's text items
    that have text, then the blocks of its image items whose file is on
    disk, then the closing space.  Audio items and items of other types add
    no fragment (but their scene gets its heading).  Inside a chapter the
    texts always come before the images: moving all text items to the front
    of the input changes nothing. *)
Theorem X22_texts_precede_images (path_exists : string → bool)
    (st : settings) (l : list Store.content) :
  _build_content_sections path_exists l st =
    sorted_keys (scenes_of l) ≫= (fun k =>
      [ if is_comic st
        then "\section*{" +:+ ("Scene " +:+ PyStr.str_int (k + 1)) +:+ "}"
        else "\chapter{" +:+ ("Scene " +:+ PyStr.str_int (k + 1)) +:+ "}" ]
      ++ ((fun item => _clean_text_for_latex
                         (default EmptyString (Store.c_content_text item)))
          <$> filter (fun item =>
                        Is_true (opt_truthy (Store.c_content_text item)))
                     (of_type "text" k l))
      ++ ((fun item => _create_image_section item st)
          <$> filter (fun item => Is_true (image_on_disk path_exists item))
                     (of_type "image" k l))
      ++ ["\vspace{1em}"])
  ∧ _build_content_sections path_exists
      (filter (fun item => Store.c_type item = "text") l
       ++ filter (fun item => ¬ Store.c_type item = "text") l) st
    = _build_content_sections path_exists l st.
Proof.
  split.
  - rewrite build_content_sections_eq. apply list_bind_ext; [|done].
    intros k. unfold scene_sections, scene_at.
    cbn [title text_items image_items]. done.
  - rewrite !build_content_sections_eq.
    rewrite (scenes_of_dom_perm _ l)
      by apply (partition_perm (fun item => Store.c_type item = "text")).
    apply list_bind_ext; [|done].
    intros k. unfold scene_at. by rewrite !of_type_texts_first.
Qed.

(** ** Cleaning text, for every input *)

Section cleaning.

Implicit Types (s t cur : string) (c : ascii).

Lemma escape_one_char c :
  escape_special (String c EmptyString) = escaped_as c.
Proof. by destruct c as [[] [] [] [] [] [] [] []]. Qed.

Lemma mem_char_rev c s :
  PyFormat.mem_char c (String.rev s) = PyFormat.mem_char c s.
Proof.
  induction s as [|d s IH]; [done|].
  rewrite rev_String, mem_char_app, IH. simpl.
  by rewrite orb_false_r, orb_comm.
Qed.

Lemma mem_char_lstrip c s :
  PyFormat.mem_char c s = false → PyFormat.mem_char c (PyStr.lstrip s) = false.
Proof.
  induction s as [|d s IH]; [done|]. simpl.
  intros H. destruct (PyStr.isspace d); [|done].
  apply IH. by apply orb_false_elim in H as [_ ?].
Qed.

Lemma mem_char_strip c s :
  PyFormat.mem_char c s = false → PyFormat.mem_char c (PyStr.strip s) = false.
Proof.
  intros H. unfold PyStr.strip, PyStr.rstrip.
  rewrite mem_char_rev. apply mem_char_lstrip.
  rewrite mem_char_rev. by apply mem_char_lstrip.
Qed.

(** [split('\n\n')] consumes one or two characters at a step. *)
Lemma string_pair_ind (P : string → Prop) :
  P EmptyString →
  (∀ c, P (String c EmptyString)) →
  (∀ c c' s, P s → P (String c' s) → P (String c (String c' s))) →
  ∀ s, P s.
Proof.
  intros Hnil Hone Hstep s.
  assert (P s ∧ ∀ c, P (String c s)) as [? _]; [|done].
  induction s as [|c' s [IH1 IH2]]; [by split|].
  split; [apply IH2|]. intros c. by apply Hstep.
Qed.

Lemma mem_char_split_blank c s :
  PyFormat.mem_char c s = false →
  ∀ cur, PyFormat.mem_char c cur = false →
  Forall (fun p => PyFormat.mem_char c p = false) (PyStr.split_blank_go cur s).
Proof.
  induction s as [|d|d d' s IH1 IH2] using string_pair_ind;
    intros Hs cur Hcur.
  - simpl. constructor; [by rewrite mem_char_rev | constructor].
  - simpl in Hs. apply orb_false_elim in Hs as [Hd _].
    simpl. constructor; [|constructor].
    rewrite mem_char_rev. simpl. by rewrite Hd, Hcur.
  - pose proof Hs as Hs0.
    simpl in Hs. apply orb_false_elim in Hs as [Hd Hs].
    apply orb_false_elim in Hs as [Hd' Hs].
    cbn [PyStr.split_blank_go].
    destruct (Ascii.eqb d PyStr.newline && Ascii.eqb d' PyStr.newline).
    + constructor; [by rewrite mem_char_rev|]. by apply IH1.
    + apply IH2; simpl; by rewrite ?Hd, ?Hd', ?Hs, ?Hcur.
Qed.

Lemma mem_char_join c sep parts :
  PyFormat.mem_char c sep = false →
  Forall (fun p => PyFormat.mem_char c p = false) parts →
  PyFormat.mem_char c (PyStr.join sep parts) = false.
Proof.
  intros Hsep. induction 1 as [|p parts Hp Hparts IH]; [done|].
  cbn [PyStr.join]. destruct parts as [|q parts]; [done|].
  by rewrite !mem_char_app, Hp, Hsep, IH.
Qed.

Lemma mem_char_add_paragraph_breaks c s :
  PyFormat.mem_char c ("\noindent " +:+ blank_line) = false →
  PyFormat.mem_char c s = false →
  PyFormat.mem_char c (add_paragraph_breaks s) = false.
Proof.
  intros Hfixed Hs.
  rewrite mem_char_app in Hfixed. apply orb_false_elim in Hfixed as [Hno Hbl].
  unfold add_paragraph_breaks. apply mem_char_join; [done|].
  apply Forall_fmap, Forall_forall. intros p Hp%list_elem_of_filter.
  destruct Hp as [_ Hp]. unfold compose. cbv beta.
  rewrite mem_char_app, Hno. cbn [orb].
  apply mem_char_strip.
  pose proof (mem_char_split_blank c s Hs EmptyString eq_refl) as Hall.
  rewrite Forall_forall in Hall. by apply Hall.
Qed.

(** White space goes through the replacements untouched. *)
Lemma all_space_app s t :
  all_space (s +:+ t) = all_space s && all_space t.
Proof.
  induction s as [|c s IH]; [done|].
  rewrite app_String. simpl. by rewrite IH, andb_assoc.
Qed.

Lemma all_space_rev s : all_space (String.rev s) = all_space s.
Proof.
  induction s as [|c s IH]; [done|].
  rewrite rev_String, all_space_app, IH. simpl.
  by rewrite andb_true_r, andb_comm.
Qed.

Lemma all_space_not_mem c s :
  PyStr.isspace c = false → all_space s = true →
  PyFormat.mem_char c s = false.
Proof.
  intros Hc. induction s as [|d s IH]; [done|]. simpl.
  intros [Hd Hs]%andb_prop. rewrite IH by done.
  destruct (Ascii.eqb_spec c d) as [->|]; [congruence|done].
Qed.

Lemma lstrip_all_space s :
  all_space s = true → PyStr.lstrip s = EmptyString.
Proof.
  induction s as [|c s IH]; [done|]. simpl.
  intros [-> Hs]%andb_prop. by apply IH.
Qed.

Lemma strip_all_space s :
  all_space s = true → PyStr.strip s = EmptyString.
Proof.
  intros Hs. unfold PyStr.strip. by rewrite lstrip_all_space.
Qed.

Lemma all_space_split_blank s :
  all_space s = true →
  ∀ cur, all_space cur = true →
  Forall (fun p => all_space p = true) (PyStr.split_blank_go cur s).
Proof.
  induction s as [|d|d d' s IH1 IH2] using string_pair_ind;
    intros Hs cur Hcur.
  - simpl. constructor; [by rewrite all_space_rev | constructor].
  - simpl in Hs. rewrite andb_true_r in Hs.
    simpl. constructor; [|constructor].
    rewrite all_space_rev. simpl. by rewrite Hs, Hcur.
  - simpl in Hs. apply andb_prop in Hs as [Hd Hs].
    apply andb_prop in Hs as [Hd' Hs].
    cbn [PyStr.split_blank_go].
    destruct (Ascii.eqb d PyStr.newline && Ascii.eqb d' PyStr.newline).
    + constructor; [by rewrite all_space_rev|]. by apply IH1.
    + apply IH2; simpl; by rewrite ?Hd, ?Hd', ?Hs, ?Hcur.
Qed.

Lemma filter_none_of {A} (P : A → Prop) `{∀ a, Decision (P a)} (l : list A) :
  (∀ a, a ∈ l → ¬ P a) → filter P l = [].
Proof.
  induction l as [|a l IH]; intros HP; [done|].
  rewrite filter_cons, decide_False by (apply HP; apply list_elem_of_here).
  apply IH. intros b Hb. apply HP. by apply list_elem_of_further.
Qed.

Lemma escape_special_safe s :
  forallb (fun entry => negb (PyFormat.mem_char entry.1 s))
          latex_special_chars = true →
  escape_special s = s.
Proof.
  unfold latex_special_chars. cbn [forallb fst].
  rewrite !andb_true_iff, !negb_true_iff.
  intros (H1 & H2 & H3 & H4 & H5 & H6 & H7 & H8 & H9 & H10 & _).
  unfold escape_special, latex_special_chars. cbn [fold_left].
  by do 10 (rewrite (replace_absent _ _ s) by done).
Qed.

Lemma escape_special_all_space s :
  all_space s = true → escape_special s = s.
Proof.
  intros Hs. apply escape_special_safe.
  unfold latex_special_chars. cbn [forallb fst].
  by rewrite !all_space_not_mem.
Qed.

Lemma split_blank_one_line s :
  PyFormat.mem_char PyStr.newline s = false →
  ∀ cur, PyStr.split_blank_go cur s = [String.rev cur +:+ s].
Proof.
  induction s as [|d s IH]; intros Hs cur.
  - simpl. by rewrite app_empty_r.
  - cbn [PyFormat.mem_char] in Hs. apply orb_false_elim in Hs as [Hd Hs].
    cbn [PyStr.split_blank_go]. destruct s as [|d' s'].
    + by rewrite rev_String.
    + rewrite Ascii.eqb_sym in Hd. rewrite Hd. cbn [andb].
      rewrite IH by done. by rewrite rev_String, app_assoc_str.
Qed.

End cleaning.

(** X23.  The chain of replacements, on every text: it acts on each
    character on its own; a character outside the table is kept, and of the
    ten characters of the table only the backslash comes out as its table
    entry, the others as their entry with its backslash (and, for the
    circumflex, its braces) rewritten by the later rules.  The three quote
    statements together are one replacement of every straight double quote
    by two apostrophes. *)
Theorem X23_escape_chain_on_every_text (text : string) :
  escape_special text = PyFormat.concat_map escaped_as text
  ∧ (∀ c, c ∉ latex_special_chars.*1 → escaped_as c = String c EmptyString)
  ∧ (∀ c replacement, (c, replacement) ∈ latex_special_chars →
       escaped_as c = replacement ↔ c = PyStr.backslash)
  ∧ handle_quotes (escape_special text)
    = PyStr.replace PyStr.dquote "''" (PyFormat.concat_map escaped_as text).
Proof.
  assert (escape_special text = PyFormat.concat_map escaped_as text) as Hchain.
  { rewrite escape_special_char_by_char.
    induction text as [|c text IH]; [done|]. simpl.
    by rewrite IH, escape_one_char. }
  split_and!.
  - done.
  - intros c Hc. unfold latex_special_chars in Hc. cbn [fmap list_fmap fst] in Hc.
    rewrite !not_elem_of_cons in Hc.
    destruct Hc as (H1 & H2 & H3 & H4 & H5 & H6 & H7 & H8 & H9 & H10 & _).
    unfold escaped_as. cbn [PyFormat.mem_char].
    repeat match goal with
           | |- context [Ascii.eqb c ?x] =>
               destruct (Ascii.eqb_spec c x); [congruence|]
           end.
    done.
  - intros c replacement Hin. unfold latex_special_chars in Hin.
    repeat (apply elem_of_cons in Hin as [[= -> ->]|Hin];
            [split; [by intros [=] | by intros [=]]|]).
    by apply elem_of_nil in Hin.
  - by rewrite handle_quotes_once, Hchain.
Qed.

(** X24.  A plain one-line text comes out as itself: when the text holds
    none of the ten special characters, no straight double quote and no
    newline, and is not blank, [_clean_text_for_latex] returns the text
    without its leading and trailing white space, behind [\noindent]. *)
Theorem X24_plain_text_is_kept (text : string) :
  forallb (fun entry => negb (PyFormat.mem_char entry.1 text))
          latex_special_chars = true →
  PyFormat.mem_char PyStr.dquote text = false →
  PyFormat.mem_char PyStr.newline text = false →
  PyStr.strip text ≠ EmptyString →
  _clean_text_for_latex text = "\noindent " +:+ PyStr.strip text.
Proof.
  intros Hsafe Hquote Hline Hblank.
  unfold _clean_text_for_latex.
  rewrite escape_special_safe, handle_quotes_once, replace_absent by done.
  unfold add_paragraph_breaks, PyStr.split_blank.
  rewrite split_blank_one_line by done.
  change (String.rev EmptyString +:+ text) with text.
  rewrite (filter_singleton _ text []).
  rewrite decide_True; [done|].
  destruct (PyStr.strip text); [done | exact I].
Qed.

Lemma X24_plain_text_is_kept_witness :
  _clean_text_for_latex "  The fox ran home.  "
  = "\noindent The fox ran home.".
Proof.
  assert (PyStr.strip "  The fox ran home.  " ≠ EmptyString) as Hblank
    by (by vm_compute).
  exact (X24_plain_text_is_kept "  The fox ran home.  " eq_refl eq_refl
           eq_refl Hblank).
Defined.

(** X25.  A text of white space only cleans to the empty string, not to a
    bare [\noindent].  Such a text is still a true value for the test
    [if item['content_text']], so a text item that holds it puts an empty
    fragment into the assembled content. *)
Theorem X25_blank_text_gives_empty_fragment (path_exists : string → bool)
    (st : settings) (l : list Store.content) (item : Store.content)
    (text : string) :
  all_space text = true →
  _clean_text_for_latex text = EmptyString
  ∧ (text ≠ EmptyString →
     item ∈ l →
     Store.c_type item = "text" →
     Store.c_content_text item = Some text →
     EmptyString ∈ _build_content_sections path_exists l st).
Proof.
  intros Hspace.
  assert (_clean_text_for_latex text = EmptyString) as Hclean.
  { unfold _clean_text_for_latex.
    rewrite escape_special_all_space, handle_quotes_once by done.
    rewrite replace_absent by (by apply all_space_not_mem).
    unfold add_paragraph_breaks, PyStr.split_blank.
    pose proof (all_space_split_blank text Hspace EmptyString eq_refl) as Hall.
    rewrite (filter_none_of _ (PyStr.split_blank_go EmptyString text));
      [done|].
    intros p Hp. rewrite Forall_forall in Hall.
    rewrite strip_all_space by (by apply Hall). by intros []. }
  split; [done|].
  intros Hne Hin Hty Htext.
  rewrite <-Hclean.
  change text with (default EmptyString (Some text)). rewrite <-Htext.
  rewrite build_content_sections_eq.
  apply list_elem_of_bind. exists (scene_index_of item). split.
  - apply text_in_scene.
    + simpl. apply list_elem_of_filter. done.
    + rewrite Htext. simpl. by destruct text.
  - apply sorted_keys_elem, scenes_of_dom. eauto.
Qed.

Lemma X25_blank_text_gives_empty_fragment_witness :
  _clean_text_for_latex "   " = EmptyString.
Proof.
  exact (proj1 (X25_blank_text_gives_empty_fragment (fun _ => false) None []
                  scenario_text "   " eq_refl)).
Defined.

(** X26.  The cleaned text never holds a straight double quote, whatever
    the input. *)
Theorem X26_no_straight_quote_left (text : string) :
  PyFormat.mem_char PyStr.dquote (_clean_text_for_latex text) = false.
Proof.
  unfold _clean_text_for_latex.
  apply mem_char_add_paragraph_breaks; [done|].
  rewrite handle_quotes_once. by apply replace_removes.
Qed.

(** X27.  Bounds on the wait a refused caller is told.  The oldest
    timestamp was inside the window at the first clock reading, so the wait
    is more than minus the time that passed between the two readings: it is
    positive when both readings are the same, and can be zero or negative
    only when the clock moved on in between.  When no recorded timestamp is
    later than the second reading, the wait is at most the window. *)
Theorem X27_wait_bounds (now1 now2 wait : Q) (rl : Limiter.RateLimiter) :
  snd (Limiter.can_make_request now1 rl) = false →
  snd (Limiter.time_until_next_request now1 now2 rl) = Some wait →
  (now1 - now2 < wait)%Q
  ∧ ((∀ t, In t (Limiter.requests rl) → (t <= now2)%Q) →
     (wait <= Limiter.time_window rl)%Q).
Proof.
  intros Hrefused Hwait.
  unfold Limiter.time_until_next_request in Hwait.
  destruct (Limiter.can_make_request now1 rl) as [rl' ok] eqn:Hcheck.
  simpl in Hrefused. subst ok.
  unfold Limiter.can_make_request in Hcheck. injection Hcheck as <- _.
  cbn [snd Limiter.requests Limiter.time_window] in Hwait.
  destruct (List.filter _ (Limiter.requests rl)) as [|first others] eqn:Hkept;
    [done|].
  cbn [Limiter.py_min fmap option_fmap option_map] in Hwait.
  injection Hwait as <-.
  pose proof (min_from_in first others) as Hin.
  rewrite <-Hkept in Hin. apply filter_In in Hin as [Hin Hwindow].
  apply in_window_true in Hwindow.
  split; [lra|]. intros Hpast. specialize (Hpast _ Hin). lra.
Qed.

Lemma X27_wait_bounds_witness :
  (30 - 31 < 60 - (31 - 5))%Q.
Proof.
  exact (proj1 (X27_wait_bounds 30 31 (60 - (31 - 5))
                  {| Limiter.max_requests := 2; Limiter.time_window := 60;
                     Limiter.requests := [5%Q; 10%Q] |} eq_refl eq_refl)).
Defined.

(** ** Unwrapping a model response *)

Section unwrapping.

Implicit Types (s t ws body : string) (c : ascii).

Lemma lstrip_app_space ws s :
  all_space ws = true → PyStr.lstrip (ws +:+ s) = PyStr.lstrip s.
Proof.
  induction ws as [|c ws IH]; [done|].
  rewrite app_String. simpl. intros [-> Hws]%andb_prop. by apply IH.
Qed.

Lemma rstrip_app_space s ws :
  all_space ws = true → PyStr.rstrip (s +:+ ws) = PyStr.rstrip s.
Proof.
  intros Hws. unfold PyStr.rstrip.
  rewrite rev_app_distr_str, lstrip_app_space; [done|].
  by rewrite all_space_rev.
Qed.

Lemma rstrip_ends_nonspace s c :
  PyStr.isspace c = false →
  PyStr.rstrip (s +:+ String c EmptyString) = s +:+ String c EmptyString.
Proof.
  intros Hc. unfold PyStr.rstrip.
  rewrite rev_app_distr_str. change (String.rev (String c EmptyString))
    with (String c EmptyString).
  rewrite app_String, app_empty_l. simpl. rewrite Hc.
  by rewrite rev_String, rev_involutive_str.
Qed.

(** Stripping a text that begins and ends with a character that is not
    white space removes the white space around it and nothing else. *)
Lemma strip_around ws1 ws2 c1 c2 s :
  all_space ws1 = true → all_space ws2 = true →
  PyStr.isspace c1 = false → PyStr.isspace c2 = false →
  PyStr.strip (ws1 +:+ String c1 (s +:+ String c2 ws2))
  = String c1 (s +:+ String c2 EmptyString).
Proof.
  intros H1 H2 Hc1 Hc2. unfold PyStr.strip.
  rewrite lstrip_app_space by done. simpl. rewrite Hc1.
  replace (String c1 (s +:+ String c2 ws2))
    with ((String c1 s +:+ String c2 EmptyString) +:+ ws2)
    by (by rewrite !app_String, app_assoc_str).
  rewrite rstrip_app_space by done.
  rewrite rstrip_ends_nonspace by done.
  by rewrite app_String.
Qed.

Lemma rstrip_after_nonspace s c t :
  PyStr.isspace c = false →
  PyStr.rstrip (s +:+ String c t) = s +:+ String c (PyStr.rstrip t).
Proof.
  intros Hc. unfold PyStr.rstrip.
  replace (s +:+ String c t) with ((s +:+ String c EmptyString) +:+ t)
    by (by rewrite app_assoc_str).
  rewrite rev_app_distr_str.
  destruct (all_space t) eqn:Ht.
  - rewrite lstrip_app_space by (by rewrite all_space_rev).
    fold (PyStr.rstrip (s +:+ String c EmptyString)).
    rewrite rstrip_ends_nonspace by done.
    rewrite (lstrip_all_space (String.rev t)) by (by rewrite all_space_rev).
    done.
  - assert (∀ u v, all_space u = false →
              PyStr.lstrip (u +:+ v) = PyStr.lstrip u +:+ v) as Happ.
    { intros u v. induction u as [|d u IH]; [done|].
      rewrite app_String. simpl.
      destruct (PyStr.isspace d); simpl; [apply IH | by rewrite app_String]. }
    rewrite Happ by (by rewrite all_space_rev).
    rewrite rev_app_distr_str, rev_involutive_str.
    by rewrite app_assoc_str.
Qed.

Lemma endswith_app s suffix : endswith (s +:+ suffix) suffix = true.
Proof.
  unfold endswith. rewrite rev_app_distr_str.
  induction (String.rev suffix) as [|c r IH]; [by destruct (String.rev s)|].
  rewrite app_String. simpl. by destruct (ascii_dec c c).
Qed.

Lemma startswith_app s t : startswith (s +:+ t) s = true.
Proof.
  unfold startswith. induction s as [|c s IH]; [by destruct t|].
  rewrite app_String. simpl. by destruct (ascii_dec c c).
Qed.

Lemma drop_first_app s t :
  drop_first (String.length s) (s +:+ t) = t.
Proof. induction s as [|c s IH]; [done|]. by rewrite app_String. Qed.

Lemma length_rev s : String.length (String.rev s) = String.length s.
Proof.
  induction s as [|c s IH]; [done|].
  rewrite rev_String. simpl. rewrite <-IH.
  generalize (String.rev s) as r. intros r.
  induction r as [|d r IHr]; [done|]. rewrite app_String. simpl.
  by rewrite IHr.
Qed.

Lemma drop_last_app s suffix :
  drop_last (String.length suffix) (s +:+ suffix) = s.
Proof.
  unfold drop_last. rewrite rev_app_distr_str, <-length_rev.
  by rewrite drop_first_app, rev_involutive_str.
Qed.

Lemma drop_last_fence s : drop_last 3 (s +:+ fence) = s.
Proof. apply (drop_last_app s fence). Qed.

Lemma strip_fenced ws1 ws2 opening body :
  all_space ws1 = true → all_space ws2 = true →
  PyStr.strip (ws1 +:+ String "`" opening +:+ body +:+ fence +:+ ws2)
  = String "`" opening +:+ body +:+ fence.
Proof.
  intros H1 H2.
  replace (ws1 +:+ String "`" opening +:+ body +:+ fence +:+ ws2)
    with (ws1 +:+ String "`" ((opening +:+ body +:+ "``") +:+ String "`" ws2))
    by (unfold fence; by rewrite !app_String, !app_assoc_str).
  rewrite strip_around by done.
  unfold fence. by rewrite !app_String, !app_assoc_str.
Qed.

(** A tag is found behind the opening fence only when the body begins
    with it. *)
Lemma startswith_tag body tag :
  tag ≠ EmptyString → PyFormat.mem_char "`" tag = false →
  startswith body tag = false →
  startswith (body +:+ fence) tag = false.
Proof.
  unfold startswith. intros Hne Htag.
  revert body. induction tag as [|c tag IH]; [done|]. intros body.
  cbn [PyFormat.mem_char] in Htag. apply orb_false_elim in Htag as [Hc Htag].
  destruct body as [|d body].
  - intros _. rewrite app_empty_l. unfold fence. simpl.
    destruct (ascii_dec c "`") as [->|]; [|done].
    by rewrite Ascii.eqb_refl in Hc.
  - rewrite app_String. simpl. destruct (ascii_dec c d); [|done].
    destruct tag as [|c' tag']; [by destruct body|]. by apply IH.
Qed.

End unwrapping.

(** X28.  A response wrapped in a fence tagged [json], with any white
    space around it, is unwrapped: what [json.loads] is given is the body
    between the fences, stripped.  The opening fence is recognised only with
    the tag: of a response in a plain fence (whose body does not begin
    with the tag) the closing fence is removed and the opening one stays, so
    that what is parsed begins with three backquotes. *)
Theorem X28_json_fence (ws1 ws2 body : string) :
  all_space ws1 = true → all_space ws2 = true →
  clean_json_response (ws1 +:+ "```json" +:+ body +:+ fence +:+ ws2)
  = PyStr.strip body
  ∧ (startswith body "json" = false →
     clean_json_response (ws1 +:+ fence +:+ body +:+ fence +:+ ws2)
     = fence +:+ PyStr.rstrip body).
Proof.
  intros H1 H2. split.
  - unfold clean_json_response.
    rewrite (strip_fenced ws1 ws2 "``json" body) by done.
    rewrite (startswith_app "```json").
    change (drop_first 7 ("```json" +:+ body +:+ fence))
      with (body +:+ fence).
    rewrite endswith_app. by rewrite drop_last_fence.
  - intros Htag. unfold clean_json_response.
    rewrite (strip_fenced ws1 ws2 "``" body H1 H2
             : PyStr.strip (ws1 +:+ fence +:+ body +:+ fence +:+ ws2) = _).
    change (startswith ("```" +:+ body +:+ fence) "```json")
      with (startswith (body +:+ fence) "json").
    rewrite startswith_tag by done.
    rewrite <-app_assoc_str, endswith_app.
    rewrite drop_last_fence.
    unfold PyStr.strip, fence.
    change (PyStr.lstrip ("```" +:+ body)) with ("```" +:+ body).
    change ("```" +:+ body) with ("``" +:+ String "`" body).
    by rewrite rstrip_after_nonspace.
Qed.

Lemma X28_json_fence_witness :
  clean_json_response
    (" ```json" +:+ newline_str +:+ "{}" +:+ newline_str +:+ "``` ")
  = "{}".
Proof.
  exact (proj1 (X28_json_fence " " " " (newline_str +:+ "{}" +:+ newline_str)
                  eq_refl eq_refl)).
Defined.

(** X29.  [generate_latex_from_content] unwraps both kinds of fence: a
    response in a fence tagged [latex], or in a plain fence, with any white
    space around it, gives the body between the fences, stripped.  The body
    must not begin with a backquote in the first case, nor with the tag in
    the second. *)
Theorem X29_latex_fence (ws1 ws2 body : string) :
  all_space ws1 = true → all_space ws2 = true →
  (startswith body "`" = false →
   clean_latex_response (ws1 +:+ "```latex" +:+ body +:+ fence +:+ ws2)
   = PyStr.strip body)
  ∧ (startswith body "latex" = false →
     clean_latex_response (ws1 +:+ fence +:+ body +:+ fence +:+ ws2)
     = PyStr.strip body).
Proof.
  intros H1 H2. split.
  - intros Hbody. unfold clean_latex_response.
    rewrite (strip_fenced ws1 ws2 "``latex" body) by done.
    rewrite (startswith_app "```latex").
    change (drop_first 8 ("```latex" +:+ body +:+ fence))
      with (body +:+ fence).
    destruct body as [|c body]; [done|].
    assert (startswith (String c body +:+ fence) fence = false) as ->.
    { unfold startswith, fence in *. rewrite app_String.
      cbn [String.prefix] in *.
      destruct (ascii_dec "`" c); [by destruct body | done]. }
    rewrite endswith_app. by rewrite drop_last_fence.
  - intros Htag. unfold clean_latex_response.
    rewrite (strip_fenced ws1 ws2 "``" body H1 H2
             : PyStr.strip (ws1 +:+ fence +:+ body +:+ fence +:+ ws2) = _).
    change (startswith ("```" +:+ body +:+ fence) "```latex")
      with (startswith (body +:+ fence) "latex").
    rewrite startswith_tag by done.
    rewrite (startswith_app fence).
    change (drop_first 3 ("```" +:+ body +:+ fence)) with (body +:+ fence).
    rewrite endswith_app. by rewrite drop_last_fence.
Qed.

Lemma X29_latex_fence_witness :
  clean_latex_response
    ("```" +:+ newline_str +:+ "\documentclass{book}" +:+ newline_str
     +:+ "```" +:+ newline_str)
  = "\documentclass{book}".
Proof.
  exact (proj2 (X29_latex_fence EmptyString newline_str
                  (newline_str +:+ "\documentclass{book}" +:+ newline_str)
                  eq_refl eq_refl) eq_refl).
Defined.

(** ** Cover pages *)

Section cover_pages.

Context (path_exists : string → bool).

Lemma cover_styles_lookup style :
  default (_modern_cover_template path_exists)
          (cover_styles path_exists !! style)
  = if decide (style = "classic") then _classic_cover_template path_exists
    else if decide (style = "children")
         then _children_cover_template path_exists
         else _modern_cover_template path_exists.
Proof.
  unfold cover_styles.
  destruct (decide (style = "classic")) as [->|Hclassic]; [done|].
  destruct (decide (style = "children")) as [->|Hchildren]; [done|].
  destruct (decide (style = "modern")) as [->|Hmodern]; [done|].
  by rewrite !lookup_insert_ne, lookup_singleton_ne by done.
Qed.

Lemma cover_image_lines_off cover_image width vspace :
  cover_on_disk path_exists cover_image = false →
  cover_image_lines path_exists cover_image width vspace
  = cover_image_lines path_exists None width vspace.
Proof. intros H. unfold cover_image_lines. by rewrite H. Qed.

End cover_pages.

(** X30.  [generate_cover_page] falls back to the modern cover for a style
    it does not know.  A cover image that is absent, an empty path, or not
    on disk gives the page of the same style without an image.  With an
    image on disk the page is the page without an image with two lines put
    in, the [\includegraphics] line with the path as given and a space: on
    the modern and the children's cover directly above the title line, on
    the classic cover below the title line and the rule under it. *)
Theorem X30_cover_page (path_exists : string → bool) (title author : string)
    (cover_image : option string) (style : string) :
  (style ∉ ["modern"; "classic"; "children"] →
   generate_cover_page path_exists title author cover_image style
   = generate_cover_page path_exists title author cover_image "modern")
  ∧ (cover_on_disk path_exists cover_image = false →
     generate_cover_page path_exists title author cover_image style
     = generate_cover_page path_exists title author None style)
  ∧ (∀ path, cover_image = Some path →
       cover_on_disk path_exists cover_image = true →
       let image width space :=
         [ "\includegraphics[width=" +:+ width +:+ "\textwidth]{" +:+ path
             +:+ "}";
           "\vspace{" +:+ space +:+ "}" ] in
       ∃ modern classic children,
         generate_cover_page path_exists title author None "modern"
           = PyStr.join newline_str modern
         ∧ generate_cover_page path_exists title author None "classic"
           = PyStr.join newline_str classic
         ∧ generate_cover_page path_exists title author None "children"
           = PyStr.join newline_str children
         ∧ modern !! 3%nat
           = Some ("{\Huge\bfseries " +:+ _clean_text_for_latex title
                   +:+ "\par}")
         ∧ generate_cover_page path_exists title author cover_image "modern"
           = PyStr.join newline_str
               (take 3 modern ++ image "0.6" "2cm" ++ drop 3 modern)
         ∧ children !! 3%nat
           = Some ("{\Huge\colorbox{yellow}{\textcolor{blue}{\textbf{"
                   +:+ _clean_text_for_latex title +:+ "}}}\par}")
         ∧ generate_cover_page path_exists title author cover_image "children"
           = PyStr.join newline_str
               (take 3 children ++ image "0.8" "1cm" ++ drop 3 children)
         ∧ classic !! 4%nat
           = Some ("{\huge\bfseries " +:+ _clean_text_for_latex title
                   +:+ "\par}")
         ∧ classic !! 5%nat = Some "\rule{\linewidth}{0.5mm} \\[1.5cm]"
         ∧ generate_cover_page path_exists title author cover_image "classic"
           = PyStr.join newline_str
               (take 6 classic ++ image "0.5" "1cm" ++ drop 6 classic)).
Proof.
  split_and!.
  - intros Hstyle. rewrite !not_elem_of_cons in Hstyle.
    destruct Hstyle as (Hm & Hc & Hch & _).
    unfold generate_cover_page. rewrite !cover_styles_lookup.
    by rewrite !decide_False by done.
  - intros Hoff. unfold generate_cover_page. rewrite cover_styles_lookup.
    repeat case_decide;
      unfold _classic_cover_template, _children_cover_template,
        _modern_cover_template, classic_cover_lines, children_cover_lines,
        modern_cover_lines;
      by rewrite !(cover_image_lines_off _ cover_image).
  - intros path -> Hon image.
    exists (modern_cover_lines path_exists title author None),
           (classic_cover_lines path_exists title author None),
           (children_cover_lines path_exists title author None).
    unfold generate_cover_page. rewrite !cover_styles_lookup.
    repeat case_decide; try done.
    unfold _modern_cover_template, _classic_cover_template,
      _children_cover_template, modern_cover_lines, children_cover_lines,
      classic_cover_lines, cover_image_lines.
    rewrite Hon.
    assert (cover_on_disk path_exists None = false) as -> by done.
    by split_and!.
Qed.

Lemma X30_cover_page_witness :
  generate_cover_page (fun _ => false) "The Brave Fox" "StoryWeaver AI"
    (Some "static/cover.png") "pastel"
  = generate_cover_page (fun _ => false) "The Brave Fox" "StoryWeaver AI"
      None "modern"
  ∧ ∃ children,
      generate_cover_page (fun _ => true) "The Brave Fox" "StoryWeaver AI"
        None "children"
      = PyStr.join newline_str children
      ∧ generate_cover_page (fun _ => true) "The Brave Fox" "StoryWeaver AI"
          (Some "static/cover.png") "children"
        = PyStr.join newline_str
            (take 3 children
             ++ [ "\includegraphics[width=0.8\textwidth]{static/cover.png}";
                  "\vspace{1cm}" ]
             ++ drop 3 children).
Proof.
  destruct (X30_cover_page (fun _ => false) "The Brave Fox" "StoryWeaver AI"
              (Some "static/cover.png") "pastel") as (Hstyle & _ & _).
  destruct (X30_cover_page (fun _ => false) "The Brave Fox" "StoryWeaver AI"
              (Some "static/cover.png") "modern") as (_ & Himage & _).
  destruct (X30_cover_page (fun _ => true) "The Brave Fox" "StoryWeaver AI"
              (Some "static/cover.png") "children") as (_ & _ & Hon).
  destruct (Hon "static/cover.png" eq_refl eq_refl)
    as (_ & _ & children & _ & _ & Hplain & _ & _ & _ & Hpage & _).
  split.
  - rewrite Hstyle by (by apply (bool_decide_unpack _)).
    by apply Himage.
  - by exists children.
Defined.
